(** * Trading ledger: position engine, store and import path

    A shallow embedding of the Go sources

      - internal/domain/types.go      (accounts, trades, positions)
      - internal/store/positions.go   (position engine, rebuild)
      - internal/store (trades)       (InsertTrade, ListTrades, cursors)
      - internal/store (accounts)     (GetOrCreateAccount)
      - internal/ingest/event.go      (TradeEvent, Validate, ToDomain)
      - internal/ingest (consumer)    (handleMessage)
      - internal/api/import.go        (bulk import handler)
      - migrations (initial schema)   (keys and indexes of the tables)

    followed by the properties of the specification that were checked
    against them.

    Modelling conventions.

      - float64 quantities and prices are exact rationals ([Q]); rounding,
        infinities and NaN are abstracted away.  Go's float division by zero
        does not panic; [Qdiv] returns 0 there.  The engine never divides by
        zero on validated trades.
      - a Go [string] is a byte sequence: Rocq's [string] of 8-bit [ascii].
      - a [time.Time] is a wall-clock reading with its zone offset; the
        store keeps it as it is (PostgreSQL's microsecond resolution and its
        normalisation to UTC are abstracted away) and orders by the instant.
      - a PostgreSQL table is the list of its rows; constraints of the
        schema (primary keys, the partial unique index on open positions,
        foreign keys) are checked on INSERT and violations are errors.
        The one column narrower than its Go field is [leverage]: a Go
        [int] written to an [INTEGER]; a statement that carries a leverage
        outside 32 bits fails.
      - a transaction is a function on the store; rollback returns the store
        the transaction started from.  Transient I/O failures are not
        modelled: they abort the transaction and leave the store unchanged.
      - functions of the Go standard library ([time.Parse], [Time.Format],
        [base64.URLEncoding], [strings.SplitN]) are modelled from the
        library; [time.Parse] is the strict RFC 3339 reader followed by the
        layout parser it falls back to.  [sort.Slice] and the iteration
        order of a Go map are parameters. *)

From Stdlib Require Import ZArith NArith QArith Qminmax Lia Lqa List String Ascii Bool.
From Stdlib Require Import Permutation Sorted DecimalString.
Import ListNotations.

Local Open Scope string_scope.
Local Open Scope Z_scope.

(** ** Results of fallible operations *)

Inductive result (A : Type) : Type :=
| Ok (a : A)
| Err (msg : string).
Arguments Ok {A} a.
Arguments Err {A} msg.

Definition is_ok {A} (r : result A) : bool :=
  match r with Ok _ => true | Err _ => false end.

(** ** time.Time

    A [Time] is the wall-clock reading together with the zone offset (seconds
    east of UTC) that an RFC 3339 text denotes.  [instant] is the number of
    nanoseconds since the Unix epoch. *)

Record Time : Type := mkTime {
  year : Z; month : Z; day : Z;
  hour : Z; minute : Z; second : Z;
  nanosecond : Z;
  zoneOffset : Z
}.

(** Days since 1970-01-01 of a proleptic Gregorian date. *)
Definition days_from_civil (y m d : Z) : Z :=
  let y' := if m <=? 2 then y - 1 else y in
  let era := y' / 400 in
  let yoe := y' - era * 400 in
  let mp := if m <=? 2 then m + 9 else m - 3 in
  let doy := (153 * mp + 2) / 5 + d - 1 in
  let doe := yoe * 365 + yoe / 4 - yoe / 100 + doy in
  era * 146097 + doe - 719468.

(** [Time.Unix]: seconds since the epoch. *)
Definition Unix (t : Time) : Z :=
  days_from_civil (year t) (month t) (day t) * 86400
  + hour t * 3600 + minute t * 60 + second t - zoneOffset t.

Definition instant (t : Time) : Z :=
  Unix t * 1000000000 + nanosecond t.

(** Two readings of the clock used in the examples. *)
Definition t_10h : Time := mkTime 2025 1 15 10 0 0 0 0.
Definition t_11h : Time := mkTime 2025 1 15 11 0 0 0 0.

(** ** internal/domain/types.go *)

Inductive AccountType := AccountTypeLive | AccountTypePaper.
Inductive Side := SideBuy | SideSell.
Inductive PositionSide := PositionSideLong | PositionSideShort.
Inductive MarketType := MarketTypeSpot | MarketTypeFutures.
Inductive PositionStatus := PositionStatusOpen | PositionStatusClosed.

Definition MarketType_eqb (a b : MarketType) : bool :=
  match a, b with
  | MarketTypeSpot, MarketTypeSpot | MarketTypeFutures, MarketTypeFutures => true
  | _, _ => false
  end.

Definition is_open (s : PositionStatus) : bool :=
  match s with PositionStatusOpen => true | PositionStatusClosed => false end.

Module Account.
Record t : Type := mk {
  ID : string;
  Name : string;
  Type_ : AccountType;
  CreatedAt : Time
}.
End Account.

Module Trade.
Record t : Type := mk {
  TradeID : string;
  AccountID : string;
  Symbol : string;
  Side : Side;
  Quantity : Q;
  Price : Q;
  Fee : Q;
  FeeCurrency : string;
  MarketType : MarketType;
  Timestamp : Time;
  IngestedAt : Time;
  CostBasis : Q;
  RealizedPnL : Q;
  Leverage : option Z;
  Margin : option Q;
  LiquidationPrice : option Q;
  FundingFee : option Q
}.
End Trade.

Module Position.
Record t : Type := mk {
  ID : string;
  AccountID : string;
  Symbol : string;
  MarketType : MarketType;
  Side : PositionSide;
  Quantity : Q;
  AvgEntryPrice : Q;
  CostBasis : Q;
  RealizedPnL : Q;
  Leverage : option Z;
  Margin : option Q;
  LiquidationPrice : option Q;
  Status : PositionStatus;
  OpenedAt : Time;
  ClosedAt : option Time
}.
End Position.

(** InferAccountType *)
Definition InferAccountType (accountID : string) : AccountType :=
  if String.eqb accountID "paper" then AccountTypePaper else AccountTypeLive.

(** ** The store: three tables of the schema *)

Record Store : Type := mkStore {
  accounts : list Account.t;
  trades : list Trade.t;
  positions : list Position.t
}.

Definition empty_store : Store := mkStore [] [] [].

Definition account_exists (s : Store) (id : string) : bool :=
  existsb (fun a => String.eqb (Account.ID a) id) (accounts s).

Definition trade_exists (s : Store) (id : string) : bool :=
  existsb (fun t => String.eqb (Trade.TradeID t) id) (trades s).

(** [WHERE account_id = $1 AND symbol = $2 AND market_type = .. AND status = 'open'] *)
Definition open_at (acct sym : string) (mt : MarketType) (p : Position.t) : bool :=
  String.eqb (Position.AccountID p) acct
  && String.eqb (Position.Symbol p) sym
  && MarketType_eqb (Position.MarketType p) mt
  && is_open (Position.Status p).

(** [QueryRow(..).Scan]: the first matching row, or [pgx.ErrNoRows]. *)
Definition query_open_position (s : Store) (acct sym : string) (mt : MarketType)
  : option Position.t :=
  find (open_at acct sym mt) (positions s).

(** The columns [leverage INTEGER] take a 32-bit value; the Go field is an
    [*int].  A statement whose leverage argument does not fit fails before
    any row is looked at. *)
Definition int4_fits (leverage : option Z) : bool :=
  match leverage with
  | Some l => (-2147483648 <=? l) && (l <=? 2147483647)
  | None => true
  end.

(** [INSERT INTO ledger_positions]: the leverage argument, primary key [id],
    foreign key to accounts, partial unique index
    [idx_ledger_positions_open_unique]. *)
Definition insert_position (s : Store) (row : Position.t) : result Store :=
  if negb (int4_fits (Position.Leverage row))
  then Err "leverage is out of range for int4"
  else if existsb (fun p => String.eqb (Position.ID p) (Position.ID row)) (positions s)
  then Err "duplicate key value violates unique constraint ledger_positions_pkey"
  else if negb (account_exists s (Position.AccountID row))
  then Err "violates foreign key constraint on ledger_accounts"
  else if is_open (Position.Status row)
          && existsb (open_at (Position.AccountID row) (Position.Symbol row)
                              (Position.MarketType row)) (positions s)
  then Err "duplicate key value violates unique constraint idx_ledger_positions_open_unique"
  else Ok (mkStore (accounts s) (trades s) (positions s ++ [row])).

(** [UPDATE ledger_positions SET .. WHERE id = $n] *)
Definition update_position (s : Store) (id : string) (f : Position.t -> Position.t)
  : Store :=
  mkStore (accounts s) (trades s)
          (map (fun p => if String.eqb (Position.ID p) id then f p else p)
               (positions s)).

(** The SET clauses used by the engine. *)
Definition set_increase (q ap cb : Q) (p : Position.t) : Position.t :=
  Position.mk (Position.ID p) (Position.AccountID p) (Position.Symbol p)
    (Position.MarketType p) (Position.Side p)
    q ap cb (Position.RealizedPnL p)
    (Position.Leverage p) (Position.Margin p) (Position.LiquidationPrice p)
    (Position.Status p) (Position.OpenedAt p) (Position.ClosedAt p).

Definition COALESCE {A} (new existing : option A) : option A :=
  match new with Some _ => new | None => existing end.

Definition set_increase_futures (q ap cb : Q)
  (lev : option Z) (mar liq : option Q) (p : Position.t) : Position.t :=
  Position.mk (Position.ID p) (Position.AccountID p) (Position.Symbol p)
    (Position.MarketType p) (Position.Side p)
    q ap cb (Position.RealizedPnL p)
    (COALESCE lev (Position.Leverage p)) (COALESCE mar (Position.Margin p))
    (COALESCE liq (Position.LiquidationPrice p))
    (Position.Status p) (Position.OpenedAt p) (Position.ClosedAt p).

Definition set_closed (realized : Q) (ts : Time) (p : Position.t) : Position.t :=
  Position.mk (Position.ID p) (Position.AccountID p) (Position.Symbol p)
    (Position.MarketType p) (Position.Side p)
    0%Q (Position.AvgEntryPrice p) (Position.CostBasis p)
    (Position.RealizedPnL p + realized)%Q
    (Position.Leverage p) (Position.Margin p) (Position.LiquidationPrice p)
    PositionStatusClosed (Position.OpenedAt p) (Some ts).

Definition set_partial (q cb realized : Q) (p : Position.t) : Position.t :=
  Position.mk (Position.ID p) (Position.AccountID p) (Position.Symbol p)
    (Position.MarketType p) (Position.Side p)
    q (Position.AvgEntryPrice p) cb
    (Position.RealizedPnL p + realized)%Q
    (Position.Leverage p) (Position.Margin p) (Position.LiquidationPrice p)
    (Position.Status p) (Position.OpenedAt p) (Position.ClosedAt p).

(** [%d] of an int64. *)
Definition itoa (n : Z) : string := NilZero.string_of_int (Z.to_int n).

(** [fmt.Sprintf("%s-%s-spot-%d", ..)] and its futures twin. *)
Definition position_id (acct sym market : string) (ts : Time) : string :=
  acct ++ "-" ++ sym ++ "-" ++ market ++ "-" ++ itoa (Unix ts).

(** ** internal/store/positions.go: the position engine *)

Definition upsertSpotPosition (tx : Store) (trade : Trade.t) : result Store :=
  match query_open_position tx (Trade.AccountID trade) (Trade.Symbol trade)
                            MarketTypeSpot with
  | None =>
      match Trade.Side trade with
      | SideBuy =>
          let costBasis := (Trade.Quantity trade * Trade.Price trade + Trade.Fee trade)%Q in
          let posID := position_id (Trade.AccountID trade) (Trade.Symbol trade)
                                   "spot" (Trade.Timestamp trade) in
          insert_position tx
            (Position.mk posID (Trade.AccountID trade) (Trade.Symbol trade)
               MarketTypeSpot PositionSideLong
               (Trade.Quantity trade) (Trade.Price trade) costBasis 0%Q
               None None None
               PositionStatusOpen (Trade.Timestamp trade) None)
      | SideSell => Ok tx
      end
  | Some pos =>
      match Trade.Side trade with
      | SideBuy =>
          let newCostBasis := (Trade.Quantity trade * Trade.Price trade + Trade.Fee trade)%Q in
          let totalQuantity := (Position.Quantity pos + Trade.Quantity trade)%Q in
          let totalCost := (Position.CostBasis pos + newCostBasis)%Q in
          let avgEntry := (totalCost / totalQuantity)%Q in
          Ok (update_position tx (Position.ID pos)
                (set_increase totalQuantity avgEntry totalCost))
      | SideSell =>
          let realizedPnL :=
            ((Trade.Price trade - Position.AvgEntryPrice pos) * Trade.Quantity trade
             - Trade.Fee trade)%Q in
          let newQuantity := (Position.Quantity pos - Trade.Quantity trade)%Q in
          if Qle_bool newQuantity 0 then
            Ok (update_position tx (Position.ID pos)
                  (set_closed realizedPnL (Trade.Timestamp trade)))
          else
            let remainingCostBasis := (Position.AvgEntryPrice pos * newQuantity)%Q in
            Ok (update_position tx (Position.ID pos)
                  (set_partial newQuantity remainingCostBasis realizedPnL))
      end
  end.

Definition upsertFuturesPosition (tx : Store) (trade : Trade.t) : result Store :=
  match query_open_position tx (Trade.AccountID trade) (Trade.Symbol trade)
                            MarketTypeFutures with
  | None =>
      let posSide := match Trade.Side trade with
                     | SideBuy => PositionSideLong
                     | SideSell => PositionSideShort
                     end in
      let costBasis := (Trade.Quantity trade * Trade.Price trade)%Q in
      let posID := position_id (Trade.AccountID trade) (Trade.Symbol trade)
                               "futures" (Trade.Timestamp trade) in
      insert_position tx
        (Position.mk posID (Trade.AccountID trade) (Trade.Symbol trade)
           MarketTypeFutures posSide
           (Trade.Quantity trade) (Trade.Price trade) costBasis 0%Q
           (Trade.Leverage trade) (Trade.Margin trade) (Trade.LiquidationPrice trade)
           PositionStatusOpen (Trade.Timestamp trade) None)
  | Some pos =>
      let isClosing :=
        match Position.Side pos, Trade.Side trade with
        | PositionSideLong, SideSell | PositionSideShort, SideBuy => true
        | _, _ => false
        end in
      if negb isClosing then
        let newCost := (Trade.Quantity trade * Trade.Price trade)%Q in
        let totalQuantity := (Position.Quantity pos + Trade.Quantity trade)%Q in
        let totalCost := (Position.CostBasis pos + newCost)%Q in
        let avgEntry := (totalCost / totalQuantity)%Q in
        if negb (int4_fits (Trade.Leverage trade))
        then Err "leverage is out of range for int4"
        else
          Ok (update_position tx (Position.ID pos)
                (set_increase_futures totalQuantity avgEntry totalCost
                   (Trade.Leverage trade) (Trade.Margin trade)
                   (Trade.LiquidationPrice trade)))
      else
        let realizedPnL0 :=
          match Position.Side pos with
          | PositionSideLong =>
              ((Trade.Price trade - Position.AvgEntryPrice pos) * Trade.Quantity trade)%Q
          | PositionSideShort =>
              ((Position.AvgEntryPrice pos - Trade.Price trade) * Trade.Quantity trade)%Q
          end in
        let realizedPnL1 := (realizedPnL0 - Trade.Fee trade)%Q in
        let realizedPnL :=
          match Trade.FundingFee trade with
          | Some g => (realizedPnL1 - g)%Q
          | None => realizedPnL1
          end in
        let newQuantity := (Position.Quantity pos - Trade.Quantity trade)%Q in
        if Qle_bool newQuantity 0 then
          Ok (update_position tx (Position.ID pos)
                (set_closed realizedPnL (Trade.Timestamp trade)))
        else
          let remainingCost := (Position.AvgEntryPrice pos * newQuantity)%Q in
          Ok (update_position tx (Position.ID pos)
                (set_partial newQuantity remainingCost realizedPnL))
  end.

Definition UpsertPosition (tx : Store) (trade : Trade.t) : result Store :=
  match Trade.MarketType trade with
  | MarketTypeSpot => upsertSpotPosition tx trade
  | MarketTypeFutures => upsertFuturesPosition tx trade
  end.

(** ** internal/store: trades *)

(** [INSERT INTO ledger_trades .. ON CONFLICT (trade_id) DO NOTHING];
    the result is [tag.RowsAffected() > 0].  The arguments are encoded for
    their columns before the statement runs, so a leverage that does not
    fit fails also for a trade id that is already there. *)
Definition InsertTrade (tx : Store) (trade : Trade.t) : result (bool * Store) :=
  if negb (int4_fits (Trade.Leverage trade))
  then Err "insert trade: leverage is out of range for int4"
  else if trade_exists tx (Trade.TradeID trade) then Ok (false, tx)
  else if negb (account_exists tx (Trade.AccountID trade))
  then Err "insert trade: violates foreign key constraint on ledger_accounts"
  else Ok (true, mkStore (accounts tx) (trades tx ++ [trade]) (positions tx)).

(** InsertTradeAndUpdatePosition: one transaction; the deferred
    [tx.Rollback] restores the store on every error path. *)
Definition InsertTradeAndUpdatePosition (s : Store) (trade : Trade.t)
  : result bool * Store :=
  match InsertTrade s trade with
  | Err e => (Err e, s)
  | Ok (inserted, tx) =>
      if inserted then
        match UpsertPosition tx trade with
        | Err e => (Err e, s)
        | Ok tx' => (Ok inserted, tx')
        end
      else (Ok inserted, tx)
  end.

(** ** ORDER BY: a stable insertion sort under a boolean order *)

Section Sorting.
Context {A : Type}.
Variable leb : A -> A -> bool.

Fixpoint insert_sorted (x : A) (l : list A) : list A :=
  match l with
  | [] => [x]
  | y :: l' => if leb x y then x :: l else y :: insert_sorted x l'
  end.

Definition sort_by (l : list A) : list A := fold_right insert_sorted [] l.
End Sorting.

(** [ORDER BY timestamp ASC, trade_id ASC] *)
Definition trade_order_leb (a b : Trade.t) : bool :=
  (instant (Trade.Timestamp a) <? instant (Trade.Timestamp b))
  || ((instant (Trade.Timestamp a) =? instant (Trade.Timestamp b))
      && String.leb (Trade.TradeID a) (Trade.TradeID b)).

(** TradesForRebuild *)
Definition TradesForRebuild (tx : Store) (accountID : string) : list Trade.t :=
  sort_by trade_order_leb
    (filter (fun t => String.eqb (Trade.AccountID t) accountID) (trades tx)).

(** [DELETE FROM ledger_positions WHERE account_id = $1] *)
Definition delete_positions (s : Store) (accountID : string) : Store :=
  mkStore (accounts s) (trades s)
    (filter (fun p => negb (String.eqb (Position.AccountID p) accountID))
            (positions s)).

(** The replay loop of RebuildPositions. *)
Fixpoint replay (tx : Store) (ts : list Trade.t) : result Store :=
  match ts with
  | [] => Ok tx
  | t :: ts' =>
      match UpsertPosition tx t with
      | Err e => Err ("upsert position during rebuild: " ++ e)
      | Ok tx' => replay tx' ts'
      end
  end.

(** RebuildPositions: delete, load, replay, commit - or roll back. *)
Definition RebuildPositions (s : Store) (accountID : string) : result unit * Store :=
  let tx := delete_positions s accountID in
  let trades := TradesForRebuild tx accountID in
  match replay tx trades with
  | Err e => (Err e, s)
  | Ok tx' => (Ok tt, tx')
  end.

(** CostBasisForTrade stamps the trade in place. *)
Definition with_cost_basis (trade : Trade.t) (cb rp : Q) : Trade.t :=
  Trade.mk (Trade.TradeID trade) (Trade.AccountID trade) (Trade.Symbol trade)
    (Trade.Side trade) (Trade.Quantity trade) (Trade.Price trade) (Trade.Fee trade)
    (Trade.FeeCurrency trade) (Trade.MarketType trade) (Trade.Timestamp trade)
    (Trade.IngestedAt trade) cb rp
    (Trade.Leverage trade) (Trade.Margin trade) (Trade.LiquidationPrice trade)
    (Trade.FundingFee trade).

Definition CostBasisForTrade (trade : Trade.t) (avgEntryPrice : Q) : Trade.t :=
  match Trade.Side trade with
  | SideBuy =>
      with_cost_basis trade
        (Trade.Quantity trade * Trade.Price trade + Trade.Fee trade)%Q 0%Q
  | SideSell =>
      with_cost_basis trade
        (avgEntryPrice * Trade.Quantity trade)%Q
        ((Trade.Price trade - avgEntryPrice) * Trade.Quantity trade - Trade.Fee trade)%Q
  end.

(** GetAvgEntryPrice *)
Definition GetAvgEntryPrice (s : Store) (accountID symbol : string)
  (marketType : MarketType) : Q :=
  match query_open_position s accountID symbol marketType with
  | Some p => Position.AvgEntryPrice p
  | None => 0%Q
  end.

(** GetOrCreateAccount: after the INSERT the function calls itself once and
    that call finds the row; [now] is the column default [NOW()]. *)
Definition GetOrCreateAccount (s : Store) (id : string) (accountType : AccountType)
  (now : Time) : result Account.t * Store :=
  match find (fun a => String.eqb (Account.ID a) id) (accounts s) with
  | Some acct => (Ok acct, s)
  | None =>
      let acct := Account.mk id id accountType now in
      (Ok acct, mkStore (accounts s ++ [acct]) (trades s) (positions s))
  end.

(** * Text: decimal fields and RFC 3339

    Modelled on the Go standard library (packages [time] and [strings]),
    which the repository calls but does not contain: [time.Parse] with the
    layouts [time.RFC3339] / [time.RFC3339Nano] - the strict reader
    [parseRFC3339] first, then the layout parser [parse] - and
    [Time.Format(time.RFC3339Nano)]. *)

Definition isDigit (c : ascii) : bool :=
  (48 <=? Z.of_N (N_of_ascii c)) && (Z.of_N (N_of_ascii c) <=? 57).

Definition digit_val (c : ascii) : Z := Z.of_N (N_of_ascii c) - 48.

Definition digit_char (d : Z) : ascii := ascii_of_N (Z.to_N (48 + d)).

(** [parseUint]: decimal digits only, value within [lo, hi]. *)
Fixpoint digits_value (acc : Z) (cs : list ascii) : option Z :=
  match cs with
  | [] => Some acc
  | c :: cs' => if isDigit c then digits_value (acc * 10 + digit_val c) cs' else None
  end.

Definition parseUint (cs : list ascii) (lo hi : Z) : option Z :=
  match digits_value 0 cs with
  | Some x => if (lo <=? x) && (x <=? hi) then Some x else None
  | None => None
  end.

Definition isLeap (y : Z) : bool :=
  (y mod 4 =? 0) && (negb (y mod 100 =? 0) || (y mod 400 =? 0)).

Definition daysIn (m y : Z) : Z :=
  if m =? 2 then (if isLeap y then 29 else 28)
  else if (m =? 4) || (m =? 6) || (m =? 9) || (m =? 11) then 30
  else 31.

(** The maximal run of digits at the head of a text, and what follows it. *)
Fixpoint span_digits (s : string) : list ascii * string :=
  match s with
  | String c s' =>
      if isDigit c then let (ds, r) := span_digits s' in (c :: ds, r)
      else ([], s)
  | EmptyString => ([], s)
  end.

(** [parseNanoseconds]: at most nine digits count, scaled to nanoseconds. *)
Definition parseNanoseconds (ds : list ascii) : Z :=
  let ds9 := firstn 9 ds in
  match digits_value 0 ds9 with
  | Some v => v * 10 ^ (9 - Z.of_nat (List.length ds9))
  | None => 0
  end.

(** The optional fractional second: [(nsec, rest)]. *)
Definition parse_fraction (s : string) : Z * string :=
  match s with
  | String dot (String c s') =>
      if Ascii.eqb dot "." && isDigit c then
        let (ds, r) := span_digits (String c s') in (parseNanoseconds ds, r)
      else (0, s)
  | _ => (0, s)
  end.

(** The zone: ["Z"] or a signed [hh:mm]; the result is seconds east of UTC. *)
Definition parse_zone (s : string) : option Z :=
  match s with
  | String z EmptyString =>
      if Ascii.eqb z "Z" then Some 0 else None
  | String sg (String h1 (String h2 (String c (String m1 (String m2 EmptyString))))) =>
      match parseUint [h1; h2] 0 23, parseUint [m1; m2] 0 59 with
      | Some hr, Some mm =>
          if (Ascii.eqb sg "-" || Ascii.eqb sg "+") && Ascii.eqb c ":" then
            let off := (hr * 60 + mm) * 60 in
            Some (if Ascii.eqb sg "-" then - off else off)
          else None
      | _, _ => None
      end
  | _ => None
  end.

(** [parseRFC3339]: the strict reader that [time.Parse] tries first. *)
Definition parseRFC3339 (s : string) : option Time :=
  match s with
  | String y1 (String y2 (String y3 (String y4 (String c4
    (String m1 (String m2 (String c7
    (String d1 (String d2 (String c10
    (String h1 (String h2 (String c13
    (String n1 (String n2 (String c16
    (String s1 (String s2 rest)))))))))))))))))) =>
      match parseUint [y1; y2; y3; y4] 0 9999, parseUint [m1; m2] 1 12 with
      | Some yr, Some mo =>
          match parseUint [d1; d2] 1 (daysIn mo yr),
                parseUint [h1; h2] 0 23,
                parseUint [n1; n2] 0 59,
                parseUint [s1; s2] 0 59 with
          | Some dy, Some hr, Some mi, Some sc =>
              if Ascii.eqb c4 "-" && Ascii.eqb c7 "-" && Ascii.eqb c10 "T"
                 && Ascii.eqb c13 ":" && Ascii.eqb c16 ":" then
                let (nsec, rest') := parse_fraction rest in
                match parse_zone rest' with
                | Some off => Some (mkTime yr mo dy hr mi sc nsec off)
                | None => None
                end
              else None
          | _, _, _, _ => None
          end
      | _, _ => None
      end
  | _ => None
  end.

(** The layout parser [parse] that [time.Parse] falls back to, followed
    along the layout [2006-01-02T15:04:05Z07:00]; with the layout of
    [time.RFC3339Nano] it reads the same texts to the same times. *)

(** [getnum]: one or two digits, two when [fixed]. *)
Definition getnum (s : string) (fixed : bool) : option (Z * string) :=
  match s with
  | String c0 rest =>
      if isDigit c0 then
        match rest with
        | String c1 rest' =>
            if isDigit c1 then Some (digit_val c0 * 10 + digit_val c1, rest')
            else if fixed then None else Some (digit_val c0, rest)
        | EmptyString => if fixed then None else Some (digit_val c0, rest)
        end
      else None
  | EmptyString => None
  end.

(** [skip] of a literal of one character. *)
Definition skip (s : string) (prefix : ascii) : option string :=
  match s with
  | String c s' => if Ascii.eqb c prefix then Some s' else None
  | EmptyString => None
  end.

Definition commaOrPeriod (c : ascii) : bool :=
  Ascii.eqb c "." || Ascii.eqb c ",".

(** The fractional second after the seconds: a comma or a period and
    digits. *)
Definition layout_fraction (s : string) : Z * string :=
  match s with
  | String sep (String c s') =>
      if commaOrPeriod sep && isDigit c then
        let (ds, r) := span_digits (String c s') in (parseNanoseconds ds, r)
      else (0, s)
  | _ => (0, s)
  end.

(** The element [Z07:00] and the end of the text.  The range test uses [>]:
    offsets of 24 hours and of 60 minutes are read. *)
Definition layout_zone (s : string) : option Z :=
  match s with
  | String z rest =>
      if Ascii.eqb z "Z" then
        match rest with EmptyString => Some 0 | _ => None end
      else
        match rest with
        | String h1 (String h2 (String c (String m1 (String m2 EmptyString)))) =>
            if Ascii.eqb c ":" then
              match getnum (String h1 (String h2 EmptyString)) true,
                    getnum (String m1 (String m2 EmptyString)) true with
              | Some (hr, _), Some (mm, _) =>
                  if (24 <? hr) || (60 <? mm) then None
                  else
                    let off := (hr * 60 + mm) * 60 in
                    if Ascii.eqb z "+" then Some off
                    else if Ascii.eqb z "-" then Some (- off)
                    else None
              | _, _ => None
              end
            else None
        | _ => None
        end
  | EmptyString => None
  end.

Definition option_bind {A B} (o : option A) (k : A -> option B) : option B :=
  match o with Some a => k a | None => None end.

Definition parse (s : string) : option Time :=
  match s with
  | String y1 (String y2 (String y3 (String y4 r))) =>
      option_bind (digits_value 0 [y1; y2; y3; y4]) (fun yr =>
      option_bind (skip r "-") (fun r =>
      option_bind (getnum r true) (fun '(mo, r) =>
      if (mo <=? 0) || (12 <? mo) then None else
      option_bind (skip r "-") (fun r =>
      option_bind (getnum r true) (fun '(dy, r) =>
      option_bind (skip r "T") (fun r =>
      option_bind (getnum r false) (fun '(hr, r) =>
      if 24 <=? hr then None else
      option_bind (skip r ":") (fun r =>
      option_bind (getnum r true) (fun '(mi, r) =>
      if 60 <=? mi then None else
      option_bind (skip r ":") (fun r =>
      option_bind (getnum r true) (fun '(sc, r) =>
      if 60 <=? sc then None else
      let (nsec, r) := layout_fraction r in
      option_bind (layout_zone r) (fun off =>
      if (dy <? 1) || (daysIn mo yr <? dy) then None
      else Some (mkTime yr mo dy hr mi sc nsec off)))))))))))))
  | _ => None
  end.

(** [time.Parse(time.RFC3339, s)] and [time.Parse(time.RFC3339Nano, s)]. *)
Definition time_Parse (s : string) : option Time :=
  match parseRFC3339 s with
  | Some t => Some t
  | None => parse s
  end.

(** * internal/ingest/event.go *)

Module TradeEvent.
Record t : Type := mk {
  TradeID : string;
  AccountID : string;
  Symbol : string;
  Side : string;
  Quantity : Q;
  Price : Q;
  Fee : Q;
  FeeCurrency : string;
  MarketType : string;
  Timestamp : string;
  Leverage : option Z;
  Margin : option Q;
  LiquidationPrice : option Q;
  FundingFee : option Q
}.
End TradeEvent.

(** Validate; the messages leave out the interpolated values. *)
Definition Validate (e : TradeEvent.t) : result unit :=
  if String.eqb (TradeEvent.TradeID e) "" then
    Err "missing required field: trade_id"
  else if String.eqb (TradeEvent.AccountID e) "" then
    Err "missing required field: account_id"
  else if String.eqb (TradeEvent.Symbol e) "" then
    Err "missing required field: symbol"
  else if negb (String.eqb (TradeEvent.Side e) "buy")
          && negb (String.eqb (TradeEvent.Side e) "sell") then
    Err "invalid side (must be buy or sell)"
  else if Qle_bool (TradeEvent.Quantity e) 0 then
    Err "quantity must be positive"
  else if Qle_bool (TradeEvent.Price e) 0 then
    Err "price must be positive"
  else if String.eqb (TradeEvent.FeeCurrency e) "" then
    Err "missing required field: fee_currency"
  else if String.eqb (TradeEvent.Timestamp e) "" then
    Err "missing required field: timestamp"
  else if negb (String.eqb (TradeEvent.MarketType e) "spot")
          && negb (String.eqb (TradeEvent.MarketType e) "futures") then
    Err "invalid market_type (must be spot or futures)"
  else
    match time_Parse (TradeEvent.Timestamp e) with
    | None => Err "invalid timestamp"
    | Some _ => Ok tt
    end.

(** The conversions [domain.Side(e.Side)] and [domain.MarketType(e.MarketType)]
    keep the text; the engine only asks whether the side is "buy" and whether
    the market type is "spot". *)
Definition Side_of_string (s : string) : Side :=
  if String.eqb s "buy" then SideBuy else SideSell.

Definition MarketType_of_string (s : string) : MarketType :=
  if String.eqb s "spot" then MarketTypeSpot else MarketTypeFutures.

(** ToDomain; [now] is the reading of [time.Now()]. *)
Definition ToDomain (e : TradeEvent.t) (now : Time) : result Trade.t :=
  match time_Parse (TradeEvent.Timestamp e) with
  | None => Err "parse timestamp"
  | Some ts =>
      let side := Side_of_string (TradeEvent.Side e) in
      let costBasis :=
        match side with
        | SideBuy => (TradeEvent.Quantity e * TradeEvent.Price e + TradeEvent.Fee e)%Q
        | SideSell => 0%Q
        end in
      Ok (Trade.mk (TradeEvent.TradeID e) (TradeEvent.AccountID e)
            (TradeEvent.Symbol e) side
            (TradeEvent.Quantity e) (TradeEvent.Price e) (TradeEvent.Fee e)
            (TradeEvent.FeeCurrency e)
            (MarketType_of_string (TradeEvent.MarketType e))
            ts now costBasis 0%Q
            (TradeEvent.Leverage e) (TradeEvent.Margin e)
            (TradeEvent.LiquidationPrice e) (TradeEvent.FundingFee e))
  end.

(** The sell-side stamping shared by the consumer and the import handler. *)
Definition stamp_cost_basis (s : Store) (trade : Trade.t) : Trade.t :=
  match Trade.Side trade with
  | SideSell =>
      CostBasisForTrade trade
        (GetAvgEntryPrice s (Trade.AccountID trade) (Trade.Symbol trade)
                          (Trade.MarketType trade))
  | SideBuy => trade
  end.

(** * The stream consumer: handleMessage *)

Inductive disposition := Ack | Nak | Term.

(** [payload] is the outcome of [json.Unmarshal]. *)
Definition handleMessage (s : Store) (payload : option TradeEvent.t) (now : Time)
  : disposition * Store :=
  match payload with
  | None => (Term, s)
  | Some event =>
      match Validate event with
      | Err _ => (Term, s)
      | Ok _ =>
          match ToDomain event now with
          | Err _ => (Term, s)
          | Ok trade =>
              let accountType := InferAccountType (TradeEvent.AccountID event) in
              match GetOrCreateAccount s (Trade.AccountID trade) accountType now with
              | (Err _, s1) => (Nak, s1)
              | (Ok _, s1) =>
                  let trade := stamp_cost_basis s1 trade in
                  match InsertTradeAndUpdatePosition s1 trade with
                  | (Err _, s2) => (Nak, s2)
                  | (Ok _, s2) => (Ack, s2)
                  end
              end
          end
      end
  end.

(** * internal/api/import.go *)

Module ImportResult.
Record t : Type := mk {
  TradeID : string;
  Status : string;
  Error : string
}.
End ImportResult.

Module ImportResponse.
Record t : Type := mk {
  Total : Z;
  Inserted : Z;
  Duplicates : Z;
  Errors : Z;
  Results : list ImportResult.t
}.
End ImportResponse.

Inductive http_response :=
| writeError (status : Z) (msg : string)
| writeJSON (status : Z) (resp : ImportResponse.t).

Definition http_status (r : http_response) : Z :=
  match r with writeError st _ => st | writeJSON st _ => st end.

Definition StatusOK : Z := 200.
Definition StatusBadRequest : Z := 400.
Definition StatusUnprocessableEntity : Z := 422.

(** The first event that fails validation, with its index and the error. *)
Fixpoint first_invalid (i : nat) (events : list TradeEvent.t)
  : option (nat * TradeEvent.t * string) :=
  match events with
  | [] => None
  | e :: es =>
      match Validate e with
      | Err msg => Some (i, e, msg)
      | Ok _ => first_invalid (S i) es
      end
  end.

(** The comparison handed to [sort.Slice]: Go's [<] on the timestamp texts. *)
Definition timestamp_less (a b : TradeEvent.t) : bool :=
  String.ltb (TradeEvent.Timestamp a) (TradeEvent.Timestamp b).

(** [affectedAccounts[id] = true] *)
Definition add_account (id : string) (l : list string) : list string :=
  if existsb (String.eqb id) l then l else (l ++ [id])%list.

(** What the loop of the handler carries from one event to the next. *)
Record import_state : Type := mkImportState {
  st_store : Store;
  st_inserted : Z;
  st_duplicates : Z;
  st_errors : Z;
  st_results : list ImportResult.t;
  st_affected : list string
}.

Definition import_error (st : import_state) (s : Store) (id msg : string)
  : import_state :=
  mkImportState s (st_inserted st) (st_duplicates st) (st_errors st + 1)
    (st_results st ++ [ImportResult.mk id "error" msg]) (st_affected st).

(** One turn of the loop over the sorted events. *)
Definition import_event (now : Time) (st : import_state) (event : TradeEvent.t)
  : import_state :=
  let s := st_store st in
  let id := TradeEvent.TradeID event in
  match ToDomain event now with
  | Err e => import_error st s id e
  | Ok trade =>
      let accountType := InferAccountType (TradeEvent.AccountID event) in
      match GetOrCreateAccount s (Trade.AccountID trade) accountType now with
      | (Err e, s1) => import_error st s1 id ("account setup failed: " ++ e)
      | (Ok _, s1) =>
          let trade := stamp_cost_basis s1 trade in
          match InsertTradeAndUpdatePosition s1 trade with
          | (Err e, s2) => import_error st s2 id e
          | (Ok true, s2) =>
              mkImportState s2 (st_inserted st + 1) (st_duplicates st) (st_errors st)
                (st_results st ++ [ImportResult.mk id "inserted" ""])
                (add_account (Trade.AccountID trade) (st_affected st))
          | (Ok false, s2) =>
              mkImportState s2 (st_inserted st) (st_duplicates st + 1) (st_errors st)
                (st_results st ++ [ImportResult.mk id "duplicate" ""])
                (st_affected st)
          end
      end
  end.

Fixpoint import_loop (clock : nat -> Time) (i : nat) (st : import_state)
  (events : list TradeEvent.t) : import_state :=
  match events with
  | [] => st
  | e :: es => import_loop clock (S i) (import_event (clock i) st e) es
  end.

(** The rebuild loop; a failed rebuild is logged and the loop goes on. *)
Definition rebuild_all (s : Store) (ids : list string) : Store :=
  fold_left (fun s id => snd (RebuildPositions s id)) ids s.

Section ImportHandler.
(** [sort.Slice] of the Go standard library is taken as a parameter: it
    reorders the slice under the given [less]; the library does not promise
    a stable order.  [range_order] is the order in which [range] visits the
    keys of the map [affectedAccounts], which Go leaves unspecified.
    [clock i] is the reading of the clock while event [i] is handled. *)
Variable sort_Slice :
  (TradeEvent.t -> TradeEvent.t -> bool) -> list TradeEvent.t -> list TradeEvent.t.
Variable range_order : list string -> list string.
Variable clock : nat -> Time.

(** The order in which the handler processes a batch. *)
Definition processing_order (events : list TradeEvent.t) : list TradeEvent.t :=
  sort_Slice timestamp_less events.

(** [body] is the outcome of decoding the request body: [None] for invalid
    JSON, otherwise the [trades] array. *)
Definition handleImportTrades (s : Store) (body : option (list TradeEvent.t))
  : http_response * Store :=
  match body with
  | None => (writeError StatusBadRequest "invalid JSON", s)
  | Some reqTrades =>
      if (List.length reqTrades =? 0)%nat then
        (writeError StatusBadRequest "trades array is empty", s)
      else if (1000 <? List.length reqTrades)%nat then
        (writeError StatusBadRequest "too many trades: max 1000 per request", s)
      else
        match first_invalid 0 reqTrades with
        | Some (i, event, err) =>
            (writeError StatusBadRequest
               ("trade[" ++ itoa (Z.of_nat i) ++ "] ("
                ++ TradeEvent.TradeID event ++ "): " ++ err), s)
        | None =>
            let sorted := processing_order reqTrades in
            let st := import_loop clock 0
                        (mkImportState s 0 0 0 [] []) sorted in
            let s' := rebuild_all (st_store st) (range_order (st_affected st)) in
            let resp := ImportResponse.mk (Z.of_nat (List.length reqTrades))
                          (st_inserted st) (st_duplicates st) (st_errors st)
                          (st_results st) in
            let status :=
              if (0 <? st_errors st) && (st_inserted st =? 0)
              then StatusUnprocessableEntity else StatusOK in
            (writeJSON status resp, s')
        end
  end.
End ImportHandler.

(** * Cursors: RFC 3339 formatting and base64

    [Time.Format(time.RFC3339Nano)] and [base64.URLEncoding] are modelled on
    the Go standard library, which the repository calls but does not
    contain. *)

(** The decimal digits of a non-negative number, least significant first
    into [acc]; twenty digits cover every 64-bit value. *)
Fixpoint digits_aux (fuel : nat) (u : Z) (acc : list ascii) : list ascii :=
  match fuel with
  | O => acc
  | S f =>
      let acc' := digit_char (u mod 10) :: acc in
      if u / 10 =? 0 then acc' else digits_aux f (u / 10) acc'
  end.

Definition utoa (u : Z) : list ascii := digits_aux 20 u [].

(** [appendInt]: sign, zero padding up to [width], digits. *)
Definition appendInt (x width : Z) : list ascii :=
  let ds := utoa (Z.abs x) in
  ((if x <? 0 then ["-"%char] else [])
   ++ repeat "0"%char (Z.to_nat (width - Z.of_nat (List.length ds)))
   ++ ds)%list.

(** Trailing zeros removed. *)
Fixpoint trim_zeros (l : list ascii) : list ascii :=
  match l with
  | [] => []
  | c :: l' =>
      match trim_zeros l' with
      | [] => if Ascii.eqb c "0" then [] else [c]
      | t => c :: t
      end
  end.

(** [.999999999]: nothing for a whole second. *)
Definition formatNano (nsec : Z) : list ascii :=
  if nsec =? 0 then [] else "."%char :: trim_zeros (appendInt nsec 9).

(** [Z07:00] *)
Definition formatZone (offset : Z) : list ascii :=
  if offset =? 0 then ["Z"%char]
  else
    let zone := Z.quot offset 60 in
    let sign := if zone <? 0 then "-"%char else "+"%char in
    let zone := Z.abs zone in
    (sign :: appendInt (zone / 60) 2 ++ ":"%char :: appendInt (zone mod 60) 2)%list.

(** [ts.Format(time.RFC3339Nano)] *)
Definition Format_chars (t : Time) : list ascii :=
  (appendInt (year t) 4 ++ "-"%char :: appendInt (month t) 2
   ++ "-"%char :: appendInt (day t) 2
   ++ "T"%char :: appendInt (hour t) 2
   ++ ":"%char :: appendInt (minute t) 2
   ++ ":"%char :: appendInt (second t) 2
   ++ formatNano (nanosecond t) ++ formatZone (zoneOffset t))%list.

Definition Format (t : Time) : string := string_of_list_ascii (Format_chars t).

(** ** base64.URLEncoding (padded) *)

Definition b64_alphabet : string :=
  "ABCDEFGHIJKLMNOPQRSTUVWXYZabcdefghijklmnopqrstuvwxyz0123456789-_".

Definition b64_char (n : N) : ascii :=
  match String.get (N.to_nat n) b64_alphabet with
  | Some c => c
  | None => "="%char
  end.

Fixpoint index_of (c : ascii) (s : string) (i : N) : option N :=
  match s with
  | EmptyString => None
  | String c' s' => if Ascii.eqb c c' then Some i else index_of c s' (i + 1)%N
  end.

(** The decode map built from the alphabet. *)
Definition b64_val (c : ascii) : option N := index_of c b64_alphabet 0%N.

Fixpoint b64_encode (bs : list ascii) : list ascii :=
  match bs with
  | [] => []
  | [a] =>
      let x := N_of_ascii a in
      [b64_char (x / 4); b64_char ((x mod 4) * 16); "="; "="]%char%N
  | [a; b] =>
      let x := N_of_ascii a in
      let y := N_of_ascii b in
      [b64_char (x / 4); b64_char ((x mod 4) * 16 + y / 16);
       b64_char ((y mod 16) * 4); "="%char]%N
  | a :: b :: c :: rest =>
      let x := N_of_ascii a in
      let y := N_of_ascii b in
      let z := N_of_ascii c in
      (b64_char (x / 4) :: b64_char ((x mod 4) * 16 + y / 16)
       :: b64_char ((y mod 16) * 4 + z / 64) :: b64_char (z mod 64)
       :: b64_encode rest)%N
  end.

Definition EncodeToString (bs : list ascii) : string :=
  string_of_list_ascii (b64_encode bs).

Definition is_pad (c : ascii) : bool := Ascii.eqb c "=".

(** Quantum by quantum; padding is accepted in the last quantum only. *)
Fixpoint b64_decode (cs : list ascii) : option (list ascii) :=
  match cs with
  | [] => Some []
  | c1 :: c2 :: c3 :: c4 :: rest =>
      match b64_val c1, b64_val c2 with
      | Some v1, Some v2 =>
          let b1 := ascii_of_N (v1 * 4 + v2 / 16) in
          if is_pad c3 then
            match rest with
            | [] => if is_pad c4 then Some [b1] else None
            | _ => None
            end
          else
            match b64_val c3 with
            | Some v3 =>
                let b2 := ascii_of_N ((v2 mod 16) * 16 + v3 / 4) in
                if is_pad c4 then
                  match rest with
                  | [] => Some [b1; b2]
                  | _ => None
                  end
                else
                  match b64_val c4, b64_decode rest with
                  | Some v4, Some bs =>
                      Some (b1 :: b2 :: ascii_of_N ((v3 mod 4) * 64 + v4) :: bs)
                  | _, _ => None
                  end
            | None => None
            end
      | _, _ => None
      end
  | _ => None
  end.

(** The decoder skips CR and LF. *)
Definition not_newline (c : ascii) : bool :=
  negb (Ascii.eqb c "010" || Ascii.eqb c "013").

Definition DecodeString (s : string) : option (list ascii) :=
  b64_decode (filter not_newline (list_ascii_of_string s)).

(** ** encodeCursor / decodeCursor *)

Definition encodeCursor (ts : Time) (id : string) : string :=
  EncodeToString (list_ascii_of_string (Format ts ++ "|" ++ id)).

(** [strings.SplitN(raw, "|", 2)] when it yields two parts. *)
Fixpoint split_bar (s : string) : option (string * string) :=
  match s with
  | EmptyString => None
  | String c s' =>
      if Ascii.eqb c "|" then Some (EmptyString, s')
      else match split_bar s' with
           | Some (a, b) => Some (String c a, b)
           | None => None
           end
  end.

Definition decodeCursor (cursor : string) : result (Time * string) :=
  match DecodeString cursor with
  | None => Err "decode base64"
  | Some raw =>
      match split_bar (string_of_list_ascii raw) with
      | None => Err "invalid cursor format"
      | Some (p0, p1) =>
          match time_Parse p0 with
          | None => Err "parse timestamp"
          | Some ts => Ok (ts, p1)
          end
      end
  end.

(** * internal/store: ListTrades *)

Module TradeFilter.
Record t : Type := mk {
  Symbol : string;
  Side : string;
  MarketType : string;
  Start : option Time;
  End_ : option Time;
  Cursor : string;
  Limit : Z
}.
End TradeFilter.

Module TradeListResult.
Record t : Type := mk {
  Trades : list Trade.t;
  NextCursor : string
}.
End TradeListResult.

(** The texts stored in the [side] and [market_type] columns. *)
Definition Side_to_string (s : Side) : string :=
  match s with SideBuy => "buy" | SideSell => "sell" end.

Definition MarketType_to_string (m : MarketType) : string :=
  match m with MarketTypeSpot => "spot" | MarketTypeFutures => "futures" end.

(** [(timestamp, trade_id) < ($n, $n+1)]: row comparison, left to right. *)
Definition row_before (t : Trade.t) (cursorTS : Time) (cursorID : string) : bool :=
  (instant (Trade.Timestamp t) <? instant cursorTS)
  || ((instant (Trade.Timestamp t) =? instant cursorTS)
      && String.ltb (Trade.TradeID t) cursorID).

(** The WHERE clause assembled from the filter. *)
Definition trade_matches (accountID : string) (f : TradeFilter.t)
  (cursor : option (Time * string)) (t : Trade.t) : bool :=
  String.eqb (Trade.AccountID t) accountID
  && (String.eqb (TradeFilter.Symbol f) ""
      || String.eqb (Trade.Symbol t) (TradeFilter.Symbol f))
  && (String.eqb (TradeFilter.Side f) ""
      || String.eqb (Side_to_string (Trade.Side t)) (TradeFilter.Side f))
  && (String.eqb (TradeFilter.MarketType f) ""
      || String.eqb (MarketType_to_string (Trade.MarketType t))
                    (TradeFilter.MarketType f))
  && match TradeFilter.Start f with
     | Some st => instant st <=? instant (Trade.Timestamp t)
     | None => true
     end
  && match TradeFilter.End_ f with
     | Some en => instant (Trade.Timestamp t) <=? instant en
     | None => true
     end
  && match cursor with
     | Some (cts, cid) => row_before t cts cid
     | None => true
     end.

(** [ORDER BY timestamp DESC, trade_id DESC] *)
Definition trade_order_desc (a b : Trade.t) : bool := trade_order_leb b a.

(** The rows the WHERE clause selects, in the ORDER BY order, before LIMIT. *)
Definition matching_rows (s : Store) (accountID : string) (f : TradeFilter.t)
  (cursor : option (Time * string)) : list Trade.t :=
  sort_by trade_order_desc (filter (trade_matches accountID f cursor) (trades s)).

Definition ListTrades (s : Store) (accountID : string) (filter : TradeFilter.t)
  : result TradeListResult.t :=
  let limit := if TradeFilter.Limit filter <=? 0 then 50
               else TradeFilter.Limit filter in
  let limit := if 200 <? limit then 200 else limit in
  let cursor :=
    if String.eqb (TradeFilter.Cursor filter) "" then Ok None
    else match decodeCursor (TradeFilter.Cursor filter) with
         | Err e => Err ("invalid cursor: " ++ e)
         | Ok c => Ok (Some c)
         end in
  match cursor with
  | Err e => Err e
  | Ok cursor =>
      let trades := firstn (Z.to_nat (limit + 1))
                           (matching_rows s accountID filter cursor) in
      if limit <? Z.of_nat (List.length trades) then
        let trades := firstn (Z.to_nat limit) trades in
        match nth_error trades (List.length trades - 1) with
        | Some last =>
            Ok (TradeListResult.mk trades
                  (encodeCursor (Trade.Timestamp last) (Trade.TradeID last)))
        | None => Err "index out of range"
        end
      else Ok (TradeListResult.mk trades "")
  end.

(** * internal/store/positions.go and accounts: reads *)

Definition PositionStatus_to_string (s : PositionStatus) : string :=
  match s with
  | PositionStatusOpen => "open"
  | PositionStatusClosed => "closed"
  end.

(** The WHERE clause of ListPositions: the status filter is left out for
    [""] and ["all"]. *)
Definition position_listed (accountID status : string) (p : Position.t) : bool :=
  String.eqb (Position.AccountID p) accountID
  && (String.eqb status "" || String.eqb status "all"
      || String.eqb (PositionStatus_to_string (Position.Status p)) status).

(** [ORDER BY opened_at DESC]; rows opened at the same instant come in an
    order SQL does not fix. *)
Definition opened_desc (a b : Position.t) : bool :=
  instant (Position.OpenedAt b) <=? instant (Position.OpenedAt a).

Definition ListPositions (s : Store) (accountID status : string)
  : list Position.t :=
  sort_by opened_desc (filter (position_listed accountID status) (positions s)).

Module PortfolioSummary.
Record t : Type := mk {
  Positions : list Position.t;
  TotalRealizedPnL : Q
}.
End PortfolioSummary.

(** [SELECT COALESCE(SUM(realized_pnl), 0)] *)
Definition sum_realized (l : list Position.t) : Q :=
  fold_right (fun p acc => (Position.RealizedPnL p + acc)%Q) 0%Q l.

Definition GetPortfolioSummary (s : Store) (accountID : string)
  : PortfolioSummary.t :=
  PortfolioSummary.mk
    (ListPositions s accountID "open")
    (sum_realized
       (filter (fun p => String.eqb (Position.AccountID p) accountID)
               (positions s))).

(** AccountExists: [SELECT COUNT( * ) .. WHERE id = $1], then [count > 0]. *)
Definition AccountExists (s : Store) (id : string) : bool :=
  (0 <? List.length
          (filter (fun a => String.eqb (Account.ID a) id) (accounts s)))%nat.

(** ListAccounts: [ORDER BY created_at]. *)
Definition created_leb (a b : Account.t) : bool :=
  instant (Account.CreatedAt a) <=? instant (Account.CreatedAt b).

Definition ListAccounts (s : Store) : list Account.t :=
  sort_by created_leb (accounts s).

(** * internal/api: read handlers *)

Inductive api_response (A : Type) : Type :=
| apiError (status : Z) (msg : string)
| apiJSON (status : Z) (body : A).
Arguments apiError {A} status msg.
Arguments apiJSON {A} status body.

Definition api_status {A} (r : api_response A) : Z :=
  match r with apiError st _ => st | apiJSON st _ => st end.

Definition StatusNotFound : Z := 404.

Definition handlePortfolioSummary (s : Store) (accountID : string)
  : api_response PortfolioSummary.t :=
  if negb (AccountExists s accountID) then
    apiError StatusNotFound "account not found"
  else apiJSON StatusOK (GetPortfolioSummary s accountID).

(** [status] is the query parameter, [""] when absent. *)
Definition handleListPositions (s : Store) (accountID status : string)
  : api_response (list Position.t) :=
  let status := if String.eqb status "" then "open" else status in
  if negb (String.eqb status "open") && negb (String.eqb status "closed")
     && negb (String.eqb status "all") then
    apiError StatusBadRequest "invalid status: must be open, closed, or all"
  else apiJSON StatusOK (ListPositions s accountID status).

(** * internal/store/orders.go *)

Inductive OrderType := OrderTypeMarket | OrderTypeLimit.
Inductive OrderStatus :=
| OrderStatusOpen | OrderStatusFilled
| OrderStatusPartiallyFilled | OrderStatusCancelled.

Module Order.
Record t : Type := mk {
  OrderID : string;
  AccountID : string;
  Symbol : string;
  Side : Side;
  OrderType : OrderType;
  RequestedQty : Q;
  FilledQty : Q;
  AvgFillPrice : Q;
  Status : OrderStatus;
  MarketType : MarketType;
  CreatedAt : Time;
  UpdatedAt : Time
}.
End Order.

Definition OrderStatus_to_string (s : OrderStatus) : string :=
  match s with
  | OrderStatusOpen => "open"
  | OrderStatusFilled => "filled"
  | OrderStatusPartiallyFilled => "partially_filled"
  | OrderStatusCancelled => "cancelled"
  end.

(** [DO UPDATE SET filled_qty = EXCLUDED.filled_qty, avg_fill_price = ..,
    status = .., updated_at = ..]: the other columns keep the stored values. *)
Definition order_update (excluded existing : Order.t) : Order.t :=
  Order.mk (Order.OrderID existing) (Order.AccountID existing)
    (Order.Symbol existing) (Order.Side existing) (Order.OrderType existing)
    (Order.RequestedQty existing)
    (Order.FilledQty excluded) (Order.AvgFillPrice excluded)
    (Order.Status excluded) (Order.MarketType existing)
    (Order.CreatedAt existing) (Order.UpdatedAt excluded).

(** UpsertOrder on the table [ledger_orders]; the store supplies the
    accounts for the foreign key, which is checked when a row is inserted. *)
Definition UpsertOrder (s : Store) (orders : list Order.t) (order : Order.t)
  : result (list Order.t) :=
  if existsb (fun o => String.eqb (Order.OrderID o) (Order.OrderID order)) orders
  then
    Ok (map (fun o => if String.eqb (Order.OrderID o) (Order.OrderID order)
                      then order_update order o else o) orders)
  else if negb (account_exists s (Order.AccountID order))
  then Err "upsert order: violates foreign key constraint on ledger_accounts"
  else Ok (orders ++ [order])%list.

Module OrderFilter.
Record t : Type := mk {
  Status : string;
  Symbol : string;
  Cursor : string;
  Limit : Z
}.
End OrderFilter.

Module OrderListResult.
Record t : Type := mk {
  Orders : list Order.t;
  NextCursor : string
}.
End OrderListResult.

Definition order_before (o : Order.t) (cursorTS : Time) (cursorID : string) : bool :=
  (instant (Order.CreatedAt o) <? instant cursorTS)
  || ((instant (Order.CreatedAt o) =? instant cursorTS)
      && String.ltb (Order.OrderID o) cursorID).

Definition order_matches (accountID : string) (f : OrderFilter.t)
  (cursor : option (Time * string)) (o : Order.t) : bool :=
  String.eqb (Order.AccountID o) accountID
  && (String.eqb (OrderFilter.Status f) ""
      || String.eqb (OrderStatus_to_string (Order.Status o)) (OrderFilter.Status f))
  && (String.eqb (OrderFilter.Symbol f) ""
      || String.eqb (Order.Symbol o) (OrderFilter.Symbol f))
  && match cursor with
     | Some (cts, cid) => order_before o cts cid
     | None => true
     end.

(** [ORDER BY created_at DESC, order_id DESC] *)
Definition order_order_desc (a b : Order.t) : bool :=
  (instant (Order.CreatedAt b) <? instant (Order.CreatedAt a))
  || ((instant (Order.CreatedAt b) =? instant (Order.CreatedAt a))
      && String.leb (Order.OrderID b) (Order.OrderID a)).

Definition matching_orders (orders : list Order.t) (accountID : string)
  (f : OrderFilter.t) (cursor : option (Time * string)) : list Order.t :=
  sort_by order_order_desc (filter (order_matches accountID f cursor) orders).

Definition ListOrders (orders : list Order.t) (accountID : string)
  (filter : OrderFilter.t) : result OrderListResult.t :=
  let limit := if OrderFilter.Limit filter <=? 0 then 50
               else OrderFilter.Limit filter in
  let limit := if 200 <? limit then 200 else limit in
  let cursor :=
    if String.eqb (OrderFilter.Cursor filter) "" then Ok None
    else match decodeCursor (OrderFilter.Cursor filter) with
         | Err e => Err ("invalid cursor: " ++ e)
         | Ok c => Ok (Some c)
         end in
  match cursor with
  | Err e => Err e
  | Ok cursor =>
      let orders := firstn (Z.to_nat (limit + 1))
                           (matching_orders orders accountID filter cursor) in
      if limit <? Z.of_nat (List.length orders) then
        let orders := firstn (Z.to_nat limit) orders in
        match nth_error orders (List.length orders - 1) with
        | Some last =>
            Ok (OrderListResult.mk orders
                  (encodeCursor (Order.CreatedAt last) (Order.OrderID last)))
        | None => Err "index out of range"
        end
      else Ok (OrderListResult.mk orders "")
  end.

(** * internal/store/migrate.go *)

(** [strings.HasSuffix] and [strings.TrimSuffix] *)
Definition HasSuffix (s suffix : string) : bool :=
  (String.length suffix <=? String.length s)%nat
  && String.eqb
       (substring (String.length s - String.length suffix)
                  (String.length suffix) s)
       suffix.

Definition TrimSuffix (s suffix : string) : string :=
  if HasSuffix s suffix
  then substring 0 (String.length s - String.length suffix) s
  else s.

(** [sort.Strings]: the increasing arrangement of a list of strings is
    unique, so any sort computes it. *)
Definition sort_Strings (l : list string) : list string := sort_by String.leb l.

Section Migrations.
(** [DB] is the schema state a migration script acts on and [exec db file]
    the outcome of running the script in [file] inside its transaction:
    [None] when the script fails.  [applied] is the content of
    [ledger_schema_migrations]. *)
Variable DB : Type.
Variable exec : DB -> string -> option DB.

(** The loop over the sorted up files. *)
Fixpoint apply_migrations (db : DB) (applied : list string) (upFiles : list string)
  : result unit * (DB * list string) :=
  match upFiles with
  | [] => (Ok tt, (db, applied))
  | filename :: rest =>
      let version := TrimSuffix filename ".up.sql" in
      if existsb (String.eqb version) applied then
        apply_migrations db applied rest
      else
        match exec db filename with
        | None => (Err ("apply migration " ++ version), (db, applied))
        | Some db' => apply_migrations db' (applied ++ [version]) rest
        end
  end.

(** RunMigrations over the embedded directory listing [entries]. *)
Definition RunMigrations (entries : list string) (db : DB) (applied : list string)
  : result unit * (DB * list string) :=
  let upFiles := sort_Strings (filter (fun name => HasSuffix name ".up.sql") entries) in
  apply_migrations db applied upFiles.
End Migrations.

(** * internal/ingest: the connection retry loop of ConnectNATS *)

(** Durations in nanoseconds. *)
Definition Millisecond : Z := 1000000.
Definition Second : Z := 1000 * Millisecond.

(** [backoff *= 2; if backoff > maxBackoff { backoff = maxBackoff }] *)
Definition next_backoff (backoff : Z) : Z :=
  let backoff := backoff * 2 in
  if 30 * Second <? backoff then 30 * Second else backoff.

(** The retry loop: [connect attempt] tells whether attempt number [attempt]
    succeeds.  The loop has no bound in the source; [fuel] bounds the
    attempts the model follows.  The result is the number of the successful
    attempt and the sleeps before it. *)
Fixpoint connect_loop (connect : nat -> bool) (fuel : nat) (attempt : nat)
  (backoff : Z) (slept : list Z) : option (nat * list Z) :=
  match fuel with
  | O => None
  | S fuel' =>
      if connect attempt then Some (attempt, slept)
      else connect_loop connect fuel' (S attempt) (next_backoff backoff)
                        (slept ++ [backoff])
  end.

Definition ConnectNATS (connect : nat -> bool) (fuel : nat)
  : option (nat * list Z) :=
  connect_loop connect fuel 1 (100 * Millisecond) [].

(** * Properties *)

(** ** The text functions on sample inputs *)

Example Unix_samples :
  Unix (mkTime 1970 1 1 0 0 0 0 0) = 0
  /\ Unix (mkTime 1969 12 31 23 59 59 0 0) = -1
  /\ Unix (mkTime 2000 3 1 0 0 0 0 0) = 951868800
  /\ Unix (mkTime 2025 1 15 12 0 0 0 7200) = Unix t_10h.
Proof. repeat split; reflexivity. Qed.

Example time_Parse_utc :
  time_Parse "2025-01-15T10:00:00Z" = Some t_10h.
Proof. reflexivity. Qed.

Example time_Parse_offset :
  time_Parse "2025-01-15T10:00:00.5+02:00"
  = Some (mkTime 2025 1 15 10 0 0 500000000 7200).
Proof. reflexivity. Qed.

Example time_Parse_bad_day : time_Parse "2025-02-30T10:00:00Z" = None.
Proof. reflexivity. Qed.

Example Format_fraction :
  Format (mkTime 2025 1 15 10 0 0 500000000 7200) = "2025-01-15T10:00:00.5+02:00".
Proof. reflexivity. Qed.

Example Format_utc : Format t_10h = "2025-01-15T10:00:00Z".
Proof. reflexivity. Qed.

Example EncodeToString_foobar :
  EncodeToString (list_ascii_of_string "foobar") = "Zm9vYmFy"
  /\ EncodeToString (list_ascii_of_string "fooba") = "Zm9vYmE="
  /\ EncodeToString (list_ascii_of_string "foob") = "Zm9vYg=="
  /\ DecodeString "Zm9vYg==" = Some (list_ascii_of_string "foob").
Proof. repeat split; reflexivity. Qed.

Example decodeCursor_example :
  decodeCursor (encodeCursor t_10h "a|b") = Ok (t_10h, "a|b").
Proof. reflexivity. Qed.

(** ** Basic facts about the tables *)

Lemma query_open_position_In s acct sym mt pos :
  query_open_position s acct sym mt = Some pos ->
  In pos (positions s) /\ open_at acct sym mt pos = true.
Proof. unfold query_open_position. apply find_some. Qed.

Lemma update_position_In s p f :
  In p (positions s) ->
  In (f p) (positions (update_position s (Position.ID p) f)).
Proof.
  intros Hin. unfold update_position; simpl.
  apply in_map_iff. exists p. split; [|exact Hin].
  now rewrite String.eqb_refl.
Qed.

Lemma update_position_length s id f :
  List.length (positions (update_position s id f)) = List.length (positions s).
Proof. unfold update_position; simpl. apply length_map. Qed.

Lemma open_at_inv acct sym mt p :
  open_at acct sym mt p = true ->
  Position.AccountID p = acct /\ Position.Symbol p = sym
  /\ Position.MarketType p = mt /\ Position.Status p = PositionStatusOpen.
Proof.
  unfold open_at. intros H.
  apply andb_prop in H as [H Hst]. apply andb_prop in H as [H Hmt].
  apply andb_prop in H as [Ha Hs].
  apply String.eqb_eq in Ha, Hs.
  repeat split; try assumption.
  - destruct (Position.MarketType p), mt; simpl in Hmt; congruence.
  - destruct (Position.Status p); simpl in Hst; congruence.
Qed.

(** ** Closing trades (futures) *)

(** A trade closes a position when it runs against the position's side. *)
Definition closes (pos : Position.t) (trade : Trade.t) : Prop :=
  (Position.Side pos = PositionSideLong /\ Trade.Side trade = SideSell)
  \/ (Position.Side pos = PositionSideShort /\ Trade.Side trade = SideBuy).

Definition funding (trade : Trade.t) : Q :=
  match Trade.FundingFee trade with Some g => g | None => 0%Q end.

(** The price move in the position's favour. *)
Definition favourable_move (pos : Position.t) (trade : Trade.t) : Q :=
  match Position.Side pos with
  | PositionSideLong => (Trade.Price trade - Position.AvgEntryPrice pos)%Q
  | PositionSideShort => (Position.AvgEntryPrice pos - Trade.Price trade)%Q
  end.

(** The increment the specification text writes: on [min(q, qp)] units. *)
Definition futures_increment_as_written (pos : Position.t) (trade : Trade.t) : Q :=
  (favourable_move pos trade * Qmin (Trade.Quantity trade) (Position.Quantity pos)
   - Trade.Fee trade - funding trade)%Q.

(** The increment on the whole traded quantity. *)
Definition futures_increment (pos : Position.t) (trade : Trade.t) : Q :=
  (favourable_move pos trade * Trade.Quantity trade
   - Trade.Fee trade - funding trade)%Q.

(** What a closing trade does to the row it found. *)
Definition closing_outcome (pos pos' : Position.t) (trade : Trade.t) (inc : Q) : Prop :=
  Position.ID pos' = Position.ID pos
  /\ Position.Side pos' = Position.Side pos
  /\ (Position.RealizedPnL pos' == Position.RealizedPnL pos + inc)%Q
  /\ ((Position.Quantity pos - Trade.Quantity trade <= 0)%Q ->
      Position.Quantity pos' = 0%Q
      /\ Position.Status pos' = PositionStatusClosed
      /\ Position.ClosedAt pos' = Some (Trade.Timestamp trade))
  /\ (~ (Position.Quantity pos - Trade.Quantity trade <= 0)%Q ->
      Position.Quantity pos' = (Position.Quantity pos - Trade.Quantity trade)%Q
      /\ Position.CostBasis pos' =
         (Position.AvgEntryPrice pos
          * (Position.Quantity pos - Trade.Quantity trade))%Q
      /\ Position.Status pos' = Position.Status pos
      /\ Position.ClosedAt pos' = Position.ClosedAt pos).

(** The claim as the specification words it, for one store, row and trade. *)
Definition futures_close_as_written (s : Store) (pos : Position.t) (trade : Trade.t)
  : Prop :=
  exists s' pos',
    upsertFuturesPosition s trade = Ok s'
    /\ In pos' (positions s')
    /\ closing_outcome pos pos' trade (futures_increment_as_written pos trade).

Lemma Qle_bool_false x y : Qle_bool x y = false <-> ~ (x <= y)%Q.
Proof.
  rewrite <- Qle_bool_iff. destruct (Qle_bool x y); split; congruence.
Qed.

(** C1 (as amended).  A closing futures trade realizes the favourable price
    move on the whole traded quantity [q] - not on [min(q, qp)] - less the fee
    and the funding fee; when [qp - q <= 0] the row is closed with quantity 0
    and [closed_at] the trade's timestamp, no row is added, and the row keeps
    its side; otherwise the quantity and cost basis shrink. *)
Theorem futures_close_realized (s : Store) (trade : Trade.t) (pos : Position.t) :
  query_open_position s (Trade.AccountID trade) (Trade.Symbol trade)
                      MarketTypeFutures = Some pos ->
  closes pos trade ->
  exists s' pos',
    upsertFuturesPosition s trade = Ok s'
    /\ In pos' (positions s')
    /\ List.length (positions s') = List.length (positions s)
    /\ closing_outcome pos pos' trade (futures_increment pos trade).
Proof.
  intros Hq Hc.
  destruct (query_open_position_In _ _ _ _ _ Hq) as [Hin _].
  unfold upsertFuturesPosition. rewrite Hq.
  assert (Hcl :
    match Position.Side pos, Trade.Side trade with
    | PositionSideLong, SideSell | PositionSideShort, SideBuy => true
    | _, _ => false
    end = true).
  { destruct Hc as [[-> ->] | [-> ->]]; reflexivity. }
  rewrite Hcl; simpl negb; cbv iota.
  set (inc := match Trade.FundingFee trade with
              | Some g => _ | None => _ end).
  assert (Hinc : (inc == futures_increment pos trade)%Q).
  { unfold inc, futures_increment, favourable_move, funding.
    destruct (Position.Side pos), (Trade.FundingFee trade); ring. }
  destruct (Qle_bool (Position.Quantity pos - Trade.Quantity trade) 0) eqn:Hle.
  - eexists; eexists. split; [reflexivity|].
    split; [apply update_position_In; exact Hin|].
    split; [apply update_position_length|].
    apply Qle_bool_iff in Hle.
    unfold closing_outcome; simpl.
    split; [reflexivity|]. split; [reflexivity|].
    split; [now rewrite Hinc|].
    split; [intros _; repeat split | intros Hn; contradiction].
  - eexists; eexists. split; [reflexivity|].
    split; [apply update_position_In; exact Hin|].
    split; [apply update_position_length|].
    apply Qle_bool_false in Hle.
    unfold closing_outcome; simpl.
    split; [reflexivity|]. split; [reflexivity|].
    split; [now rewrite Hinc|].
    split; [intros Hn; contradiction | intros _; repeat split].
Qed.

(** A futures fixture: account "live" goes long 1 BTC-USD at 100, then a
    sell of 2 at 110 with fee 1 arrives. *)

Definition fx_buy : Trade.t :=
  Trade.mk "f-1" "live" "BTC-USD" SideBuy 1 100 0 "USD" MarketTypeFutures
           t_10h t_10h 100 0 None None None None.

Definition fx_sell : Trade.t :=
  Trade.mk "f-2" "live" "BTC-USD" SideSell 2 110 1 "USD" MarketTypeFutures
           t_11h t_11h 0 0 None None None None.

Definition fx_store : Store :=
  snd (InsertTradeAndUpdatePosition
         (snd (GetOrCreateAccount empty_store "live" AccountTypeLive t_10h))
         fx_buy).

Definition fx_pos : Position.t :=
  Position.mk "live-BTC-USD-futures-1736935200" "live" "BTC-USD"
    MarketTypeFutures PositionSideLong 1 100 (1 * 100) 0 None None None
    PositionStatusOpen t_10h None.

Lemma futures_close_realized_witness :
  query_open_position fx_store (Trade.AccountID fx_sell) (Trade.Symbol fx_sell)
                      MarketTypeFutures = Some fx_pos
  /\ closes fx_pos fx_sell
  /\ exists s' pos',
       upsertFuturesPosition fx_store fx_sell = Ok s'
       /\ In pos' (positions s')
       /\ List.length (positions s') = List.length (positions fx_store)
       /\ closing_outcome fx_pos pos' fx_sell (futures_increment fx_pos fx_sell).
Proof.
  split; [reflexivity|].
  split; [left; split; reflexivity|].
  apply (futures_close_realized fx_store fx_sell fx_pos).
  - reflexivity.
  - left; split; reflexivity.
Defined.

(** C1 (as written) fails: the long position of 1 at 100 is over-closed by a
    sell of 2 at 110, fee 1.  The code books (110 - 100) * 2 - 1 = 19, the
    text asks for (110 - 100) * min(2, 1) - 1 = 9. *)
Lemma futures_close_as_written_fails :
  query_open_position fx_store (Trade.AccountID fx_sell) (Trade.Symbol fx_sell)
                      MarketTypeFutures = Some fx_pos
  /\ closes fx_pos fx_sell
  /\ ~ futures_close_as_written fx_store fx_pos fx_sell.
Proof.
  split; [reflexivity|].
  split; [left; split; reflexivity|].
  intros (s' & pos' & Hup & Hin & Hout).
  vm_compute in Hup. injection Hup as <-.
  simpl in Hin. destruct Hin as [<- | []].
  destruct Hout as (_ & _ & Hr & _).
  vm_compute in Hr. discriminate Hr.
Qed.

(** ** Closing sells (spot) *)

(** The claim as the specification words it: the realized increment is taken
    on the open quantity [qp]. *)
Definition spot_close_as_written (s : Store) (pos : Position.t) (trade : Trade.t)
  : Prop :=
  exists s' pos',
    upsertSpotPosition s trade = Ok s'
    /\ In pos' (positions s')
    /\ Position.ID pos' = Position.ID pos
    /\ (Position.RealizedPnL pos' ==
        Position.RealizedPnL pos
        + ((Trade.Price trade - Position.AvgEntryPrice pos) * Position.Quantity pos
           - Trade.Fee trade))%Q
    /\ Position.Quantity pos' = 0%Q
    /\ Position.Status pos' = PositionStatusClosed
    /\ Position.ClosedAt pos' = Some (Trade.Timestamp trade).

(** C2 (as amended).  A spot sell of [q >= qp] closes the open position:
    quantity 0, status closed, [closed_at] the trade's timestamp, and the
    realized increment is (p - ap) * q - f on the whole sold quantity [q]
    (not truncated to [qp]); no row is added and the row keeps its side, so
    the excess never becomes a short. *)
Theorem spot_close_realized (s : Store) (trade : Trade.t) (pos : Position.t) :
  query_open_position s (Trade.AccountID trade) (Trade.Symbol trade)
                      MarketTypeSpot = Some pos ->
  Trade.Side trade = SideSell ->
  (Position.Quantity pos <= Trade.Quantity trade)%Q ->
  exists s' pos',
    upsertSpotPosition s trade = Ok s'
    /\ In pos' (positions s')
    /\ List.length (positions s') = List.length (positions s)
    /\ Position.ID pos' = Position.ID pos
    /\ Position.Side pos' = Position.Side pos
    /\ (Position.RealizedPnL pos' ==
        Position.RealizedPnL pos
        + ((Trade.Price trade - Position.AvgEntryPrice pos) * Trade.Quantity trade
           - Trade.Fee trade))%Q
    /\ Position.Quantity pos' = 0%Q
    /\ Position.Status pos' = PositionStatusClosed
    /\ Position.ClosedAt pos' = Some (Trade.Timestamp trade).
Proof.
  intros Hq Hside Hle.
  destruct (query_open_position_In _ _ _ _ _ Hq) as [Hin _].
  unfold upsertSpotPosition. rewrite Hq, Hside.
  assert (Hb : Qle_bool (Position.Quantity pos - Trade.Quantity trade) 0 = true).
  { apply Qle_bool_iff. lra. }
  rewrite Hb.
  eexists; eexists. split; [reflexivity|].
  split; [apply update_position_In; exact Hin|].
  split; [apply update_position_length|].
  simpl. repeat split; reflexivity.
Qed.

(** A spot fixture: account "live" buys 1 BTC-USD at 100, then sells 2 at 110. *)
Definition sx_buy : Trade.t :=
  Trade.mk "s-1" "live" "BTC-USD" SideBuy 1 100 0 "USD" MarketTypeSpot
           t_10h t_10h 100 0 None None None None.

Definition sx_sell : Trade.t :=
  Trade.mk "s-2" "live" "BTC-USD" SideSell 2 110 1 "USD" MarketTypeSpot
           t_11h t_11h 0 0 None None None None.

Definition sx_store : Store :=
  snd (InsertTradeAndUpdatePosition
         (snd (GetOrCreateAccount empty_store "live" AccountTypeLive t_10h))
         sx_buy).

Definition sx_pos : Position.t :=
  Position.mk "live-BTC-USD-spot-1736935200" "live" "BTC-USD"
    MarketTypeSpot PositionSideLong 1 100 (1 * 100 + 0) 0 None None None
    PositionStatusOpen t_10h None.

Lemma spot_close_realized_witness :
  query_open_position sx_store (Trade.AccountID sx_sell) (Trade.Symbol sx_sell)
                      MarketTypeSpot = Some sx_pos
  /\ exists s' pos',
       upsertSpotPosition sx_store sx_sell = Ok s'
       /\ In pos' (positions s')
       /\ List.length (positions s') = List.length (positions sx_store)
       /\ Position.ID pos' = Position.ID sx_pos
       /\ Position.Side pos' = Position.Side sx_pos
       /\ (Position.RealizedPnL pos' ==
           Position.RealizedPnL sx_pos
           + ((Trade.Price sx_sell - Position.AvgEntryPrice sx_pos)
              * Trade.Quantity sx_sell - Trade.Fee sx_sell))%Q
       /\ Position.Quantity pos' = 0%Q
       /\ Position.Status pos' = PositionStatusClosed
       /\ Position.ClosedAt pos' = Some (Trade.Timestamp sx_sell).
Proof.
  split; [reflexivity|].
  apply (spot_close_realized sx_store sx_sell sx_pos).
  - reflexivity.
  - reflexivity.
  - vm_compute. discriminate.
Defined.

(** C2 (as written) fails: on a position of 1 at 100, a sell of 2 at 110 with
    fee 1 books (110 - 100) * 2 - 1 = 19, not (110 - 100) * 1 - 1 = 9. *)
Lemma spot_close_as_written_fails :
  query_open_position sx_store (Trade.AccountID sx_sell) (Trade.Symbol sx_sell)
                      MarketTypeSpot = Some sx_pos
  /\ Trade.Side sx_sell = SideSell
  /\ (Position.Quantity sx_pos <= Trade.Quantity sx_sell)%Q
  /\ ~ spot_close_as_written sx_store sx_pos sx_sell.
Proof.
  split; [reflexivity|].
  split; [reflexivity|].
  split; [vm_compute; discriminate|].
  intros (s' & pos' & Hup & Hin & _ & Hr & _).
  vm_compute in Hup. injection Hup as <-.
  simpl in Hin. destruct Hin as [<- | []].
  vm_compute in Hr. discriminate Hr.
Qed.

(** ** Idempotent ingestion *)

Lemma insert_position_frame s row s' :
  insert_position s row = Ok s' ->
  accounts s' = accounts s /\ trades s' = trades s
  /\ positions s' = (positions s ++ [row])%list.
Proof.
  unfold insert_position.
  repeat match goal with |- context [if ?c then _ else _] => destruct c end;
    intros H; inversion H; subst; simpl; auto.
Qed.

Lemma upsertSpotPosition_frame tx trade tx' :
  upsertSpotPosition tx trade = Ok tx' ->
  accounts tx' = accounts tx /\ trades tx' = trades tx.
Proof.
  unfold upsertSpotPosition.
  destruct (query_open_position _ _ _ _) as [pos|];
    destruct (Trade.Side trade).
  - intros H; inversion H; auto.
  - destruct (Qle_bool _ _); intros H; inversion H; auto.
  - intros H. apply insert_position_frame in H. tauto.
  - intros H; inversion H; auto.
Qed.

Lemma upsertFuturesPosition_frame tx trade tx' :
  upsertFuturesPosition tx trade = Ok tx' ->
  accounts tx' = accounts tx /\ trades tx' = trades tx.
Proof.
  unfold upsertFuturesPosition.
  destruct (query_open_position _ _ _ _) as [pos|].
  - destruct (negb _);
      [destruct (negb (int4_fits _)); intros H; inversion H; auto|].
    destruct (Qle_bool _ _); intros H; inversion H; auto.
  - intros H. apply insert_position_frame in H. tauto.
Qed.

Lemma UpsertPosition_frame tx trade tx' :
  UpsertPosition tx trade = Ok tx' ->
  accounts tx' = accounts tx /\ trades tx' = trades tx.
Proof.
  unfold UpsertPosition. destruct (Trade.MarketType trade).
  - apply upsertSpotPosition_frame.
  - apply upsertFuturesPosition_frame.
Qed.

Lemma trade_exists_app s t id :
  existsb (fun t0 => String.eqb (Trade.TradeID t0) id) (trades s ++ [t])%list
  = trade_exists s id || String.eqb (Trade.TradeID t) id.
Proof.
  unfold trade_exists. rewrite existsb_app. simpl. now rewrite orb_false_r.
Qed.

(** A successful call leaves the trade in the log. *)
Lemma InsertTradeAndUpdatePosition_logged s trade b s1 :
  InsertTradeAndUpdatePosition s trade = (Ok b, s1) ->
  trade_exists s1 (Trade.TradeID trade) = true
  /\ (b = negb (trade_exists s (Trade.TradeID trade))).
Proof.
  unfold InsertTradeAndUpdatePosition, InsertTrade.
  destruct (negb (int4_fits _)); [intros H; inversion H|].
  destruct (trade_exists s (Trade.TradeID trade)) eqn:Hex.
  - intros H; inversion H; subst. auto.
  - destruct (negb (account_exists s (Trade.AccountID trade)));
      [intros H; inversion H|].
    destruct (UpsertPosition _ trade) as [tx'|e] eqn:Hup;
      intros H; inversion H; subst.
    apply UpsertPosition_frame in Hup as [_ Htr]. simpl in Htr.
    split; [|reflexivity].
    unfold trade_exists at 1. rewrite Htr.
    rewrite trade_exists_app. rewrite String.eqb_refl. apply orb_true_r.
Qed.

(** A failed call rolls back. *)
Lemma InsertTradeAndUpdatePosition_rollback s trade e s1 :
  InsertTradeAndUpdatePosition s trade = (Err e, s1) -> s1 = s.
Proof.
  unfold InsertTradeAndUpdatePosition.
  destruct (InsertTrade s trade) as [[[|] tx]|e0] eqn:Hins.
  - destruct (UpsertPosition tx trade); intros H; inversion H; auto.
  - intros H; inversion H.
  - intros H; inversion H; auto.
Qed.

(** A trade that is in the log is reported as a duplicate and changes
    nothing, its arguments fitting their columns. *)
Lemma InsertTradeAndUpdatePosition_duplicate s trade :
  int4_fits (Trade.Leverage trade) = true ->
  trade_exists s (Trade.TradeID trade) = true ->
  InsertTradeAndUpdatePosition s trade = (Ok false, s).
Proof.
  intros Hfit Hex. unfold InsertTradeAndUpdatePosition, InsertTrade.
  now rewrite Hfit, Hex.
Qed.

(** A call that succeeds had a leverage that fits. *)
Lemma InsertTradeAndUpdatePosition_fits s trade b s1 :
  InsertTradeAndUpdatePosition s trade = (Ok b, s1) ->
  int4_fits (Trade.Leverage trade) = true.
Proof.
  unfold InsertTradeAndUpdatePosition, InsertTrade.
  destruct (int4_fits _); [reflexivity|].
  intros H; inversion H.
Qed.

(** C4.  Ingesting a trade twice leaves the ledger as ingesting it once
    does.  When the first call succeeds on a trade id that is not in the log
    it reports [inserted = true]; the second call then reports
    [inserted = false] without an error and leaves the whole store - trade
    rows and position rows - unchanged. *)
Theorem ingest_twice (s : Store) (T : Trade.t) :
  snd (InsertTradeAndUpdatePosition (snd (InsertTradeAndUpdatePosition s T)) T)
  = snd (InsertTradeAndUpdatePosition s T)
  /\ (forall b s1,
        trade_exists s (Trade.TradeID T) = false ->
        InsertTradeAndUpdatePosition s T = (Ok b, s1) ->
        b = true /\ InsertTradeAndUpdatePosition s1 T = (Ok false, s1)).
Proof.
  split.
  - destruct (InsertTradeAndUpdatePosition s T) as [[b|e] s1] eqn:H1; simpl.
    + pose proof (InsertTradeAndUpdatePosition_fits _ _ _ _ H1) as Hfit.
      apply InsertTradeAndUpdatePosition_logged in H1 as [Hex _].
      now rewrite (InsertTradeAndUpdatePosition_duplicate _ _ Hfit Hex).
    + apply InsertTradeAndUpdatePosition_rollback in H1 as Hs; subst s1.
      now rewrite H1.
  - intros b s1 Hfresh H1.
    pose proof (InsertTradeAndUpdatePosition_fits _ _ _ _ H1) as Hfit.
    apply InsertTradeAndUpdatePosition_logged in H1 as [Hex Hb].
    rewrite Hfresh in Hb. split; [exact Hb|].
    now apply InsertTradeAndUpdatePosition_duplicate.
Qed.

Lemma ingest_twice_witness :
  trade_exists (snd (GetOrCreateAccount empty_store "live" AccountTypeLive t_10h))
               (Trade.TradeID sx_buy) = false
  /\ InsertTradeAndUpdatePosition
       (snd (GetOrCreateAccount empty_store "live" AccountTypeLive t_10h)) sx_buy
     = (Ok true, sx_store)
  /\ InsertTradeAndUpdatePosition sx_store sx_buy = (Ok false, sx_store).
Proof.
  split; [reflexivity|]. split; [reflexivity|].
  apply (proj2 (ingest_twice
                  (snd (GetOrCreateAccount empty_store "live" AccountTypeLive t_10h))
                  sx_buy) true sx_store).
  - reflexivity.
  - reflexivity.
Defined.

(** ** The status code of the import endpoint *)

(** The request is refused before any processing: invalid JSON, an empty
    array, more than 1000 trades, or an event that fails validation. *)
Definition refused (body : option (list TradeEvent.t)) : bool :=
  match body with
  | None => true
  | Some evs =>
      (List.length evs =? 0)%nat || (1000 <? List.length evs)%nat
      || existsb (fun e => negb (is_ok (Validate e))) evs
  end.

Definition count_status (x : string) (rs : list ImportResult.t) : Z :=
  Z.of_nat (List.length
              (filter (fun r => String.eqb (ImportResult.Status r) x) rs)).

Lemma first_invalid_None i evs :
  first_invalid i evs = None <->
  existsb (fun e => negb (is_ok (Validate e))) evs = false.
Proof.
  revert i. induction evs as [|e es IH]; intros i; simpl; [tauto|].
  destruct (Validate e); simpl.
  - apply IH.
  - split; discriminate.
Qed.

Lemma count_status_app x rs r :
  count_status x (rs ++ [r])
  = count_status x rs + (if String.eqb (ImportResult.Status r) x then 1 else 0).
Proof.
  unfold count_status. rewrite filter_app, length_app. simpl.
  destruct (String.eqb (ImportResult.Status r) x); simpl; lia.
Qed.

(** The counters of the loop count the results by status. *)
Definition counters_ok (st : import_state) : Prop :=
  st_inserted st = count_status "inserted" (st_results st)
  /\ st_duplicates st = count_status "duplicate" (st_results st)
  /\ st_errors st = count_status "error" (st_results st)
  /\ Z.of_nat (List.length (st_results st))
     = st_inserted st + st_duplicates st + st_errors st.

Lemma import_error_counters st s id msg :
  counters_ok st -> counters_ok (import_error st s id msg).
Proof.
  intros (Hi & Hd & He & Hn). unfold counters_ok, import_error; simpl.
  rewrite !count_status_app, length_app; simpl. repeat split; lia.
Qed.

Lemma import_event_counters now st e :
  counters_ok st -> counters_ok (import_event now st e).
Proof.
  intros Hc. unfold import_event.
  destruct (ToDomain e now) as [trade|msg]; [|now apply import_error_counters].
  destruct (GetOrCreateAccount _ _ _ _) as [[acct|msg] s1];
    [|now apply import_error_counters].
  destruct (InsertTradeAndUpdatePosition _ _) as [[[|]|msg] s2];
    [| |now apply import_error_counters].
  - destruct Hc as (Hi & Hd & He & Hn). unfold counters_ok; simpl.
    rewrite !count_status_app, length_app; simpl. repeat split; lia.
  - destruct Hc as (Hi & Hd & He & Hn). unfold counters_ok; simpl.
    rewrite !count_status_app, length_app; simpl. repeat split; lia.
Qed.

Lemma import_loop_counters clock i st evs :
  counters_ok st -> counters_ok (import_loop clock i st evs).
Proof.
  revert i st. induction evs as [|e es IH]; intros i st Hc; simpl; [exact Hc|].
  apply IH. now apply import_event_counters.
Qed.

Lemma import_event_results_length now st e :
  List.length (st_results (import_event now st e))
  = S (List.length (st_results st)).
Proof.
  unfold import_event, import_error.
  destruct (ToDomain e now) as [trade|msg]; simpl;
    [|rewrite length_app; simpl; lia].
  destruct (GetOrCreateAccount _ _ _ _) as [[acct|msg] s1]; simpl;
    [|rewrite length_app; simpl; lia].
  destruct (InsertTradeAndUpdatePosition _ _) as [[[|]|msg] s2]; simpl;
    rewrite length_app; simpl; lia.
Qed.

Lemma import_loop_results_length clock i st evs :
  List.length (st_results (import_loop clock i st evs))
  = (List.length (st_results st) + List.length evs)%nat.
Proof.
  revert i st. induction evs as [|e es IH]; intros i st; simpl; [lia|].
  rewrite IH, import_event_results_length. lia.
Qed.

(** C8.  The import endpoint answers 400 and touches nothing when the body
    is not valid JSON, the array is empty, it holds more than 1000 trades or
    any event fails validation; otherwise every event of the processing
    order gets one result, the counters count the results by status, and the
    status is 422 when errors > 0 and inserted = 0 and 200 in every other
    case - in particular when every result is a duplicate. *)
Theorem import_status_policy
  (sort_Slice : (TradeEvent.t -> TradeEvent.t -> bool) ->
                list TradeEvent.t -> list TradeEvent.t)
  (range_order : list string -> list string) (clock : nat -> Time)
  (s : Store) (body : option (list TradeEvent.t)) :
  if refused body then
    (exists msg, fst (handleImportTrades sort_Slice range_order clock s body)
                 = writeError 400 msg)
    /\ snd (handleImportTrades sort_Slice range_order clock s body) = s
  else
    exists status resp evs,
      body = Some evs
      /\ fst (handleImportTrades sort_Slice range_order clock s body)
         = writeJSON status resp
      /\ ImportResponse.Total resp = Z.of_nat (List.length evs)
      /\ List.length (ImportResponse.Results resp)
         = List.length (processing_order sort_Slice evs)
      /\ ImportResponse.Inserted resp
         = count_status "inserted" (ImportResponse.Results resp)
      /\ ImportResponse.Duplicates resp
         = count_status "duplicate" (ImportResponse.Results resp)
      /\ ImportResponse.Errors resp
         = count_status "error" (ImportResponse.Results resp)
      /\ status = (if (0 <? ImportResponse.Errors resp)
                      && (ImportResponse.Inserted resp =? 0)
                   then 422 else 200)
      /\ (ImportResponse.Errors resp = 0 -> status = 200).
Proof.
  destruct body as [evs|]; simpl; [|split; [eexists; reflexivity | reflexivity]].
  unfold handleImportTrades.
  destruct (List.length evs =? 0)%nat; simpl;
    [split; [eexists; reflexivity | reflexivity]|].
  destruct (1000 <? List.length evs)%nat; simpl;
    [split; [eexists; reflexivity | reflexivity]|].
  destruct (existsb _ evs) eqn:Hinv.
  - destruct (first_invalid 0 evs) as [[[i e] msg]|] eqn:Hfi.
    + split; [eexists; reflexivity | reflexivity].
    + apply first_invalid_None in Hfi. congruence.
  - apply first_invalid_None with (i := 0%nat) in Hinv. rewrite Hinv.
    set (st := import_loop clock 0 _ _).
    assert (Hc : counters_ok st).
    { apply import_loop_counters. unfold counters_ok; simpl.
      repeat split; reflexivity. }
    destruct Hc as (Hi & Hd & He & Hn).
    eexists; eexists; exists evs. split; [reflexivity|].
    split; [reflexivity|]. simpl.
    split; [reflexivity|].
    split; [unfold st; now rewrite import_loop_results_length|].
    split; [exact Hi|]. split; [exact Hd|]. split; [exact He|].
    split; [reflexivity|].
    intros H0. rewrite H0. reflexivity.
Qed.

(** ** Open-position uniqueness *)

(** At most one open row for every (account, symbol, market type). *)
Definition open_unique (s : Store) : Prop :=
  forall acct sym mt,
    (List.length (filter (open_at acct sym mt) (positions s)) <= 1)%nat.

Lemma filter_map_length {A} (P : A -> bool) (g : A -> A) (l : list A) :
  (forall x, P (g x) = true -> P x = true) ->
  (List.length (filter P (map g l)) <= List.length (filter P l))%nat.
Proof.
  intros Hg. induction l as [|x l IH]; simpl; [lia|].
  destruct (P (g x)) eqn:Hgx.
  - rewrite (Hg x Hgx). simpl. lia.
  - destruct (P x); simpl; lia.
Qed.

(** A SET clause that keeps the key and never re-opens a row. *)
Definition keeps_key (f : Position.t -> Position.t) : Prop :=
  forall p,
    Position.AccountID (f p) = Position.AccountID p
    /\ Position.Symbol (f p) = Position.Symbol p
    /\ Position.MarketType (f p) = Position.MarketType p
    /\ (is_open (Position.Status (f p)) = true ->
        is_open (Position.Status p) = true).

Lemma keeps_key_set_increase q ap cb : keeps_key (set_increase q ap cb).
Proof. intros p; simpl; auto. Qed.

Lemma keeps_key_set_increase_futures q ap cb lev mar liq :
  keeps_key (set_increase_futures q ap cb lev mar liq).
Proof. intros p; simpl; auto. Qed.

Lemma keeps_key_set_closed r ts : keeps_key (set_closed r ts).
Proof. intros p; simpl; repeat split; discriminate. Qed.

Lemma keeps_key_set_partial q cb r : keeps_key (set_partial q cb r).
Proof. intros p; simpl; auto. Qed.

Create HintDb ledger.

#[local] Hint Resolve keeps_key_set_increase keeps_key_set_increase_futures
  keeps_key_set_closed keeps_key_set_partial : ledger.

Lemma update_position_open_unique s id f :
  keeps_key f -> open_unique s -> open_unique (update_position s id f).
Proof.
  intros Hf Hu acct sym mt. unfold update_position; simpl.
  eapply Nat.le_trans; [apply filter_map_length | apply Hu].
  intros p. destruct (String.eqb (Position.ID p) id); [|auto].
  unfold open_at. destruct (Hf p) as (-> & -> & -> & Hst).
  intros H. apply andb_prop in H as [H1 H2].
  rewrite H1. simpl. now apply Hst.
Qed.

Lemma existsb_false_filter {A} (P : A -> bool) (l : list A) :
  existsb P l = false -> filter P l = [].
Proof.
  induction l as [|x l IH]; simpl; [reflexivity|].
  destruct (P x); simpl; [discriminate|exact IH].
Qed.

Lemma open_at_key_eq acct sym mt p :
  open_at acct sym mt p = true ->
  open_at acct sym mt
  = open_at (Position.AccountID p) (Position.Symbol p) (Position.MarketType p).
Proof.
  intros H. apply open_at_inv in H as (<- & <- & <- & _). reflexivity.
Qed.

Lemma insert_position_open_unique s row s' :
  insert_position s row = Ok s' -> open_unique s -> open_unique s'.
Proof.
  unfold insert_position.
  destruct (negb (int4_fits _)); [discriminate|].
  destruct (existsb _ (positions s)); [discriminate|].
  destruct (negb _); [discriminate|].
  destruct (is_open (Position.Status row)) eqn:Hopen; simpl.
  - destruct (existsb _ (positions s)) eqn:Hex; [discriminate|].
    intros H; inversion H; subst; clear H.
    intros Hu acct sym mt. simpl. rewrite filter_app, length_app. simpl.
    destruct (open_at acct sym mt row) eqn:Hrow; simpl.
    + rewrite (open_at_key_eq _ _ _ _ Hrow).
      rewrite (existsb_false_filter _ _ Hex). simpl. lia.
    + specialize (Hu acct sym mt). lia.
  - intros H; inversion H; subst; clear H.
    intros Hu acct sym mt. simpl. rewrite filter_app, length_app. simpl.
    assert (Hrow : open_at acct sym mt row = false).
    { unfold open_at. rewrite Hopen. apply andb_false_r. }
    rewrite Hrow. simpl. specialize (Hu acct sym mt). lia.
Qed.

Lemma UpsertPosition_open_unique tx trade tx' :
  UpsertPosition tx trade = Ok tx' -> open_unique tx -> open_unique tx'.
Proof.
  unfold UpsertPosition, upsertSpotPosition, upsertFuturesPosition.
  destruct (Trade.MarketType trade);
    destruct (query_open_position _ _ _ _) as [pos|].
  - destruct (Trade.Side trade); [|destruct (Qle_bool _ _)];
      intros H; inversion H; subst;
      apply update_position_open_unique; auto with ledger.
  - destruct (Trade.Side trade).
    + apply insert_position_open_unique.
    + intros H; inversion H; subst; auto.
  - destruct (negb _);
      [destruct (negb (int4_fits _)); [intros; discriminate|]
      |destruct (Qle_bool _ _)];
      intros H; inversion H; subst;
      apply update_position_open_unique; auto with ledger.
  - apply insert_position_open_unique.
Qed.

Lemma InsertTradeAndUpdatePosition_open_unique s trade :
  open_unique s -> open_unique (snd (InsertTradeAndUpdatePosition s trade)).
Proof.
  intros Hu. unfold InsertTradeAndUpdatePosition, InsertTrade.
  destruct (negb (int4_fits _)); [exact Hu|].
  destruct (trade_exists s _); [exact Hu|].
  destruct (negb _); [exact Hu|].
  destruct (UpsertPosition _ trade) as [tx'|e] eqn:Hup; simpl; [|exact Hu].
  eapply UpsertPosition_open_unique; [exact Hup|]. exact Hu.
Qed.

Lemma replay_open_unique ts : forall tx tx',
  replay tx ts = Ok tx' -> open_unique tx -> open_unique tx'.
Proof.
  induction ts as [|t ts IH]; intros tx tx'; simpl.
  - intros H; inversion H; subst; auto.
  - destruct (UpsertPosition tx t) as [tx1|e] eqn:Hup; [|discriminate].
    intros H Hu. eapply IH; [exact H|].
    eapply UpsertPosition_open_unique; eauto.
Qed.

Lemma filter_filter_length {A} (P R : A -> bool) (l : list A) :
  (List.length (filter P (filter R l)) <= List.length (filter P l))%nat.
Proof.
  induction l as [|x l IH]; simpl; [lia|].
  destruct (R x); simpl; destruct (P x); simpl; lia.
Qed.

Lemma delete_positions_open_unique s a :
  open_unique s -> open_unique (delete_positions s a).
Proof.
  intros Hu acct sym mt. unfold delete_positions; simpl.
  eapply Nat.le_trans; [apply filter_filter_length | apply Hu].
Qed.

Lemma RebuildPositions_open_unique s a :
  open_unique s -> open_unique (snd (RebuildPositions s a)).
Proof.
  intros Hu. unfold RebuildPositions.
  destruct (replay _ _) as [tx'|e] eqn:Hr; simpl; [|exact Hu].
  eapply replay_open_unique; [exact Hr|].
  now apply delete_positions_open_unique.
Qed.

Lemma GetOrCreateAccount_positions s id ty now :
  positions (snd (GetOrCreateAccount s id ty now)) = positions s.
Proof.
  unfold GetOrCreateAccount. destruct (find _ _); reflexivity.
Qed.

Lemma GetOrCreateAccount_open_unique s id ty now :
  open_unique s -> open_unique (snd (GetOrCreateAccount s id ty now)).
Proof.
  intros Hu acct sym mt. rewrite GetOrCreateAccount_positions. apply Hu.
Qed.

Lemma handleMessage_open_unique s payload now :
  open_unique s -> open_unique (snd (handleMessage s payload now)).
Proof.
  intros Hu. unfold handleMessage.
  destruct payload as [event|]; [|exact Hu].
  destruct (Validate event); [|exact Hu].
  destruct (ToDomain event now) as [trade|]; [|exact Hu].
  pose proof (GetOrCreateAccount_open_unique s (Trade.AccountID trade)
                (InferAccountType (TradeEvent.AccountID event)) now Hu) as Hu1.
  destruct (GetOrCreateAccount _ _ _ _) as [[acct|e] s1]; simpl in *;
    [|exact Hu1].
  pose proof (InsertTradeAndUpdatePosition_open_unique s1
                (stamp_cost_basis s1 trade) Hu1) as Hu2.
  destruct (InsertTradeAndUpdatePosition _ _) as [[b|e] s2]; exact Hu2.
Qed.

Lemma import_event_open_unique now st e :
  open_unique (st_store st) -> open_unique (st_store (import_event now st e)).
Proof.
  intros Hu. unfold import_event.
  destruct (ToDomain e now) as [trade|]; [|exact Hu].
  pose proof (GetOrCreateAccount_open_unique (st_store st) (Trade.AccountID trade)
                (InferAccountType (TradeEvent.AccountID e)) now Hu) as Hu1.
  destruct (GetOrCreateAccount _ _ _ _) as [[acct|msg] s1]; simpl in *;
    [|exact Hu1].
  pose proof (InsertTradeAndUpdatePosition_open_unique s1
                (stamp_cost_basis s1 trade) Hu1) as Hu2.
  destruct (InsertTradeAndUpdatePosition _ _) as [[[|]|msg] s2]; exact Hu2.
Qed.

Lemma import_loop_open_unique clock evs : forall i st,
  open_unique (st_store st) ->
  open_unique (st_store (import_loop clock i st evs)).
Proof.
  induction evs as [|e es IH]; intros i st Hu; simpl; [exact Hu|].
  apply IH. now apply import_event_open_unique.
Qed.

Lemma rebuild_all_open_unique ids : forall s,
  open_unique s -> open_unique (rebuild_all s ids).
Proof.
  unfold rebuild_all.
  induction ids as [|a ids IH]; intros s Hu; simpl; [exact Hu|].
  apply IH. now apply RebuildPositions_open_unique.
Qed.

Lemma handleImportTrades_open_unique sort_Slice range_order clock s body :
  open_unique s ->
  open_unique (snd (handleImportTrades sort_Slice range_order clock s body)).
Proof.
  intros Hu. unfold handleImportTrades.
  destruct body as [evs|]; [|exact Hu].
  destruct (List.length evs =? 0)%nat; [exact Hu|].
  destruct (1000 <? List.length evs)%nat; [exact Hu|].
  destruct (first_invalid 0 evs) as [[[i e] msg]|]; [exact Hu|].
  simpl. apply rebuild_all_open_unique.
  now apply import_loop_open_unique.
Qed.

(** The operations that change the ledger. *)
Inductive operation : Type :=
| OpIngest (payload : option TradeEvent.t) (now : Time)
| OpImport (sort_Slice : (TradeEvent.t -> TradeEvent.t -> bool) ->
                         list TradeEvent.t -> list TradeEvent.t)
           (range_order : list string -> list string)
           (clock : nat -> Time)
           (body : option (list TradeEvent.t))
| OpRebuild (accountID : string).

Definition run_operation (s : Store) (op : operation) : Store :=
  match op with
  | OpIngest payload now => snd (handleMessage s payload now)
  | OpImport sort_Slice range_order clock body =>
      snd (handleImportTrades sort_Slice range_order clock s body)
  | OpRebuild accountID => snd (RebuildPositions s accountID)
  end.

Definition run (ops : list operation) : Store :=
  fold_left run_operation ops empty_store.

Lemma run_operation_open_unique s op :
  open_unique s -> open_unique (run_operation s op).
Proof.
  destruct op; simpl.
  - apply handleMessage_open_unique.
  - apply handleImportTrades_open_unique.
  - apply RebuildPositions_open_unique.
Qed.

(** C5.  After any sequence of stream ingestions, imports and rebuilds from
    the empty ledger, every (account, symbol, market type) has at most one
    position row with status open. *)
Theorem open_position_unique (ops : list operation)
  (acct sym : string) (mt : MarketType) :
  (List.length (filter (open_at acct sym mt) (positions (run ops))) <= 1)%nat.
Proof.
  assert (H : forall s, open_unique s -> open_unique (fold_left run_operation ops s)).
  { induction ops as [|op ops IH]; intros s Hu; simpl; [exact Hu|].
    apply IH. now apply run_operation_open_unique. }
  apply (H empty_store). intros a sy m. simpl. lia.
Qed.

(** ** The invariant of open spot positions *)

(** Trades as the data model has them: quantity > 0, price > 0, fee >= 0.
    [Validate] checks the first two. *)
Definition valid_trade (t : Trade.t) : Prop :=
  (0 < Trade.Quantity t)%Q /\ (0 < Trade.Price t)%Q /\ (0 <= Trade.Fee t)%Q.


(** The primary key of [ledger_positions]. *)
Definition pk_unique (s : Store) : Prop :=
  NoDup (map Position.ID (positions s)).


Definition total_fees (ts : list Trade.t) : Q :=
  fold_right (fun t acc => (Trade.Fee t + acc)%Q) 0%Q ts.

Definition ingest_all (s : Store) (ts : list Trade.t) : Store :=
  fold_left (fun s t => snd (InsertTradeAndUpdatePosition s t)) ts s.



Lemma NoDup_map_row {A K} (key : A -> K) (l : list A) x y :
  NoDup (map key l) -> In x l -> In y l -> key x = key y -> x = y.
Proof.
  induction l as [|z l IH]; simpl; [tauto|].
  intros Hnd Hx Hy Hk. inversion Hnd as [|? ? Hnotin Hnd']; subst.
  destruct Hx as [<-|Hx], Hy as [<-|Hy].
  - reflexivity.
  - exfalso. apply Hnotin. rewrite Hk. now apply in_map.
  - exfalso. apply Hnotin. rewrite <- Hk. now apply in_map.
  - now apply IH.
Qed.

Lemma pk_unique_row (l : list Position.t) p p' :
  NoDup (map Position.ID l) -> In p l -> In p' l ->
  Position.ID p' = Position.ID p -> p' = p.
Proof. intros Hnd Hp Hp'. now apply (NoDup_map_row Position.ID l). Qed.

(** A SET clause never touches the primary key. *)
Definition keeps_id (f : Position.t -> Position.t) : Prop :=
  forall p, Position.ID (f p) = Position.ID p.

Lemma update_position_ids s id f :
  keeps_id f ->
  map Position.ID (positions (update_position s id f))
  = map Position.ID (positions s).
Proof.
  intros Hf. unfold update_position; simpl. rewrite map_map.
  apply map_ext. intros p. destruct (String.eqb _ _); [apply Hf|reflexivity].
Qed.


Lemma insert_position_pk s row s' :
  insert_position s row = Ok s' -> pk_unique s -> pk_unique s'.
Proof.
  intros H Hnd.
  assert (Hfresh : ~ In (Position.ID row) (map Position.ID (positions s))).
  { unfold insert_position in H.
    destruct (negb (int4_fits _)); [discriminate|].
    destruct (existsb _ (positions s)) eqn:Hex; [discriminate|].
    intros Hin. apply in_map_iff in Hin as (p & Hid & Hp).
    enough (existsb (fun p0 => String.eqb (Position.ID p0) (Position.ID row))
                    (positions s) = true) by congruence.
    apply existsb_exists. exists p. split; [exact Hp|].
    now apply String.eqb_eq. }
  apply insert_position_frame in H as (_ & _ & Hpos).
  unfold pk_unique. rewrite Hpos, map_app. simpl.
  eapply Permutation_NoDup; [apply Permutation_cons_append|].
  now constructor.
Qed.

Lemma update_position_pk s id f :
  keeps_id f -> pk_unique s -> pk_unique (update_position s id f).
Proof.
  intros Hf Hnd. unfold pk_unique. now rewrite update_position_ids.
Qed.

Lemma keeps_id_set_increase q ap cb : keeps_id (set_increase q ap cb).
Proof. intros p; reflexivity. Qed.

Lemma keeps_id_set_increase_futures q ap cb lev mar liq :
  keeps_id (set_increase_futures q ap cb lev mar liq).
Proof. intros p; reflexivity. Qed.

Lemma keeps_id_set_closed r ts : keeps_id (set_closed r ts).
Proof. intros p; reflexivity. Qed.

Lemma keeps_id_set_partial q cb r : keeps_id (set_partial q cb r).
Proof. intros p; reflexivity. Qed.

#[local] Hint Resolve keeps_id_set_increase keeps_id_set_increase_futures
  keeps_id_set_closed keeps_id_set_partial : ledger.

Lemma UpsertPosition_pk tx trade tx' :
  UpsertPosition tx trade = Ok tx' -> pk_unique tx -> pk_unique tx'.
Proof.
  unfold UpsertPosition, upsertSpotPosition, upsertFuturesPosition.
  destruct (Trade.MarketType trade);
    destruct (query_open_position _ _ _ _) as [pos|].
  - destruct (Trade.Side trade); [|destruct (Qle_bool _ _)];
      intros H; inversion H; subst;
      apply update_position_pk; auto with ledger.
  - destruct (Trade.Side trade).
    + apply insert_position_pk.
    + intros H; inversion H; subst; auto.
  - destruct (negb _);
      [destruct (negb (int4_fits _)); [intros; discriminate|]
      |destruct (Qle_bool _ _)];
      intros H; inversion H; subst;
      apply update_position_pk; auto with ledger.
  - apply insert_position_pk.
Qed.







Lemma total_fees_nonneg ts : Forall valid_trade ts -> (0 <= total_fees ts)%Q.
Proof.
  induction 1 as [|t ts Hv _ IH]; simpl; [lra|].
  destruct Hv as (_ & _ & Hf). lra.
Qed.



(** Scenario S2/S3 of the specification: two buys and a partial sell. *)
Definition s_live : Store :=
  snd (GetOrCreateAccount empty_store "live" AccountTypeLive t_10h).




(** Outside the data model: [Validate] does not look at the fee.  Two buys
    that pass validation, the second with a fee of -300, leave an open spot
    position whose average entry price is negative. *)
Definition nf_buy1 : TradeEvent.t :=
  TradeEvent.mk "n-1" "live" "BTC-USD" "buy" 1 100 0 "USD" "spot"
                "2025-01-15T10:00:00Z" None None None None.
Definition nf_buy2 : TradeEvent.t :=
  TradeEvent.mk "n-2" "live" "BTC-USD" "buy" 1 100 (-300) "USD" "spot"
                "2025-01-15T11:00:00Z" None None None None.

Lemma negative_fee_passes_validation :
  Validate nf_buy1 = Ok tt /\ Validate nf_buy2 = Ok tt
  /\ exists p,
       positions (run [OpIngest (Some nf_buy1) t_11h;
                       OpIngest (Some nf_buy2) t_11h]) = [p]
       /\ Position.Status p = PositionStatusOpen
       /\ (Position.AvgEntryPrice p == -50)%Q.
Proof.
  split; [reflexivity|]. split; [reflexivity|].
  eexists. split; [vm_compute; reflexivity|].
  split; reflexivity.
Qed.

(** ** Rebuild against incremental processing *)

Lemma insert_sorted_perm {A} (leb : A -> A -> bool) x l :
  Permutation (insert_sorted leb x l) (x :: l).
Proof.
  induction l as [|y l IH]; simpl; [auto|].
  destruct (leb x y); [auto|].
  rewrite IH. apply perm_swap.
Qed.

Lemma sort_by_perm {A} (leb : A -> A -> bool) l :
  Permutation (sort_by leb l) l.
Proof.
  induction l as [|x l IH]; simpl; [auto|].
  rewrite insert_sorted_perm. now constructor.
Qed.

Lemma NoDup_map_filter {A K} (key : A -> K) (P : A -> bool) (l : list A) :
  NoDup (map key l) -> NoDup (map key (filter P l)).
Proof.
  induction l as [|z l IH]; simpl; [auto|].
  intros Hnd. inversion Hnd as [|? ? Hnotin Hnd']; subst.
  destruct (P z); simpl; [|auto].
  constructor; [|auto].
  intros Hin. apply Hnotin. apply in_map_iff in Hin as (y & Hk & Hy).
  apply filter_In in Hy as [Hy _]. rewrite <- Hk. now apply in_map.
Qed.

(** The engine reads the accounts and positions tables only. *)
Definition with_trades (tr : list Trade.t) (s : Store) : Store :=
  mkStore (accounts s) tr (positions s).

Definition lift_trades (tr : list Trade.t) (r : result Store) : result Store :=
  match r with Ok s => Ok (with_trades tr s) | Err e => Err e end.

Lemma insert_position_with_trades tr s row :
  insert_position (with_trades tr s) row = lift_trades tr (insert_position s row).
Proof.
  unfold insert_position, with_trades, account_exists; simpl.
  repeat match goal with |- context [if ?c then _ else _] => destruct c end;
    reflexivity.
Qed.

Lemma UpsertPosition_with_trades tr s t :
  UpsertPosition (with_trades tr s) t = lift_trades tr (UpsertPosition s t).
Proof.
  unfold UpsertPosition, upsertSpotPosition, upsertFuturesPosition.
  change (query_open_position (with_trades tr s)) with (query_open_position s).
  destruct (Trade.MarketType t);
    destruct (query_open_position s _ _ _) as [pos|];
    rewrite ?insert_position_with_trades;
    repeat match goal with
           | |- context [match Trade.Side t with _ => _ end] =>
               destruct (Trade.Side t)
           | |- context [if ?c then _ else _] => destruct c
           end; reflexivity.
Qed.

(** The outcome of each call when a list of trades is ingested in order. *)
Fixpoint ingest_outcomes (s : Store) (ts : list Trade.t) : list (result bool) :=
  match ts with
  | [] => []
  | t :: ts' =>
      fst (InsertTradeAndUpdatePosition s t)
      :: ingest_outcomes (snd (InsertTradeAndUpdatePosition s t)) ts'
  end.

Lemma replay_ingest ts : forall tx tx' s,
  replay tx ts = Ok tx' ->
  accounts s = accounts tx -> positions s = positions tx ->
  NoDup (map Trade.TradeID ts) ->
  (forall t, In t ts ->
     trade_exists s (Trade.TradeID t) = false
     /\ account_exists s (Trade.AccountID t) = true
     /\ int4_fits (Trade.Leverage t) = true) ->
  ingest_outcomes s ts = map (fun _ => Ok true) ts
  /\ accounts (ingest_all s ts) = accounts tx'
  /\ positions (ingest_all s ts) = positions tx'
  /\ trades (ingest_all s ts) = (trades s ++ ts)%list.
Proof.
  induction ts as [|t ts IH]; intros tx tx' s Hr Ha Hp Hnd Hfresh; simpl in *.
  - inversion Hr; subst. rewrite app_nil_r. auto.
  - destruct (UpsertPosition tx t) as [tx1|e] eqn:Hup; [|discriminate].
    destruct (Hfresh t (or_introl eq_refl)) as (Hnew & Hacct & Hfit).
    inversion Hnd as [|? ? Hnotin Hnd']; subst.
    assert (Hstep : InsertTradeAndUpdatePosition s t
                    = (Ok true, with_trades (trades s ++ [t]) tx1)).
    { unfold InsertTradeAndUpdatePosition, InsertTrade.
      rewrite Hfit, Hnew, Hacct. simpl.
      replace (mkStore (accounts s) (trades s ++ [t]) (positions s))
        with (with_trades (trades s ++ [t]) tx)
        by (unfold with_trades; now rewrite Ha, Hp).
      rewrite UpsertPosition_with_trades, Hup. reflexivity. }
    unfold ingest_all in *. simpl. rewrite Hstep. simpl.
    apply UpsertPosition_frame in Hup as Hfr. destruct Hfr as [Hacc1 _].
    destruct (IH tx1 tx' (with_trades (trades s ++ [t]) tx1) Hr eq_refl eq_refl Hnd')
      as (Ho & Hacc & Hpos & Htr).
    { intros t' Hin. destruct (Hfresh t' (or_intror Hin)) as [Hnew' Hacct'].
      split.
      - unfold trade_exists, with_trades; simpl.
        rewrite trade_exists_app, Hnew'. simpl.
        apply String.eqb_neq. intros Heq. apply Hnotin.
        rewrite Heq. now apply in_map.
      - unfold account_exists, with_trades in *; simpl.
        now rewrite Hacc1, <- Ha. }
    rewrite Ho, Hacc, Hpos, Htr. simpl.
    rewrite <- app_assoc. auto.
Qed.

(** The constraints of [ledger_trades]: primary key and foreign key. *)
Definition log_wf (s : Store) : Prop :=
  (NoDup (map Trade.TradeID (trades s))
   /\ (forall t, In t (trades s) -> account_exists s (Trade.AccountID t) = true))
  /\ Forall (fun t => int4_fits (Trade.Leverage t) = true) (trades s).

(** The ledger before the account traded: its trades and positions removed. *)
Definition forget_account (s : Store) (a : string) : Store :=
  mkStore (accounts s)
    (filter (fun t => negb (String.eqb (Trade.AccountID t) a)) (trades s))
    (filter (fun p => negb (String.eqb (Position.AccountID p) a)) (positions s)).

Lemma TradesForRebuild_In s a t :
  In t (TradesForRebuild s a) <->
  In t (trades s) /\ Trade.AccountID t = a.
Proof.
  unfold TradesForRebuild. split.
  - intros H. apply (Permutation_in _ (sort_by_perm _ _)) in H.
    apply filter_In in H as [H1 H2]. now apply String.eqb_eq in H2.
  - intros [H1 H2].
    apply (Permutation_in _ (Permutation_sym (sort_by_perm _ _))).
    apply filter_In. split; [exact H1|]. now apply String.eqb_eq.
Qed.

Lemma TradesForRebuild_NoDup s a :
  NoDup (map Trade.TradeID (trades s)) ->
  NoDup (map Trade.TradeID (TradesForRebuild s a)).
Proof.
  intros Hnd. unfold TradesForRebuild.
  eapply Permutation_NoDup.
  - apply Permutation_map. apply Permutation_sym. apply sort_by_perm.
  - now apply NoDup_map_filter.
Qed.

Definition other_account (a : string) (p : Position.t) : bool :=
  negb (String.eqb (Position.AccountID p) a).

(** Rows of other accounts are out of reach of an update found by key. *)
Lemma update_position_other_accounts s pos f a :
  pk_unique s -> In pos (positions s) -> Position.AccountID pos = a ->
  keeps_key f ->
  filter (other_account a) (positions (update_position s (Position.ID pos) f))
  = filter (other_account a) (positions s).
Proof.
  intros Hpk Hin Ha Hf. unfold update_position, pk_unique in *; simpl.
  assert (H : forall p, In p (positions s) ->
                        Position.ID p = Position.ID pos -> p = pos).
  { intros p Hp Hid. now apply (pk_unique_row _ _ _ Hpk Hin Hp). }
  clear Hpk Hin.
  induction (positions s) as [|p l IH]; simpl; [reflexivity|].
  rewrite IH by (intros; apply H; simpl; auto).
  destruct (String.eqb (Position.ID p) (Position.ID pos)) eqn:Heq.
  - apply String.eqb_eq in Heq.
    assert (p = pos) by (apply H; simpl; auto). subst p.
    unfold other_account. destruct (Hf pos) as (-> & _).
    rewrite Ha, String.eqb_refl. reflexivity.
  - reflexivity.
Qed.

Lemma insert_position_other_accounts s row s' a :
  insert_position s row = Ok s' -> Position.AccountID row = a ->
  filter (other_account a) (positions s')
  = filter (other_account a) (positions s).
Proof.
  intros H Ha. apply insert_position_frame in H as (_ & _ & ->).
  rewrite filter_app. simpl. unfold other_account at 2.
  rewrite Ha, String.eqb_refl. simpl. apply app_nil_r.
Qed.

Lemma UpsertPosition_other_accounts tx t tx' :
  UpsertPosition tx t = Ok tx' -> pk_unique tx ->
  filter (other_account (Trade.AccountID t)) (positions tx')
  = filter (other_account (Trade.AccountID t)) (positions tx).
Proof.
  intros Hup Hpk. revert Hup.
  unfold UpsertPosition, upsertSpotPosition, upsertFuturesPosition.
  destruct (Trade.MarketType t);
    destruct (query_open_position _ _ _ _) as [pos|] eqn:Hq;
    try (destruct (query_open_position_In _ _ _ _ _ Hq) as [Hin Hopen];
         apply open_at_inv in Hopen as (Hacc & _)).
  - destruct (Trade.Side t); [|destruct (Qle_bool _ _)];
      intros H; inversion H; subst;
      apply update_position_other_accounts; auto with ledger.
  - destruct (Trade.Side t).
    + intros H. eapply insert_position_other_accounts; [exact H|reflexivity].
    + intros H; inversion H; subst; reflexivity.
  - destruct (negb _);
      [destruct (negb (int4_fits _)); [intros; discriminate|]
      |destruct (Qle_bool _ _)];
      intros H; inversion H; subst;
      apply update_position_other_accounts; auto with ledger.
  - intros H. eapply insert_position_other_accounts; [exact H|reflexivity].
Qed.

Lemma replay_frame ts : forall tx tx' a,
  replay tx ts = Ok tx' -> pk_unique tx ->
  (forall t, In t ts -> Trade.AccountID t = a) ->
  accounts tx' = accounts tx /\ trades tx' = trades tx
  /\ filter (other_account a) (positions tx')
     = filter (other_account a) (positions tx).
Proof.
  induction ts as [|t ts IH]; intros tx tx' a Hr Hpk Ha; simpl in *.
  - inversion Hr; subst; auto.
  - destruct (UpsertPosition tx t) as [tx1|e] eqn:Hup; [|discriminate].
    destruct (IH tx1 tx' a Hr) as (H1 & H2 & H3).
    { eapply UpsertPosition_pk; eauto. }
    { intros t' Hin. apply Ha. now right. }
    destruct (UpsertPosition_frame _ _ _ Hup) as [H4 H5].
    rewrite H1, H2, H3, H4, H5.
    rewrite <- (Ha t (or_introl eq_refl)).
    repeat split. now apply UpsertPosition_other_accounts.
Qed.

Lemma filter_idem {A} (P : A -> bool) (l : list A) :
  filter P (filter P l) = filter P l.
Proof.
  induction l as [|x l IH]; simpl; [reflexivity|].
  destruct (P x) eqn:Hx; simpl; rewrite ?Hx, IH; reflexivity.
Qed.

Lemma delete_positions_pk s a : pk_unique s -> pk_unique (delete_positions s a).
Proof. unfold pk_unique, delete_positions; simpl. apply NoDup_map_filter. Qed.

(** When the replay goes through, the rebuilt rows are those of ingesting
    the account's trades in (timestamp, trade_id) order into the ledger
    without that account, every call reporting [inserted]; and a second
    rebuild reproduces the store. *)
Lemma rebuild_matches_incremental (s : Store) (a : string) (s' : Store) :
  log_wf s -> pk_unique s ->
  RebuildPositions s a = (Ok tt, s') ->
  ingest_outcomes (forget_account s a) (TradesForRebuild s a)
  = map (fun _ => Ok true) (TradesForRebuild s a)
  /\ positions (ingest_all (forget_account s a) (TradesForRebuild s a))
     = positions s'
  /\ RebuildPositions s' a = (Ok tt, s').
Proof.
  intros [[Hnd Hfk] Hfit] Hpk Hreb. unfold RebuildPositions in Hreb.
  change (TradesForRebuild (delete_positions s a) a)
    with (TradesForRebuild s a) in Hreb.
  destruct (replay (delete_positions s a) (TradesForRebuild s a))
    as [tx'|e] eqn:Hr; inversion Hreb; subst; clear Hreb.
  destruct (replay_ingest _ _ _ (forget_account s a) Hr eq_refl eq_refl)
    as (Ho & _ & Hp & _).
  { now apply TradesForRebuild_NoDup. }
  { intros t Hin. apply TradesForRebuild_In in Hin as [Hin Ha]. split.
    - unfold trade_exists, forget_account; simpl.
      destruct (existsb _ _) eqn:Hex; [|reflexivity].
      apply existsb_exists in Hex as (t0 & Hin0 & Heq).
      apply filter_In in Hin0 as [Hin0 Hneq]. apply String.eqb_eq in Heq.
      rewrite (NoDup_map_row _ _ _ _ Hnd Hin0 Hin Heq) in Hneq.
      rewrite Ha, String.eqb_refl in Hneq. discriminate.
    - split; [now apply Hfk|].
      rewrite Forall_forall in Hfit. now apply Hfit. }
  split; [exact Ho|]. split; [exact Hp|].
  destruct (replay_frame _ _ _ a Hr) as (Hacc & Htr & Hoth).
  { now apply delete_positions_pk. }
  { intros t Hin. now apply TradesForRebuild_In in Hin. }
  assert (Hdel : delete_positions s' a = delete_positions s a).
  { unfold delete_positions at 1. fold (other_account a).
    rewrite Hacc, Htr, Hoth. unfold delete_positions; simpl.
    fold (other_account a). now rewrite filter_idem. }
  unfold RebuildPositions. rewrite Hdel.
  change (TradesForRebuild (delete_positions s a) a)
    with (TradesForRebuild s a).
  now rewrite Hr.
Qed.

(** A reopening within one second.  Three valid spot events for the same
    key carry timestamps inside the second 10:00:00: a buy, a sell that
    closes, a buy that reopens.  They reach the consumer in the order
    buy, buy, sell, so all three are accepted. *)
Definition rx_buy1 : TradeEvent.t :=
  TradeEvent.mk "r-1" "live" "BTC-USD" "buy" 1 100 0 "USD" "spot"
                "2025-01-15T10:00:00.1Z" None None None None.
Definition rx_sell : TradeEvent.t :=
  TradeEvent.mk "r-2" "live" "BTC-USD" "sell" 1 110 0 "USD" "spot"
                "2025-01-15T10:00:00.5Z" None None None None.
Definition rx_buy2 : TradeEvent.t :=
  TradeEvent.mk "r-3" "live" "BTC-USD" "buy" 1 120 0 "USD" "spot"
                "2025-01-15T10:00:00.9Z" None None None None.

Definition rx_arrival : list operation :=
  [OpIngest (Some rx_buy1) t_11h; OpIngest (Some rx_buy2) t_11h;
   OpIngest (Some rx_sell) t_11h].

Definition rx_in_order : list operation :=
  [OpIngest (Some rx_buy1) t_11h; OpIngest (Some rx_sell) t_11h;
   OpIngest (Some rx_buy2) t_11h].

Definition pk_violation : string :=
  "duplicate key value violates unique constraint ledger_positions_pkey".

(** C3 at the failing input.  The log holds the three trades; the rebuild
    replays them as r-1, r-2, r-3, the reopening INSERT reuses the position
    id of the closed row (same account, symbol and Unix second), the primary
    key rejects it and the rebuild rolls back: the open row of the skewed
    incremental state stays.  Ingesting the same events in timestamp order
    leaves a closed row and rejects the third event. *)
Theorem rebuild_fails_after_same_second_reopen :
  map Trade.TradeID (trades (run rx_arrival)) = ["r-1"; "r-3"; "r-2"]
  /\ map Trade.TradeID (TradesForRebuild (run rx_arrival) "live")
     = ["r-1"; "r-2"; "r-3"]
  /\ RebuildPositions (run rx_arrival) "live"
     = (Err ("upsert position during rebuild: " ++ pk_violation), run rx_arrival)
  /\ map Position.Status (positions (run rx_arrival)) = [PositionStatusOpen]
  /\ map Position.Status (positions (run rx_in_order)) = [PositionStatusClosed]
  /\ map Trade.TradeID (trades (run rx_in_order)) = ["r-1"; "r-2"]
  /\ fst (handleMessage (run [OpIngest (Some rx_buy1) t_11h;
                              OpIngest (Some rx_sell) t_11h])
                        (Some rx_buy2) t_11h) = Nak.
Proof. repeat split; vm_compute; reflexivity. Qed.

(** ** The schema constraints hold in every reachable ledger *)

Definition store_wf (s : Store) : Prop := log_wf s /\ pk_unique s.

Lemma account_exists_app l a id :
  existsb (fun x => String.eqb (Account.ID x) id) l = true ->
  existsb (fun x => String.eqb (Account.ID x) id) (l ++ [a]) = true.
Proof. intros H. rewrite existsb_app, H. reflexivity. Qed.

Lemma GetOrCreateAccount_wf s id ty now :
  store_wf s -> store_wf (snd (GetOrCreateAccount s id ty now)).
Proof.
  intros [[[Hnd Hfk] Hfit] Hpk]. unfold GetOrCreateAccount.
  destruct (find _ _); simpl; [repeat split; assumption|].
  repeat split; try assumption. simpl.
  intros t Hin. unfold account_exists; simpl.
  apply account_exists_app. now apply Hfk.
Qed.

Lemma InsertTradeAndUpdatePosition_wf s trade :
  store_wf s -> store_wf (snd (InsertTradeAndUpdatePosition s trade)).
Proof.
  intros [[[Hnd Hfk] Hfit] Hpk]. unfold InsertTradeAndUpdatePosition, InsertTrade.
  destruct (int4_fits (Trade.Leverage trade)) eqn:Hlev; simpl;
    [|repeat split; assumption].
  destruct (trade_exists s (Trade.TradeID trade)) eqn:Hex;
    [repeat split; assumption|].
  destruct (account_exists s (Trade.AccountID trade)) eqn:Hacc; simpl;
    [|repeat split; assumption].
  destruct (UpsertPosition _ trade) as [tx'|e] eqn:Hup; simpl;
    [|repeat split; assumption].
  destruct (UpsertPosition_frame _ _ _ Hup) as [Ha Ht]. simpl in Ha, Ht.
  split; [split; [split|]|].
  4:{ eapply UpsertPosition_pk; [exact Hup|]. exact Hpk. }
  3:{ rewrite Ht. apply Forall_app. split; [exact Hfit|].
      constructor; [exact Hlev | constructor]. }
  - rewrite Ht, map_app. simpl.
    eapply Permutation_NoDup; [apply Permutation_cons_append|].
    constructor; [|exact Hnd].
    intros Hin. apply in_map_iff in Hin as (t0 & Hid & Hin0).
    enough (trade_exists s (Trade.TradeID trade) = true) by congruence.
    apply existsb_exists. exists t0. split; [exact Hin0|].
    now apply String.eqb_eq.
  - intros t Hin. rewrite Ht in Hin. unfold account_exists. rewrite Ha.
    apply in_app_or in Hin as [Hin | [<- | []]].
    + now apply Hfk.
    + exact Hacc.
Qed.

Lemma replay_wf ts : forall tx tx',
  replay tx ts = Ok tx' -> store_wf tx -> store_wf tx'.
Proof.
  induction ts as [|t ts IH]; intros tx tx' Hr Hwf; simpl in Hr.
  - inversion Hr; subst; exact Hwf.
  - destruct (UpsertPosition tx t) as [tx1|e] eqn:Hup; [|discriminate].
    apply (IH tx1 tx' Hr).
    destruct Hwf as [[[Hnd Hfk] Hfit] Hpk].
    destruct (UpsertPosition_frame _ _ _ Hup) as [Ha Ht].
    split; [split; [split|]|].
    + now rewrite Ht.
    + intros t0 Hin. rewrite Ht in Hin. unfold account_exists. rewrite Ha.
      now apply Hfk.
    + now rewrite Ht.
    + eapply UpsertPosition_pk; eauto.
Qed.

Lemma RebuildPositions_wf s a :
  store_wf s -> store_wf (snd (RebuildPositions s a)).
Proof.
  intros Hwf. unfold RebuildPositions.
  destruct (replay _ _) as [tx'|e] eqn:Hr; simpl; [|exact Hwf].
  apply (replay_wf _ _ _ Hr).
  destruct Hwf as [Hlog Hpk]. split; [exact Hlog|].
  now apply delete_positions_pk.
Qed.

Lemma handleMessage_wf s payload now :
  store_wf s -> store_wf (snd (handleMessage s payload now)).
Proof.
  intros Hwf. unfold handleMessage.
  destruct payload as [event|]; [|exact Hwf].
  destruct (Validate event); [|exact Hwf].
  destruct (ToDomain event now) as [trade|]; [|exact Hwf].
  pose proof (GetOrCreateAccount_wf s (Trade.AccountID trade)
                (InferAccountType (TradeEvent.AccountID event)) now Hwf) as H1.
  destruct (GetOrCreateAccount _ _ _ _) as [[acct|e] s1]; simpl in *;
    [|exact H1].
  pose proof (InsertTradeAndUpdatePosition_wf s1
                (stamp_cost_basis s1 trade) H1) as H2.
  destruct (InsertTradeAndUpdatePosition _ _) as [[b|e] s2]; exact H2.
Qed.

Lemma import_event_wf now st e :
  store_wf (st_store st) -> store_wf (st_store (import_event now st e)).
Proof.
  intros Hwf. unfold import_event.
  destruct (ToDomain e now) as [trade|]; [|exact Hwf].
  pose proof (GetOrCreateAccount_wf (st_store st) (Trade.AccountID trade)
                (InferAccountType (TradeEvent.AccountID e)) now Hwf) as H1.
  destruct (GetOrCreateAccount _ _ _ _) as [[acct|msg] s1]; simpl in *;
    [|exact H1].
  pose proof (InsertTradeAndUpdatePosition_wf s1
                (stamp_cost_basis s1 trade) H1) as H2.
  destruct (InsertTradeAndUpdatePosition _ _) as [[[|]|msg] s2]; exact H2.
Qed.

Lemma handleImportTrades_wf sort_Slice range_order clock s body :
  store_wf s ->
  store_wf (snd (handleImportTrades sort_Slice range_order clock s body)).
Proof.
  intros Hwf. unfold handleImportTrades.
  destruct body as [evs|]; [|exact Hwf].
  destruct (List.length evs =? 0)%nat; [exact Hwf|].
  destruct (1000 <? List.length evs)%nat; [exact Hwf|].
  destruct (first_invalid 0 evs) as [[[i e] msg]|]; [exact Hwf|].
  simpl.
  assert (Hloop : forall evs i st,
            store_wf (st_store st) ->
            store_wf (st_store (import_loop clock i st evs))).
  { clear. induction evs as [|e es IH]; intros i st H; simpl; [exact H|].
    apply IH. now apply import_event_wf. }
  assert (Hreb : forall ids s0, store_wf s0 -> store_wf (rebuild_all s0 ids)).
  { clear. unfold rebuild_all.
    induction ids as [|a ids IH]; intros s0 H; simpl; [exact H|].
    apply IH. now apply RebuildPositions_wf. }
  apply Hreb. now apply Hloop.
Qed.

Lemma run_wf ops : store_wf (run ops).
Proof.
  assert (H : forall s, store_wf s -> store_wf (fold_left run_operation ops s)).
  { induction ops as [|op ops IH]; intros s Hwf; simpl; [exact Hwf|].
    apply IH. destruct op; simpl.
    - now apply handleMessage_wf.
    - now apply handleImportTrades_wf.
    - now apply RebuildPositions_wf. }
  apply (H empty_store). repeat split; simpl; try constructor.
  intros t [].
Qed.

(** In every reachable ledger a rebuild that goes through yields the rows of
    in-order incremental processing, and is idempotent. *)
Corollary rebuild_matches_incremental_reachable (ops : list operation)
  (a : string) (s' : Store) :
  RebuildPositions (run ops) a = (Ok tt, s') ->
  ingest_outcomes (forget_account (run ops) a) (TradesForRebuild (run ops) a)
  = map (fun _ => Ok true) (TradesForRebuild (run ops) a)
  /\ positions (ingest_all (forget_account (run ops) a)
                           (TradesForRebuild (run ops) a))
     = positions s'
  /\ RebuildPositions s' a = (Ok tt, s').
Proof.
  destruct (run_wf ops) as [Hlog Hpk]. now apply rebuild_matches_incremental.
Qed.

(** Scenario S3 arriving out of order (sell first): the rebuild goes
    through and restores the rows of in-order processing. *)
Definition s3_events : list TradeEvent.t :=
  [ TradeEvent.mk "t-3" "live" "BTC-USD" "sell" 0.5 45000 11.25 "USD" "spot"
                  "2025-01-15T12:00:00Z" None None None None;
    TradeEvent.mk "t-1" "live" "BTC-USD" "buy" 1 40000 20 "USD" "spot"
                  "2025-01-15T10:00:00Z" None None None None;
    TradeEvent.mk "t-2" "live" "BTC-USD" "buy" 0.5 42000 10.5 "USD" "spot"
                  "2025-01-15T11:00:00Z" None None None None ].

Example rebuild_after_out_of_order_arrival :
  let s := run (map (fun e => OpIngest (Some e) t_11h) s3_events) in
  exists s',
    RebuildPositions s "live" = (Ok tt, s')
    /\ map Position.Quantity (positions s) = [1.5%Q]
    /\ map Trade.TradeID (TradesForRebuild s "live") = ["t-1"; "t-2"; "t-3"]
    /\ positions (ingest_all (forget_account s "live") (TradesForRebuild s "live"))
       = positions s'
    /\ RebuildPositions s' "live" = (Ok tt, s').
Proof.
  intros s.
  destruct (RebuildPositions s "live") as [[[]|e] s'] eqn:Hreb;
    [|vm_compute in Hreb; discriminate].
  exists s'. split; [reflexivity|].
  split; [vm_compute; reflexivity|]. split; [vm_compute; reflexivity|].
  destruct (rebuild_matches_incremental_reachable _ _ _ Hreb) as (_ & Hp & Hi).
  split; assumption.
Qed.

(** ** The order in which an import batch is processed *)

(** Go's [<] and [<=] on strings: byte-wise lexicographic. *)
Lemma ltb_false_leb a b : String.ltb b a = false <-> String.leb a b = true.
Proof.
  unfold String.ltb, String.leb. rewrite (String.compare_antisym a b).
  destruct (String.compare b a); simpl; split; congruence.
Qed.

Lemma ltb_true_leb a b : String.ltb a b = true -> String.leb a b = true.
Proof.
  unfold String.ltb, String.leb. destruct (String.compare a b); congruence.
Qed.

Lemma string_leb_trans a : forall b c,
  String.leb a b = true -> String.leb b c = true -> String.leb a c = true.
Proof.
  unfold String.leb.
  induction a as [|x a IH]; intros [|y b] [|z c]; simpl; try congruence.
  intros Hab Hbc.
  destruct (Ascii.compare x y) eqn:Hxy; try discriminate;
    destruct (Ascii.compare y z) eqn:Hyz; try discriminate.
  - apply Ascii.compare_eq_iff in Hxy, Hyz. subst.
    assert (Hzz : Ascii.compare z z = Eq) by apply N.compare_refl.
    rewrite Hzz. now apply (IH b c).
  - apply Ascii.compare_eq_iff in Hxy. subst. now rewrite Hyz.
  - apply Ascii.compare_eq_iff in Hyz. subst. now rewrite Hxy.
  - assert (Hxz : Ascii.compare x z = Lt).
    { unfold Ascii.compare in *. rewrite N.compare_lt_iff in *.
      eapply N.lt_trans; eauto. }
    now rewrite Hxz.
Qed.

(** [a] is not after [b] in the order of the timestamp texts. *)
Definition timestamp_le (a b : TradeEvent.t) : Prop :=
  timestamp_less b a = false.

(** The insertion sort that [sort.Slice] runs on slices of at most twelve
    elements: each element sinks from the right end of the sorted prefix
    while it is [less] than its left neighbour.  [sink] works on the prefix
    in reverse. *)
Section InsertionSort.
Context {A : Type}.
Variable less : A -> A -> bool.

Fixpoint sink (x : A) (rprefix : list A) : list A :=
  match rprefix with
  | [] => [x]
  | y :: r => if less x y then y :: sink x r else x :: rprefix
  end.

Definition insertionSort (l : list A) : list A :=
  rev (fold_left (fun acc x => sink x acc) l []).

Lemma sink_perm x r : Permutation (sink x r) (x :: r).
Proof.
  induction r as [|y r IH]; simpl; [auto|].
  destruct (less x y); [|auto].
  rewrite IH. apply perm_swap.
Qed.

Lemma fold_sink_perm l : forall acc,
  Permutation (fold_left (fun acc x => sink x acc) l acc) (rev l ++ acc).
Proof.
  induction l as [|x l IH]; intros acc; simpl; [auto|].
  rewrite IH, sink_perm. rewrite <- app_assoc. simpl.
  apply Permutation_app_head. auto.
Qed.

Lemma insertionSort_perm l : Permutation (insertionSort l) l.
Proof.
  unfold insertionSort. rewrite <- Permutation_rev.
  rewrite fold_sink_perm, app_nil_r. symmetry. apply Permutation_rev.
Qed.

(** [less] is the strict part of a total preorder. *)
Hypothesis less_asym : forall a b, less a b = true -> less b a = false.
Hypothesis less_negtrans :
  forall a b c, less b a = false -> less c b = false -> less c a = false.

Lemma sink_sorted x r :
  StronglySorted (fun a b => less a b = false) r ->
  StronglySorted (fun a b => less a b = false) (sink x r).
Proof.
  induction 1 as [|y r Hs IH Hall]; simpl; [repeat constructor|].
  destruct (less x y) eqn:Hxy.
  - constructor; [exact IH|].
    eapply Permutation_Forall; [symmetry; apply sink_perm|].
    constructor; [now apply less_asym | exact Hall].
  - constructor; [now constructor|].
    constructor; [exact Hxy|].
    eapply Forall_impl; [|exact Hall]. intros z Hz.
    now apply (less_negtrans z y x).
Qed.

Lemma fold_sink_sorted l : forall acc,
  StronglySorted (fun a b => less a b = false) acc ->
  StronglySorted (fun a b => less a b = false)
                 (fold_left (fun acc x => sink x acc) l acc).
Proof.
  induction l as [|x l IH]; intros acc Hs; simpl; [exact Hs|].
  apply IH. now apply sink_sorted.
Qed.

Lemma StronglySorted_snoc (R : A -> A -> Prop) l x :
  StronglySorted R l -> Forall (fun y => R y x) l ->
  StronglySorted R (l ++ [x]).
Proof.
  induction 1 as [|y l Hs IH Hall]; intros Hx; simpl; [repeat constructor|].
  inversion Hx; subst.
  constructor; [now apply IH|].
  apply Forall_app. split; [exact Hall | now repeat constructor].
Qed.

Lemma StronglySorted_rev (R : A -> A -> Prop) l :
  StronglySorted R l -> StronglySorted (fun a b => R b a) (rev l).
Proof.
  induction 1 as [|y l Hs IH Hall]; simpl; [constructor|].
  apply StronglySorted_snoc; [exact IH|].
  apply Forall_rev. exact Hall.
Qed.

Lemma insertionSort_sorted l :
  StronglySorted (fun a b => less b a = false) (insertionSort l).
Proof.
  unfold insertionSort.
  apply (StronglySorted_rev (fun a b => less a b = false)).
  apply fold_sink_sorted. constructor.
Qed.
End InsertionSort.

Lemma timestamp_less_asym a b :
  timestamp_less a b = true -> timestamp_less b a = false.
Proof.
  unfold timestamp_less. intros H. apply ltb_false_leb. now apply ltb_true_leb.
Qed.

Lemma timestamp_less_negtrans a b c :
  timestamp_less b a = false -> timestamp_less c b = false ->
  timestamp_less c a = false.
Proof.
  unfold timestamp_less. rewrite !ltb_false_leb. apply string_leb_trans.
Qed.

Lemma import_event_result_ids now st e :
  map ImportResult.TradeID (st_results (import_event now st e))
  = (map ImportResult.TradeID (st_results st) ++ [TradeEvent.TradeID e])%list.
Proof.
  unfold import_event, import_error.
  destruct (ToDomain e now) as [trade|msg]; simpl;
    [|now rewrite map_app].
  destruct (GetOrCreateAccount _ _ _ _) as [[acct|msg] s1]; simpl;
    [|now rewrite map_app].
  destruct (InsertTradeAndUpdatePosition _ _) as [[[|]|msg] s2]; simpl;
    now rewrite map_app.
Qed.

Lemma import_loop_result_ids clock evs : forall i st,
  map ImportResult.TradeID (st_results (import_loop clock i st evs))
  = (map ImportResult.TradeID (st_results st)
     ++ map TradeEvent.TradeID evs)%list.
Proof.
  induction evs as [|e es IH]; intros i st; simpl.
  - now rewrite app_nil_r.
  - rewrite IH, import_event_result_ids, <- app_assoc. reflexivity.
Qed.

(** The instant an event's timestamp denotes. *)
Definition event_instant (e : TradeEvent.t) : option Z :=
  option_map instant (time_Parse (TradeEvent.Timestamp e)).

Definition not_after (a b : TradeEvent.t) : Prop :=
  match event_instant a, event_instant b with
  | Some x, Some y => x <= y
  | _, _ => False
  end.

Definition chronological (l : list TradeEvent.t) : Prop :=
  StronglySorted not_after l.

(** Events with equal timestamps keep their relative input order. *)
Definition stable_on (input output : list TradeEvent.t) : Prop :=
  forall ts,
    filter (fun e => String.eqb (TradeEvent.Timestamp e) ts) output
    = filter (fun e => String.eqb (TradeEvent.Timestamp e) ts) input.

(** The claim as the specification words it. *)
Definition import_order_as_written
  (sort_Slice : (TradeEvent.t -> TradeEvent.t -> bool) ->
                list TradeEvent.t -> list TradeEvent.t)
  (evs : list TradeEvent.t) : Prop :=
  StronglySorted timestamp_le (processing_order sort_Slice evs)
  /\ stable_on evs (processing_order sort_Slice evs)
  /\ chronological (processing_order sort_Slice evs).

(** The response lists one result per event, in the order of processing. *)
Lemma handleImportTrades_result_order
  (sort_Slice : (TradeEvent.t -> TradeEvent.t -> bool) ->
                list TradeEvent.t -> list TradeEvent.t)
  (range_order : list string -> list string) (clock : nat -> Time)
  (s : Store) (evs : list TradeEvent.t) :
  refused (Some evs) = false ->
  exists status resp,
    fst (handleImportTrades sort_Slice range_order clock s (Some evs))
    = writeJSON status resp
    /\ map ImportResult.TradeID (ImportResponse.Results resp)
       = map TradeEvent.TradeID (processing_order sort_Slice evs).
Proof.
  intros Href. unfold refused in Href.
  apply orb_false_elim in Href as [Href Hval].
  apply orb_false_elim in Href as [Hlen0 Hlen].
  unfold handleImportTrades. rewrite Hlen0, Hlen.
  apply first_invalid_None with (i := 0%nat) in Hval. rewrite Hval.
  eexists; eexists. split; [reflexivity|]. simpl.
  now rewrite import_loop_result_ids.
Qed.

(** On the slices of at most twelve elements that [sort.Slice] hands to its
    insertion sort, the processing order is the batch rearranged so that
    the timestamp texts never decrease. *)
Lemma processing_order_by_text (evs : list TradeEvent.t) :
  Permutation (processing_order insertionSort evs) evs
  /\ StronglySorted timestamp_le (processing_order insertionSort evs).
Proof.
  split; [apply insertionSort_perm|].
  apply insertionSort_sorted.
  - exact timestamp_less_asym.
  - exact timestamp_less_negtrans.
Qed.

(** Two events of one batch: 10:00 at +02:00 is 08:00 UTC, an hour before
    09:00 UTC, yet its text is the greater one. *)
Definition cx_early : TradeEvent.t :=
  TradeEvent.mk "c-1" "live" "BTC-USD" "buy" 1 100 0 "USD" "spot"
                "2025-01-15T10:00:00+02:00" None None None None.
Definition cx_late : TradeEvent.t :=
  TradeEvent.mk "c-2" "live" "BTC-USD" "sell" 1 110 0 "USD" "spot"
                "2025-01-15T09:00:00Z" None None None None.
Definition cx_batch : list TradeEvent.t := [cx_early; cx_late].

(** The same buy with its instant written in UTC. *)
Definition cx_early_utc : TradeEvent.t :=
  TradeEvent.mk "c-1" "live" "BTC-USD" "buy" 1 100 0 "USD" "spot"
                "2025-01-15T08:00:00Z" None None None None.
Definition cx_batch_utc : list TradeEvent.t := [cx_early_utc; cx_late].

(** The import of a batch into the empty ledger; a slice of two elements is
    sorted by the insertion sort of [sort.Slice]. *)
Definition cx_import (evs : list TradeEvent.t) : http_response * Store :=
  handleImportTrades insertionSort (fun l => l) (fun _ => t_11h)
                     empty_store (Some evs).

Definition result_ids (r : http_response) : list string :=
  match r with
  | writeJSON _ resp => map ImportResult.TradeID (ImportResponse.Results resp)
  | writeError _ _ => []
  end.

(** Trade id, cost basis and realized P&L of the logged rows. *)
Definition logged_stamps (s : Store) : list (string * Q * Q) :=
  map (fun t => (Trade.TradeID t, Trade.CostBasis t, Trade.RealizedPnL t))
      (trades s).

(** C6.  The import handler does not process a batch in chronological
    order of event time: its [sort.Slice] compares the timestamp texts
    byte by byte.  The batch of a buy at 10:00+02:00 (08:00 UTC) and a sell
    at 09:00Z passes validation, both events denote the instants shown,
    and the handler processes the sell first: the order is not
    chronological, so the claim as the specification words it fails.  The
    sell then finds no position and its row is logged with cost basis 0
    and realized P&L 110, where the same two trades with the buy written as
    08:00Z are processed buy first and the sell is logged with cost basis
    100 and realized P&L 10. *)
Theorem import_order_not_chronological :
  refused (Some cx_batch) = false
  /\ event_instant cx_early = Some 1736928000000000000
  /\ event_instant cx_late = Some 1736931600000000000
  /\ processing_order insertionSort cx_batch = [cx_late; cx_early]
  /\ ~ chronological (processing_order insertionSort cx_batch)
  /\ ~ import_order_as_written insertionSort cx_batch
  /\ result_ids (fst (cx_import cx_batch)) = ["c-2"; "c-1"]
  /\ logged_stamps (snd (cx_import cx_batch))
     = [("c-2", 0%Q, 110%Q); ("c-1", 100%Q, 0%Q)]
  /\ event_instant cx_early_utc = event_instant cx_early
  /\ result_ids (fst (cx_import cx_batch_utc)) = ["c-1"; "c-2"]
  /\ logged_stamps (snd (cx_import cx_batch_utc))
     = [("c-1", 100%Q, 0%Q); ("c-2", 100%Q, 10%Q)].
Proof.
  assert (Hnot : ~ chronological (processing_order insertionSort cx_batch)).
  { intros Hchr.
    change (processing_order insertionSort cx_batch)
      with [cx_late; cx_early] in Hchr.
    inversion Hchr as [|? ? _ Hall]; subst.
    inversion Hall as [|? ? Hna _]; subst.
    vm_compute in Hna. now apply Hna. }
  split; [reflexivity|]. split; [reflexivity|].
  split; [reflexivity|]. split; [reflexivity|].
  split; [exact Hnot|].
  split; [intros (_ & _ & Hchr); now apply Hnot|].
  split; [vm_compute; reflexivity|]. split; [vm_compute; reflexivity|].
  split; [reflexivity|].
  split; vm_compute; reflexivity.
Qed.

(** ** Pagination *)

Definition effective_limit (l : Z) : Z :=
  if l <=? 0 then 50 else if 200 <? l then 200 else l.

Lemma b64_encode_nonempty bs : bs <> [] -> b64_encode bs <> [].
Proof.
  destruct bs as [|a [|b [|c rest]]]; simpl; congruence.
Qed.

Lemma encodeCursor_nonempty ts id : encodeCursor ts id <> "".
Proof.
  unfold encodeCursor, EncodeToString.
  assert (H : list_ascii_of_string (Format ts ++ "|" ++ id) <> []).
  { destruct (Format ts); simpl; congruence. }
  apply b64_encode_nonempty in H.
  destruct (b64_encode _); [congruence | simpl; congruence].
Qed.

Section SortBySorted.
Context {A : Type}.
Variable leb : A -> A -> bool.
Hypothesis leb_total : forall a b, leb a b = false -> leb b a = true.
Hypothesis leb_trans :
  forall a b c, leb a b = true -> leb b c = true -> leb a c = true.

Lemma insert_sorted_sorted x l :
  StronglySorted (fun a b => leb a b = true) l ->
  StronglySorted (fun a b => leb a b = true) (insert_sorted leb x l).
Proof.
  induction 1 as [|y l Hs IH Hall]; simpl; [repeat constructor|].
  destruct (leb x y) eqn:Hxy.
  - constructor; [now constructor|].
    constructor; [exact Hxy|].
    eapply Forall_impl; [|exact Hall]. intros z Hz. now apply (leb_trans x y z).
  - constructor; [exact IH|].
    eapply Permutation_Forall; [symmetry; apply insert_sorted_perm|].
    constructor; [now apply leb_total | exact Hall].
Qed.

Lemma sort_by_sorted l :
  StronglySorted (fun a b => leb a b = true) (sort_by leb l).
Proof.
  induction l as [|x l IH]; simpl; [constructor|].
  now apply insert_sorted_sorted.
Qed.
End SortBySorted.

Lemma trade_order_leb_total a b :
  trade_order_leb a b = false -> trade_order_leb b a = true.
Proof.
  unfold trade_order_leb. intros H.
  apply orb_false_elim in H as [Hlt Heq].
  apply Z.ltb_ge in Hlt.
  destruct (instant (Trade.Timestamp b) <? instant (Trade.Timestamp a)) eqn:Hba;
    [reflexivity|].
  apply Z.ltb_ge in Hba.
  assert (He : instant (Trade.Timestamp a) = instant (Trade.Timestamp b)) by lia.
  rewrite He, Z.eqb_refl in *. simpl in *.
  destruct (String.leb_total (Trade.TradeID a) (Trade.TradeID b)); congruence.
Qed.

Lemma trade_order_leb_trans a b c :
  trade_order_leb a b = true -> trade_order_leb b c = true ->
  trade_order_leb a c = true.
Proof.
  unfold trade_order_leb. intros Hab Hbc.
  apply orb_true_iff in Hab, Hbc. apply orb_true_iff.
  destruct Hab as [Hab|Hab], Hbc as [Hbc|Hbc];
    rewrite ?andb_true_iff, ?Z.ltb_lt, ?Z.eqb_eq in *.
  - left. lia.
  - left. lia.
  - left. lia.
  - right. destruct Hab as [E1 L1], Hbc as [E2 L2].
    split; [lia|]. eapply string_leb_trans; eauto.
Qed.

Lemma matching_rows_sorted s accountID f cursor :
  StronglySorted (fun a b => trade_order_desc a b = true)
                 (matching_rows s accountID f cursor).
Proof.
  unfold matching_rows. apply sort_by_sorted; unfold trade_order_desc.
  - intros a b. apply trade_order_leb_total.
  - intros a b c Hab Hbc. eapply trade_order_leb_trans; eauto.
Qed.

Lemma ListTrades_limit l :
  (if 200 <? (if l <=? 0 then 50 else l) then 200
   else (if l <=? 0 then 50 else l)) = effective_limit l.
Proof.
  unfold effective_limit. destruct (l <=? 0) eqn:H0; [reflexivity|].
  reflexivity.
Qed.

Lemma effective_limit_range l : 1 <= effective_limit l <= 200.
Proof.
  unfold effective_limit.
  destruct (l <=? 0) eqn:H0; [lia|]. apply Z.leb_gt in H0.
  destruct (200 <? l) eqn:H2; [lia|]. apply Z.ltb_ge in H2. lia.
Qed.

(** The page the store builds once the cursor is settled. *)
Lemma ListTrades_page s accountID f cursor :
  (if String.eqb (TradeFilter.Cursor f) "" then Ok None
   else match decodeCursor (TradeFilter.Cursor f) with
        | Err e => Err ("invalid cursor: " ++ e)
        | Ok c => Ok (Some c)
        end) = Ok cursor ->
  let L := effective_limit (TradeFilter.Limit f) in
  let fetched := firstn (Z.to_nat (L + 1)) (matching_rows s accountID f cursor) in
  exists res,
    ListTrades s accountID f = Ok res
    /\ TradeListResult.Trades res = firstn (Z.to_nat L) fetched
    /\ (Z.of_nat (List.length fetched) = L + 1 ->
        exists last,
          nth_error (TradeListResult.Trades res)
                    (List.length (TradeListResult.Trades res) - 1) = Some last
          /\ TradeListResult.NextCursor res
             = encodeCursor (Trade.Timestamp last) (Trade.TradeID last)
          /\ TradeListResult.NextCursor res <> "")
    /\ (Z.of_nat (List.length fetched) <= L ->
        TradeListResult.NextCursor res = ""
        /\ TradeListResult.Trades res = fetched).
Proof.
  intros Hc L fetched. unfold ListTrades.
  rewrite ListTrades_limit. fold L. rewrite Hc. fold fetched.
  pose proof (effective_limit_range (TradeFilter.Limit f)) as HL. fold L in HL.
  assert (Hlen : (List.length fetched <= Z.to_nat (L + 1))%nat)
    by apply firstn_le_length.
  destruct (L <? Z.of_nat (List.length fetched)) eqn:Hlt.
  - apply Z.ltb_lt in Hlt.
    assert (Hpage : List.length (firstn (Z.to_nat L) fetched) = Z.to_nat L).
    { apply firstn_length_le. lia. }
    destruct (nth_error (firstn (Z.to_nat L) fetched)
                        (List.length (firstn (Z.to_nat L) fetched) - 1))
      as [last|] eqn:Hlast.
    + eexists. split; [reflexivity|]. simpl.
      split; [reflexivity|]. split.
      * intros _. exists last. split; [exact Hlast|].
        split; [reflexivity | apply encodeCursor_nonempty].
      * intros Hle. lia.
    + apply nth_error_None in Hlast. lia.
  - apply Z.ltb_ge in Hlt.
    eexists. split; [reflexivity|]. simpl.
    assert (Hall : firstn (Z.to_nat L) fetched = fetched).
    { apply firstn_all2. lia. }
    split; [now rewrite Hall|]. split.
    + intros Heq. lia.
    + intros _. split; reflexivity.
Qed.


(** ** Decimal fields print and parse back *)

Lemma digit_char_spec d :
  0 <= d <= 9 ->
  isDigit (digit_char d) = true /\ digit_val (digit_char d) = d.
Proof.
  intros H.
  assert (Hd : d = 0 \/ d = 1 \/ d = 2 \/ d = 3 \/ d = 4 \/ d = 5 \/ d = 6
               \/ d = 7 \/ d = 8 \/ d = 9) by lia.
  repeat (destruct Hd as [-> | Hd]; [split; reflexivity|]).
  subst; split; reflexivity.
Qed.

Lemma digits_value_app l1 : forall a l2,
  digits_value a (l1 ++ l2)
  = match digits_value a l1 with
    | Some v => digits_value v l2
    | None => None
    end.
Proof.
  induction l1 as [|c l1 IH]; intros a l2; simpl; [reflexivity|].
  destruct (isDigit c); [apply IH | reflexivity].
Qed.

Lemma digits_aux_acc f : forall u acc,
  digits_aux f u acc = (digits_aux f u [] ++ acc)%list.
Proof.
  induction f as [|f IH]; intros u acc; simpl; [reflexivity|].
  destruct (u / 10 =? 0); [reflexivity|].
  rewrite (IH _ (_ :: acc)), (IH _ [_]), <- app_assoc. reflexivity.
Qed.

Lemma digits_aux_digits f : forall u,
  0 <= u -> Forall (fun c => isDigit c = true) (digits_aux f u []).
Proof.
  induction f as [|f IH]; intros u Hu; simpl; [constructor|].
  assert (Hd : isDigit (digit_char (u mod 10)) = true).
  { apply digit_char_spec. pose proof (Z.mod_pos_bound u 10). lia. }
  destruct (u / 10 =? 0); [repeat constructor; exact Hd|].
  rewrite digits_aux_acc. apply Forall_app. split.
  - apply IH. apply Z.div_pos; lia.
  - repeat constructor; exact Hd.
Qed.

Lemma digits_aux_value f : forall u a,
  0 <= u < 10 ^ Z.of_nat f ->
  digits_value a (digits_aux f u [])
  = Some (a * 10 ^ Z.of_nat (List.length (digits_aux f u [])) + u).
Proof.
  induction f as [|f IH]; intros u a Hu.
  - simpl in *. f_equal. lia.
  - cbn [digits_aux].
    assert (Hm : 0 <= u mod 10 <= 9) by (pose proof (Z.mod_pos_bound u 10); lia).
    destruct (digit_char_spec _ Hm) as [Hd Hv].
    pose proof (Z.div_mod u 10 ltac:(lia)) as Hdm.
    destruct (u / 10 =? 0) eqn:Hq.
    + apply Z.eqb_eq in Hq. cbn [digits_value List.length]. rewrite Hd, Hv.
      f_equal. change (Z.of_nat 1) with 1. lia.
    + apply Z.eqb_neq in Hq.
      rewrite digits_aux_acc, digits_value_app.
      rewrite Nat2Z.inj_succ, Z.pow_succ_r in Hu by lia.
      rewrite IH by (split; [apply Z.div_pos; lia
                            | apply Z.div_lt_upper_bound; lia]).
      cbn [digits_value]. rewrite Hd, Hv, length_app. cbn [List.length].
      f_equal. rewrite Nat2Z.inj_add. change (Z.of_nat 1) with 1.
      rewrite Z.pow_add_r by lia. lia.
Qed.

Lemma digits_aux_length f : forall u k,
  0 <= u < 10 ^ Z.of_nat k -> (1 <= k)%nat ->
  (List.length (digits_aux f u []) <= k)%nat.
Proof.
  induction f as [|f IH]; intros u k Hu Hk; simpl; [lia|].
  destruct (u / 10 =? 0) eqn:Hq; [simpl; lia|].
  apply Z.eqb_neq in Hq.
  rewrite digits_aux_acc, length_app. simpl.
  destruct k as [|k]; [lia|].
  rewrite Nat2Z.inj_succ, Z.pow_succ_r in Hu by lia.
  assert (Hdiv : 0 <= u / 10 < 10 ^ Z.of_nat k).
  { split; [apply Z.div_pos; lia | apply Z.div_lt_upper_bound; lia]. }
  destruct k as [|k].
  - simpl in Hdiv. lia.
  - specialize (IH (u / 10) (S k) Hdiv ltac:(lia)). lia.
Qed.

Lemma digits_value_zeros m : forall a l,
  digits_value a (repeat "0"%char m ++ l)
  = digits_value (a * 10 ^ Z.of_nat m) l.
Proof.
  induction m as [|m IH]; intros a l.
  - simpl. f_equal. lia.
  - cbn [repeat app digits_value].
    change (isDigit "0") with true. cbn iota.
    change (digit_val "0") with 0. rewrite IH. f_equal.
    rewrite Nat2Z.inj_succ, Z.pow_succ_r by lia. lia.
Qed.

(** A field of width [w] holding [0 <= n < 10^w] prints as exactly [w]
    digits whose value is [n]. *)
Lemma appendInt_spec n (w : nat) :
  0 <= n < 10 ^ Z.of_nat w -> (1 <= w <= 20)%nat ->
  List.length (appendInt n (Z.of_nat w)) = w
  /\ Forall (fun c => isDigit c = true) (appendInt n (Z.of_nat w))
  /\ digits_value 0 (appendInt n (Z.of_nat w)) = Some n.
Proof.
  intros Hn Hw. unfold appendInt, utoa.
  assert (Hneg : (n <? 0) = false) by (apply Z.ltb_ge; lia).
  rewrite Hneg, Z.abs_eq by lia. cbn [app].
  assert (Hlen : (List.length (digits_aux 20 n []) <= w)%nat)
    by (apply digits_aux_length; [exact Hn | lia]).
  assert (H20 : 0 <= n < 10 ^ Z.of_nat 20).
  { split; [lia|]. eapply Z.lt_le_trans; [apply Hn|].
    apply Z.pow_le_mono_r; lia. }
  split; [|split].
  - rewrite length_app, repeat_length. lia.
  - apply Forall_app. split.
    + apply Forall_forall. intros c Hc. apply repeat_spec in Hc. now subst.
    + apply digits_aux_digits. lia.
  - rewrite digits_value_zeros. rewrite digits_aux_value by exact H20.
    f_equal.
Qed.

Lemma appendInt_2 n :
  0 <= n <= 99 ->
  exists c1 c2,
    appendInt n 2 = [c1; c2]
    /\ isDigit c1 = true /\ isDigit c2 = true
    /\ digits_value 0 [c1; c2] = Some n.
Proof.
  intros Hn.
  destruct (appendInt_spec n 2) as (Hl & Hd & Hv); [simpl; lia | lia |].
  change (Z.of_nat 2) with 2 in *.
  destruct (appendInt n 2) as [|c1 [|c2 [|c3 l]]]; try discriminate.
  inversion Hd as [|? ? H1 Hd']; subst. inversion Hd' as [|? ? H2 _]; subst.
  exists c1, c2. auto.
Qed.

Lemma appendInt_4 n :
  0 <= n <= 9999 ->
  exists c1 c2 c3 c4,
    appendInt n 4 = [c1; c2; c3; c4]
    /\ Forall (fun c => isDigit c = true) [c1; c2; c3; c4]
    /\ digits_value 0 [c1; c2; c3; c4] = Some n.
Proof.
  intros Hn.
  destruct (appendInt_spec n 4) as (Hl & Hd & Hv); [simpl; lia | lia |].
  change (Z.of_nat 4) with 4 in *.
  destruct (appendInt n 4) as [|c1 [|c2 [|c3 [|c4 [|c5 l]]]]]; try discriminate.
  exists c1, c2, c3, c4. auto.
Qed.

Lemma parseUint_of_value cs n lo hi :
  digits_value 0 cs = Some n -> lo <= n <= hi -> parseUint cs lo hi = Some n.
Proof.
  intros Hv Hr. unfold parseUint. rewrite Hv.
  assert (H : (lo <=? n) && (n <=? hi) = true)
    by (apply andb_true_iff; split; apply Z.leb_le; lia).
  now rewrite H.
Qed.

(** ** The fractional second and the zone print and parse back *)

Lemma trim_zeros_spec l :
  exists m, l = (trim_zeros l ++ repeat "0"%char m)%list.
Proof.
  induction l as [|c l IH]; [exists 0%nat; reflexivity|].
  destruct IH as [m IH]. cbn [trim_zeros].
  destruct (trim_zeros l) as [|x t] eqn:Ht.
  - simpl in IH. destruct (Ascii.eqb_spec c "0") as [->|Hc].
    + exists (S m). simpl. now rewrite <- IH.
    + exists m. simpl. now rewrite <- IH.
  - exists m. simpl. simpl in IH. now rewrite <- IH.
Qed.

Lemma trim_zeros_Forall (P : ascii -> Prop) l :
  Forall P l -> Forall P (trim_zeros l).
Proof.
  induction 1 as [|c l Hc Hl IH]; [constructor|].
  cbn [trim_zeros]. destruct (trim_zeros l) as [|x t].
  - destruct (Ascii.eqb c "0"); repeat constructor; exact Hc.
  - constructor; assumption.
Qed.

Lemma digits_value_total cs : forall a,
  Forall (fun c => isDigit c = true) cs -> exists v, digits_value a cs = Some v.
Proof.
  induction cs as [|c cs IH]; intros a Hd; simpl; [eauto|].
  inversion Hd as [|? ? Hc Hcs]; subst. rewrite Hc. now apply IH.
Qed.

Lemma parseNanoseconds_trim nsec :
  0 < nsec <= 999999999 ->
  trim_zeros (appendInt nsec 9) <> []
  /\ Forall (fun c => isDigit c = true) (trim_zeros (appendInt nsec 9))
  /\ parseNanoseconds (trim_zeros (appendInt nsec 9)) = nsec.
Proof.
  intros Hn.
  destruct (appendInt_spec nsec 9) as (Hl & Hd & Hv); [simpl; lia | lia |].
  change (Z.of_nat 9) with 9 in *.
  destruct (trim_zeros_spec (appendInt nsec 9)) as [m Hm].
  set (t := trim_zeros (appendInt nsec 9)) in *.
  assert (Hdt : Forall (fun c => isDigit c = true) t)
    by (apply trim_zeros_Forall; exact Hd).
  destruct (digits_value_total t 0 Hdt) as [v Hvt].
  assert (Hlen : (List.length t + m = 9)%nat).
  { rewrite <- Hl, Hm at 1. fold t. now rewrite length_app, repeat_length. }
  assert (Hval : v * 10 ^ Z.of_nat m = nsec).
  { rewrite Hm in Hv. fold t in Hv.
    rewrite digits_value_app, Hvt in Hv.
    rewrite <- (app_nil_r (repeat _ m)), digits_value_zeros in Hv.
    simpl in Hv. congruence. }
  split; [|split; [exact Hdt|]].
  - intros Ht. rewrite Ht in Hvt. simpl in Hvt. inversion Hvt; subst. lia.
  - unfold parseNanoseconds.
    rewrite firstn_all2 by lia. rewrite Hvt.
    replace (9 - Z.of_nat (List.length t)) with (Z.of_nat m) by lia.
    exact Hval.
Qed.

Lemma span_digits_app ds z zs :
  Forall (fun c => isDigit c = true) ds -> isDigit z = false ->
  span_digits (string_of_list_ascii (ds ++ z :: zs))
  = (ds, string_of_list_ascii (z :: zs)).
Proof.
  intros Hd Hz. induction Hd as [|c ds Hc Hds IH]; simpl.
  - now rewrite Hz.
  - rewrite Hc. simpl in IH. now rewrite IH.
Qed.

Lemma formatNano_parse nsec z zs :
  0 <= nsec <= 999999999 ->
  isDigit z = false -> Ascii.eqb z "." = false ->
  parse_fraction (string_of_list_ascii (formatNano nsec ++ z :: zs))
  = (nsec, string_of_list_ascii (z :: zs)).
Proof.
  intros Hn Hz Hdot. unfold formatNano.
  destruct (nsec =? 0) eqn:H0.
  - apply Z.eqb_eq in H0. subst. simpl.
    destruct zs as [|c zs']; simpl; [reflexivity|]. now rewrite Hdot.
  - apply Z.eqb_neq in H0.
    destruct (parseNanoseconds_trim nsec ltac:(lia)) as (Hne & Hd & Hp).
    destruct (trim_zeros (appendInt nsec 9)) as [|c t] eqn:Ht; [congruence|].
    apply Forall_cons_iff in Hd as [Hc Hdt].
    cbn [app string_of_list_ascii parse_fraction].
    change (Ascii.eqb "." ".") with true. rewrite Hc. cbn [andb].
    change (String c (string_of_list_ascii (t ++ z :: zs)))
      with (string_of_list_ascii ((c :: t) ++ z :: zs)).
    rewrite (span_digits_app (c :: t) z zs (Forall_cons _ Hc Hdt) Hz).
    now rewrite Hp.
Qed.

(** The times [time.RFC3339Nano] can write and read back: four-digit year,
    calendar date, clock reading, and a zone offset of whole minutes below a
    day. *)
Definition rfc3339_representable (t : Time) : Prop :=
  0 <= year t <= 9999
  /\ 1 <= month t <= 12
  /\ 1 <= day t <= daysIn (month t) (year t)
  /\ 0 <= hour t <= 23
  /\ 0 <= minute t <= 59
  /\ 0 <= second t <= 59
  /\ 0 <= nanosecond t <= 999999999
  /\ zoneOffset t mod 60 = 0
  /\ -86340 <= zoneOffset t <= 86340.

Definition no_bar (c : ascii) : bool := negb (Ascii.eqb c "|").

Lemma isDigit_no_bar c : isDigit c = true -> no_bar c = true.
Proof.
  intros H. unfold no_bar. destruct (Ascii.eqb_spec c "|") as [->|]; [|reflexivity].
  discriminate H.
Qed.

Lemma formatZone_spec off :
  off mod 60 = 0 -> -86340 <= off <= 86340 ->
  parse_zone (string_of_list_ascii (formatZone off)) = Some off
  /\ Forall (fun c => no_bar c = true) (formatZone off)
  /\ exists z zs, formatZone off = z :: zs
                  /\ isDigit z = false /\ Ascii.eqb z "." = false.
Proof.
  intros Hmod Hr. unfold formatZone.
  destruct (off =? 0) eqn:H0.
  { apply Z.eqb_eq in H0. subst. split; [reflexivity|].
    split; [repeat constructor|]. eexists; eexists. repeat split. }
  apply Z.eqb_neq in H0.
  assert (Hoff : off = off / 60 * 60).
  { pose proof (Z.div_mod off 60 ltac:(lia)). lia. }
  set (k := off / 60) in *.
  assert (Hq : Z.quot off 60 = k) by (rewrite Hoff; apply Z.quot_mul; lia).
  rewrite Hq. clear Hq.
  assert (Hk : -1439 <= k <= 1439) by lia.
  pose proof (Z.mod_pos_bound (Z.abs k) 60 ltac:(lia)) as Hmm.
  pose proof (Z.div_mod (Z.abs k) 60 ltac:(lia)) as Hdm.
  assert (Hhh : 0 <= Z.abs k / 60 <= 23).
  { split; [apply Z.div_pos; lia|].
    apply Z.lt_succ_r. apply Z.div_lt_upper_bound; lia. }
  destruct (appendInt_2 (Z.abs k / 60) ltac:(lia))
    as (h1 & h2 & -> & Hh1 & Hh2 & Hhv).
  destruct (appendInt_2 (Z.abs k mod 60) ltac:(lia))
    as (m1 & m2 & -> & Hm1 & Hm2 & Hmv).
  split; [|split].
  - cbn [app string_of_list_ascii parse_zone].
    rewrite (parseUint_of_value _ _ 0 23 Hhv) by lia.
    rewrite (parseUint_of_value _ _ 0 59 Hmv) by lia.
    destruct (k <? 0) eqn:Hneg.
    + apply Z.ltb_lt in Hneg. simpl. f_equal. lia.
    + apply Z.ltb_ge in Hneg. simpl. f_equal. lia.
  - cbn [app].
    constructor; [destruct (k <? 0); reflexivity|].
    repeat (constructor; [first [now apply isDigit_no_bar | reflexivity]|]).
    constructor.
  - destruct (k <? 0); eexists; eexists; repeat split.
Qed.

(** ** [time.Parse] reads back what [Format] writes *)

Lemma Format_chars_shape t :
  rfc3339_representable t ->
  exists y1 y2 y3 y4 m1 m2 d1 d2 h1 h2 n1 n2 s1 s2 z zs,
    Format_chars t
    = (y1 :: y2 :: y3 :: y4 :: "-" :: m1 :: m2 :: "-" :: d1 :: d2 :: "T"
       :: h1 :: h2 :: ":" :: n1 :: n2 :: ":" :: s1 :: s2
       :: formatNano (nanosecond t) ++ z :: zs)%char%list
    /\ formatZone (zoneOffset t) = z :: zs
    /\ isDigit z = false /\ Ascii.eqb z "." = false
    /\ Forall (fun c => isDigit c = true)
              [y1; y2; y3; y4; m1; m2; d1; d2; h1; h2; n1; n2; s1; s2]
    /\ digits_value 0 [y1; y2; y3; y4] = Some (year t)
    /\ digits_value 0 [m1; m2] = Some (month t)
    /\ digits_value 0 [d1; d2] = Some (day t)
    /\ digits_value 0 [h1; h2] = Some (hour t)
    /\ digits_value 0 [n1; n2] = Some (minute t)
    /\ digits_value 0 [s1; s2] = Some (second t).
Proof.
  intros (Hy & Hmo & Hd & Hh & Hmi & Hs & _ & Hzm & Hzr).
  assert (Hdays : daysIn (month t) (year t) <= 31).
  { unfold daysIn. repeat match goal with
                          | |- context [if ?c then _ else _] => destruct c
                          end; lia. }
  destruct (appendInt_4 (year t) Hy) as (y1 & y2 & y3 & y4 & Ey & Dy & Vy).
  destruct (appendInt_2 (month t) ltac:(lia)) as (m1 & m2 & Em & Dm1 & Dm2 & Vm).
  destruct (appendInt_2 (day t) ltac:(lia)) as (d1 & d2 & Ed & Dd1 & Dd2 & Vd).
  destruct (appendInt_2 (hour t) ltac:(lia)) as (h1 & h2 & Eh & Dh1 & Dh2 & Vh).
  destruct (appendInt_2 (minute t) ltac:(lia)) as (n1 & n2 & En & Dn1 & Dn2 & Vn).
  destruct (appendInt_2 (second t) ltac:(lia)) as (s1 & s2 & Es & Ds1 & Ds2 & Vs).
  destruct (formatZone_spec (zoneOffset t) Hzm Hzr)
    as (_ & _ & z & zs & Ez & Hz & Hdot).
  exists y1, y2, y3, y4, m1, m2, d1, d2, h1, h2, n1, n2, s1, s2, z, zs.
  split.
  { unfold Format_chars. rewrite Ey, Em, Ed, Eh, En, Es, Ez. reflexivity. }
  split; [exact Ez|]. split; [exact Hz|]. split; [exact Hdot|].
  split.
  { inversion Dy as [|? ? Hy1 Dy']; subst.
    inversion Dy' as [|? ? Hy2 Dy'']; subst.
    inversion Dy'' as [|? ? Hy3 Dy''']; subst.
    inversion Dy''' as [|? ? Hy4 _]; subst.
    repeat constructor; assumption. }
  repeat split; assumption.
Qed.

Lemma parseRFC3339_Format t :
  rfc3339_representable t -> parseRFC3339 (Format t) = Some t.
Proof.
  intros Hrep.
  destruct (Format_chars_shape t Hrep)
    as (y1 & y2 & y3 & y4 & m1 & m2 & d1 & d2 & h1 & h2 & n1 & n2 & s1 & s2
        & z & zs & Hshape & Ez & Hz & Hdot & _ & Vy & Vm & Vd & Vh & Vn & Vs).
  destruct Hrep as (Hy & Hmo & Hd & Hh & Hmi & Hs & Hns & Hzm & Hzr).
  unfold Format. rewrite Hshape.
  cbn [string_of_list_ascii app parseRFC3339].
  rewrite (parseUint_of_value _ _ 0 9999 Vy) by lia.
  rewrite (parseUint_of_value _ _ 1 12 Vm) by lia.
  rewrite (parseUint_of_value _ _ 1 _ Vd) by lia.
  rewrite (parseUint_of_value _ _ 0 23 Vh) by lia.
  rewrite (parseUint_of_value _ _ 0 59 Vn) by lia.
  rewrite (parseUint_of_value _ _ 0 59 Vs) by lia.
  change (Ascii.eqb "-" "-") with true.
  change (Ascii.eqb "T" "T") with true.
  change (Ascii.eqb ":" ":") with true.
  cbn [andb].
  rewrite (formatNano_parse _ z zs Hns Hz Hdot).
  rewrite <- Ez.
  destruct (formatZone_spec (zoneOffset t) Hzm Hzr) as (Hpz & _).
  rewrite Hpz. destruct t; reflexivity.
Qed.

(** What [Format] writes is read by the strict reader, so [time.Parse]
    never gets to the layout parser on it. *)
Lemma time_Parse_Format t :
  rfc3339_representable t -> time_Parse (Format t) = Some t.
Proof.
  intros Hrep. unfold time_Parse. now rewrite parseRFC3339_Format.
Qed.

(** The text [Format] writes has no separator character in it. *)
Lemma Format_no_bar t :
  rfc3339_representable t -> Forall (fun c => no_bar c = true) (Format_chars t).
Proof.
  intros Hrep.
  destruct (Format_chars_shape t Hrep)
    as (y1 & y2 & y3 & y4 & m1 & m2 & d1 & d2 & h1 & h2 & n1 & n2 & s1 & s2
        & z & zs & Hshape & Ez & _ & _ & Hdig & _).
  destruct Hrep as (_ & _ & _ & _ & _ & _ & Hns & Hzm & Hzr).
  assert (Hd : forall c, In c [y1; y2; y3; y4; m1; m2; d1; d2; h1; h2;
                               n1; n2; s1; s2] -> no_bar c = true).
  { intros c Hc. apply isDigit_no_bar.
    rewrite Forall_forall in Hdig. now apply Hdig. }
  assert (Hfrac : Forall (fun c => no_bar c = true) (formatNano (nanosecond t))).
  { unfold formatNano. destruct (nanosecond t =? 0) eqn:H0; [constructor|].
    apply Z.eqb_neq in H0.
    constructor; [reflexivity|].
    destruct (parseNanoseconds_trim (nanosecond t) ltac:(lia)) as (_ & Hdt & _).
    eapply Forall_impl; [|exact Hdt]. intros c. apply isDigit_no_bar. }
  destruct (formatZone_spec (zoneOffset t) Hzm Hzr) as (_ & Hzone & _).
  rewrite Hshape, <- Ez.
  repeat (constructor; [first [reflexivity | apply Hd; simpl; tauto]|]).
  apply Forall_app. split; assumption.
Qed.

(** ** base64 decodes what it encodes *)

Lemma b64_char_spec n :
  (n < 64)%N ->
  b64_val (b64_char n) = Some n
  /\ is_pad (b64_char n) = false
  /\ not_newline (b64_char n) = true.
Proof.
  intros Hn.
  assert (Hk : exists k, (k < 64)%nat /\ n = N.of_nat k).
  { exists (N.to_nat n). split; [lia | now rewrite N2Nat.id]. }
  destruct Hk as (k & Hk & ->).
  do 64 (destruct k as [|k]; [repeat split; reflexivity|]).
  lia.
Qed.

Lemma sextets_of_bytes x y z :
  (x < 256)%N -> (y < 256)%N -> (z < 256)%N ->
  (x / 4 < 64 /\ (x mod 4) * 16 + y / 16 < 64
   /\ (y mod 16) * 4 + z / 64 < 64 /\ z mod 64 < 64
   /\ (x mod 4) * 16 < 64 /\ (y mod 16) * 4 < 64)%N.
Proof.
  intros Hx Hy Hz.
  pose proof (N.mod_upper_bound x 4 ltac:(lia)).
  pose proof (N.mod_upper_bound y 16 ltac:(lia)).
  pose proof (N.mod_upper_bound z 64 ltac:(lia)).
  assert (x / 4 < 64)%N by (apply N.Div0.div_lt_upper_bound; lia).
  assert (y / 16 < 16)%N by (apply N.Div0.div_lt_upper_bound; lia).
  assert (z / 64 < 4)%N by (apply N.Div0.div_lt_upper_bound; lia).
  lia.
Qed.

Lemma bytes_of_sextets x y z :
  (x < 256)%N -> (y < 256)%N -> (z < 256)%N ->
  (x / 4 * 4 + ((x mod 4) * 16 + y / 16) / 16 = x
   /\ (((x mod 4) * 16 + y / 16) mod 16) * 16
      + ((y mod 16) * 4 + z / 64) / 4 = y
   /\ (((y mod 16) * 4 + z / 64) mod 4) * 64 + z mod 64 = z)%N.
Proof.
  intros Hx Hy Hz.
  pose proof (N.mod_upper_bound x 4 ltac:(lia)).
  pose proof (N.mod_upper_bound y 16 ltac:(lia)).
  pose proof (N.mod_upper_bound z 64 ltac:(lia)).
  pose proof (N.div_mod x 4 ltac:(lia)).
  pose proof (N.div_mod y 16 ltac:(lia)).
  pose proof (N.div_mod z 64 ltac:(lia)).
  assert (y / 16 < 16)%N by (apply N.Div0.div_lt_upper_bound; lia).
  assert (z / 64 < 4)%N by (apply N.Div0.div_lt_upper_bound; lia).
  assert (E1 : (((x mod 4) * 16 + y / 16) / 16 = x mod 4)%N).
  { rewrite N.add_comm, N.div_add by lia. rewrite N.div_small by lia. lia. }
  assert (E2 : (((x mod 4) * 16 + y / 16) mod 16 = y / 16)%N).
  { rewrite N.add_comm, N.Div0.mod_add. now apply N.mod_small. }
  assert (E3 : (((y mod 16) * 4 + z / 64) / 4 = y mod 16)%N).
  { rewrite N.add_comm, N.div_add by lia. rewrite N.div_small by lia. lia. }
  assert (E4 : (((y mod 16) * 4 + z / 64) mod 4 = z / 64)%N).
  { rewrite N.add_comm, N.Div0.mod_add. now apply N.mod_small. }
  rewrite E1, E2, E3, E4. lia.
Qed.

Lemma list_ind3 {A} (P : list A -> Prop) :
  P [] -> (forall a, P [a]) -> (forall a b, P [a; b]) ->
  (forall a b c l, P l -> P (a :: b :: c :: l)) ->
  forall l, P l.
Proof.
  intros H0 H1 H2 H3 l.
  enough (H : P l /\ (forall a, P (a :: l)) /\ (forall a b, P (a :: b :: l)))
    by apply H.
  induction l as [|x l (IH0 & IH1 & IH2)]; [auto|].
  split; [apply IH1|]. split; [intros a; apply IH2|].
  intros a b. now apply H3.
Qed.

Lemma b64_decode_encode bs : b64_decode (b64_encode bs) = Some bs.
Proof.
  induction bs as [|a|a b|a b c rest IH] using list_ind3.
  - reflexivity.
  - pose proof (N_ascii_bounded a) as Ha.
    destruct (sextets_of_bytes (N_of_ascii a) 0 0 Ha) as (S1 & _ & _ & _ & S2 & _);
      [lia | lia|].
    destruct (bytes_of_sextets (N_of_ascii a) 0 0 Ha) as (B1 & _); [lia | lia|].
    cbn [b64_encode b64_decode].
    destruct (b64_char_spec _ S1) as (-> & _).
    destruct (b64_char_spec _ S2) as (-> & _).
    change (is_pad "=") with true. cbn iota.
    change (0 / 16)%N with 0%N in B1. rewrite N.add_0_r in B1.
    now rewrite B1, ascii_N_embedding.
  - pose proof (N_ascii_bounded a) as Ha. pose proof (N_ascii_bounded b) as Hb.
    destruct (sextets_of_bytes (N_of_ascii a) (N_of_ascii b) 0 Ha Hb)
      as (S1 & S2 & _ & _ & _ & S3); [lia|].
    destruct (bytes_of_sextets (N_of_ascii a) (N_of_ascii b) 0 Ha Hb)
      as (B1 & B2 & _); [lia|].
    cbn [b64_encode b64_decode].
    destruct (b64_char_spec _ S1) as (-> & _).
    destruct (b64_char_spec _ S2) as (-> & _).
    destruct (b64_char_spec _ S3) as (-> & -> & _).
    change (is_pad "=") with true. cbn iota.
    change (0 / 64)%N with 0%N in B2. rewrite N.add_0_r in B2.
    now rewrite B1, B2, !ascii_N_embedding.
  - pose proof (N_ascii_bounded a) as Ha. pose proof (N_ascii_bounded b) as Hb.
    pose proof (N_ascii_bounded c) as Hc.
    destruct (sextets_of_bytes _ _ _ Ha Hb Hc) as (S1 & S2 & S3 & S4 & _).
    destruct (bytes_of_sextets _ _ _ Ha Hb Hc) as (B1 & B2 & B3).
    cbn [b64_encode b64_decode].
    destruct (b64_char_spec _ S1) as (-> & _).
    destruct (b64_char_spec _ S2) as (-> & _).
    destruct (b64_char_spec _ S3) as (-> & -> & _).
    destruct (b64_char_spec _ S4) as (-> & -> & _).
    rewrite IH, B1, B2, B3, !ascii_N_embedding. reflexivity.
Qed.

Lemma b64_encode_no_newline bs :
  filter not_newline (b64_encode bs) = b64_encode bs.
Proof.
  induction bs as [|a|a b|a b c rest IH] using list_ind3.
  - reflexivity.
  - pose proof (N_ascii_bounded a) as Ha.
    destruct (sextets_of_bytes (N_of_ascii a) 0 0 Ha) as (S1 & _ & _ & _ & S2 & _);
      [lia | lia|].
    cbn [b64_encode filter].
    destruct (b64_char_spec _ S1) as (_ & _ & ->).
    destruct (b64_char_spec _ S2) as (_ & _ & ->). reflexivity.
  - pose proof (N_ascii_bounded a) as Ha. pose proof (N_ascii_bounded b) as Hb.
    destruct (sextets_of_bytes (N_of_ascii a) (N_of_ascii b) 0 Ha Hb)
      as (S1 & S2 & _ & _ & _ & S3); [lia|].
    cbn [b64_encode filter].
    destruct (b64_char_spec _ S1) as (_ & _ & ->).
    destruct (b64_char_spec _ S2) as (_ & _ & ->).
    destruct (b64_char_spec _ S3) as (_ & _ & ->). reflexivity.
  - pose proof (N_ascii_bounded a) as Ha. pose proof (N_ascii_bounded b) as Hb.
    pose proof (N_ascii_bounded c) as Hc.
    destruct (sextets_of_bytes _ _ _ Ha Hb Hc) as (S1 & S2 & S3 & S4 & _).
    cbn [b64_encode filter].
    destruct (b64_char_spec _ S1) as (_ & _ & ->).
    destruct (b64_char_spec _ S2) as (_ & _ & ->).
    destruct (b64_char_spec _ S3) as (_ & _ & ->).
    destruct (b64_char_spec _ S4) as (_ & _ & ->).
    now rewrite IH.
Qed.

Lemma DecodeString_EncodeToString bs :
  DecodeString (EncodeToString bs) = Some bs.
Proof.
  unfold DecodeString, EncodeToString.
  rewrite list_ascii_of_string_of_list_ascii, b64_encode_no_newline.
  apply b64_decode_encode.
Qed.

(** ** The cursor round trip *)

Lemma split_bar_app l id :
  Forall (fun c => no_bar c = true) l ->
  split_bar (string_of_list_ascii l ++ "|" ++ id)
  = Some (string_of_list_ascii l, id).
Proof.
  induction 1 as [|c l Hc Hl IH]; simpl; [reflexivity|].
  unfold no_bar in Hc. apply negb_true_iff in Hc. rewrite Hc.
  simpl in IH. now rewrite IH.
Qed.

(** C10.  For every time that RFC3339Nano can represent and every id - with
    or without the separator '|' in it - decoding the encoded cursor succeeds
    and returns the same time (so the same instant) and the same id. *)
Theorem cursor_roundtrip (t : Time) (id : string) :
  rfc3339_representable t ->
  decodeCursor (encodeCursor t id) = Ok (t, id)
  /\ exists t', decodeCursor (encodeCursor t id) = Ok (t', id)
                /\ instant t' = instant t.
Proof.
  intros Hrep.
  assert (H : decodeCursor (encodeCursor t id) = Ok (t, id)).
  { unfold decodeCursor, encodeCursor.
    rewrite DecodeString_EncodeToString, string_of_list_ascii_of_string.
    unfold Format at 1. rewrite split_bar_app by now apply Format_no_bar.
    fold (Format t). now rewrite time_Parse_Format. }
  split; [exact H|]. exists t. split; [exact H | reflexivity].
Qed.

Lemma t_10h_representable : rfc3339_representable t_10h.
Proof. repeat split; vm_compute; congruence. Qed.

Lemma cursor_roundtrip_witness :
  decodeCursor (encodeCursor t_10h "acct|42") = Ok (t_10h, "acct|42").
Proof.
  apply (cursor_roundtrip t_10h "acct|42"). exact t_10h_representable.
Defined.

(** A page of one row out of two, and the page the cursor leads to. *)
Definition page_filter (cursor : string) (limit : Z) : TradeFilter.t :=
  TradeFilter.mk "" "" "" None None cursor limit.



(** The status policy at work: a batch whose only trade is already in the
    log is answered 200; a batch whose only trade is rejected by the store
    is answered 422. *)
Lemma import_status_policy_witness :
  (exists resp,
     fst (handleImportTrades insertionSort (fun l => l) (fun _ => t_11h)
            (run [OpIngest (Some rx_buy1) t_11h]) (Some [rx_buy1]))
     = writeJSON 200 resp
     /\ ImportResponse.Duplicates resp = 1)
  /\ (exists resp,
        fst (handleImportTrades insertionSort (fun l => l) (fun _ => t_11h)
               (run [OpIngest (Some rx_buy1) t_11h;
                     OpIngest (Some rx_sell) t_11h]) (Some [rx_buy2]))
        = writeJSON 422 resp
        /\ ImportResponse.Errors resp = 1).
Proof.
  split.
  - pose proof (import_status_policy insertionSort (fun l => l) (fun _ => t_11h)
                  (run [OpIngest (Some rx_buy1) t_11h]) (Some [rx_buy1])) as H.
    change (refused (Some [rx_buy1])) with false in H. cbv iota in H.
    destruct H as (status & resp & evs & _ & Hfst & _ & _ & _ & Hdup & Herr & _ & H200).
    exists resp. rewrite Hfst.
    vm_compute in Hfst. injection Hfst as Hst Hresp.
    subst resp. split; [|reflexivity].
    f_equal. apply H200. reflexivity.
  - pose proof (import_status_policy insertionSort (fun l => l) (fun _ => t_11h)
                  (run [OpIngest (Some rx_buy1) t_11h;
                        OpIngest (Some rx_sell) t_11h]) (Some [rx_buy2])) as H.
    change (refused (Some [rx_buy2])) with false in H. cbv iota in H.
    destruct H as (status & resp & evs & _ & Hfst & _ & _ & _ & _ & _ & Hstatus & _).
    exists resp. rewrite Hfst.
    vm_compute in Hfst. injection Hfst as Hst Hresp.
    subst resp. split; [|reflexivity].
    f_equal. rewrite Hstatus. reflexivity.
Defined.

(** * Further properties of the code *)

(** ** What [time.Parse] returns *)

Lemma parseUint_range cs lo hi x : parseUint cs lo hi = Some x -> lo <= x <= hi.
Proof.
  unfold parseUint. destruct (digits_value 0 cs) as [v|]; [|discriminate].
  destruct ((lo <=? v) && (v <=? hi)) eqn:H; [|discriminate].
  intros E; inversion E; subst.
  apply andb_true_iff in H as [H1 H2]. apply Z.leb_le in H1, H2. lia.
Qed.

Lemma digits_value_bound cs : forall a v,
  0 <= a -> digits_value a cs = Some v ->
  a * 10 ^ Z.of_nat (List.length cs) <= v
  < (a + 1) * 10 ^ Z.of_nat (List.length cs).
Proof.
  induction cs as [|c cs IH]; intros a v Ha H; simpl digits_value in H.
  - inversion H; subst. simpl. lia.
  - destruct (isDigit c) eqn:Hc; [|discriminate].
    assert (Hd : 0 <= digit_val c <= 9).
    { unfold isDigit in Hc. apply andb_true_iff in Hc as [H1 H2].
      apply Z.leb_le in H1, H2. unfold digit_val. lia. }
    apply IH in H; [|lia].
    cbn [List.length]. rewrite Nat2Z.inj_succ, Z.pow_succ_r by lia.
    set (P := 10 ^ Z.of_nat (List.length cs)) in *.
    assert (0 < P) by (apply Z.pow_pos_nonneg; lia).
    nia.
Qed.

Lemma parseNanoseconds_range ds : 0 <= parseNanoseconds ds <= 999999999.
Proof.
  unfold parseNanoseconds.
  destruct (digits_value 0 (firstn 9 ds)) as [v|] eqn:Hv; [|lia].
  apply digits_value_bound in Hv; [|lia].
  assert (Hl : (List.length (firstn 9 ds) <= 9)%nat) by apply firstn_le_length.
  set (n := List.length (firstn 9 ds)) in *.
  assert (Hp : 10 ^ Z.of_nat n * 10 ^ (9 - Z.of_nat n) = 10 ^ 9).
  { rewrite <- Z.pow_add_r by lia. f_equal. lia. }
  assert (0 < 10 ^ (9 - Z.of_nat n)) by (apply Z.pow_pos_nonneg; lia).
  change (10 ^ 9) with 1000000000 in Hp. nia.
Qed.

Lemma span_digits_fst s : exists ds r, span_digits s = (ds, r).
Proof. destruct (span_digits s) as [ds r]. eauto. Qed.

Lemma parse_fraction_range s : 0 <= fst (parse_fraction s) <= 999999999.
Proof.
  unfold parse_fraction.
  destruct s as [|dot [|c s']]; simpl; try lia.
  destruct (Ascii.eqb dot "." && isDigit c); simpl; [|lia].
  destruct (isDigit c); simpl.
  - destruct (span_digits s') as [ds r]. simpl. apply parseNanoseconds_range.
  - apply parseNanoseconds_range.
Qed.

Lemma parse_zone_range s off :
  parse_zone s = Some off -> off mod 60 = 0 /\ -86340 <= off <= 86340.
Proof.
  unfold parse_zone.
  destruct s as [|z [|h2 [|h3 [|c [|m1 [|m2 [|x s']]]]]]]; try discriminate.
  - destruct (Ascii.eqb z "Z"); [|discriminate].
    intros E; inversion E; subst. split; [reflexivity | lia].
  - destruct (parseUint [h2; h3] 0 23) as [hr|] eqn:Hh; [|discriminate].
    destruct (parseUint [m1; m2] 0 59) as [mm|] eqn:Hm; [|discriminate].
    apply parseUint_range in Hh, Hm.
    destruct ((Ascii.eqb z "-" || Ascii.eqb z "+") && Ascii.eqb c ":");
      [|discriminate].
    destruct (Ascii.eqb z "-"); intros E; inversion E; subst; clear E.
    + split; [|lia].
      replace (- ((hr * 60 + mm) * 60)) with ((- (hr * 60 + mm)) * 60) by lia.
      apply Z.mod_mul; lia.
    + split; [apply Z.mod_mul; lia | lia].
Qed.

Lemma parseRFC3339_representable s t :
  parseRFC3339 s = Some t -> rfc3339_representable t.
Proof.
  unfold parseRFC3339.
  do 19 (destruct s as [|? s]; [discriminate|]).
  repeat match goal with
         | |- context [match parseUint ?cs ?lo ?hi with _ => _ end] =>
             let H := fresh "Hp" in
             destruct (parseUint cs lo hi) eqn:H;
             [apply parseUint_range in H | try discriminate]
         end.
  all: try discriminate.
  destruct (_ && _); [|discriminate].
  pose proof (parse_fraction_range s) as Hns.
  destruct (parse_fraction s) as [nsec rest']. simpl in Hns.
  destruct (parse_zone rest') as [off|] eqn:Hz; [|discriminate].
  apply parse_zone_range in Hz as [Hz1 Hz2].
  intros E; inversion E; subst; clear E.
  unfold rfc3339_representable; simpl. repeat split; lia.
Qed.

(** The times the layout parser lets through: the zone offset may reach 24
    hours and 60 minutes. *)
Definition parsed_time (t : Time) : Prop :=
  0 <= year t <= 9999
  /\ 1 <= month t <= 12
  /\ 1 <= day t <= daysIn (month t) (year t)
  /\ 0 <= hour t <= 23
  /\ 0 <= minute t <= 59
  /\ 0 <= second t <= 59
  /\ 0 <= nanosecond t <= 999999999
  /\ zoneOffset t mod 60 = 0
  /\ -90000 <= zoneOffset t <= 90000.

Lemma representable_parsed_time t : rfc3339_representable t -> parsed_time t.
Proof.
  unfold rfc3339_representable, parsed_time. intros H.
  repeat split; lia.
Qed.

Lemma isDigit_val c : isDigit c = true -> 0 <= digit_val c <= 9.
Proof.
  unfold isDigit, digit_val. intros H.
  apply andb_true_iff in H as [H1 H2]. apply Z.leb_le in H1, H2. lia.
Qed.

Lemma getnum_range s fixed v r :
  getnum s fixed = Some (v, r) -> 0 <= v <= 99.
Proof.
  unfold getnum. destruct s as [|c0 rest]; [discriminate|].
  destruct (isDigit c0) eqn:H0; [|discriminate].
  apply isDigit_val in H0.
  destruct rest as [|c1 rest'].
  - destruct fixed; [discriminate|]. intros E; inversion E; subst. lia.
  - destruct (isDigit c1) eqn:H1.
    + apply isDigit_val in H1. intros E; inversion E; subst. lia.
    + destruct fixed; [discriminate|]. intros E; inversion E; subst. lia.
Qed.

Lemma layout_fraction_range s : 0 <= fst (layout_fraction s) <= 999999999.
Proof.
  unfold layout_fraction.
  destruct s as [|sep [|c s']]; simpl; try lia.
  destruct (commaOrPeriod sep && isDigit c); simpl; [|lia].
  destruct (isDigit c); simpl.
  - destruct (span_digits s') as [ds r]. simpl. apply parseNanoseconds_range.
  - apply parseNanoseconds_range.
Qed.

Lemma layout_zone_range s off :
  layout_zone s = Some off -> off mod 60 = 0 /\ -90000 <= off <= 90000.
Proof.
  unfold layout_zone. destruct s as [|z rest]; [discriminate|].
  destruct (Ascii.eqb z "Z").
  { destruct rest; [|discriminate].
    intros E; inversion E; subst. split; [reflexivity | lia]. }
  destruct rest as [|h1 [|h2 [|c [|m1 [|m2 [|x r]]]]]]; try discriminate.
  destruct (Ascii.eqb c ":"); [|discriminate].
  destruct (getnum (String h1 (String h2 "")) true) as [[hr r1]|] eqn:Hh;
    [|discriminate].
  destruct (getnum (String m1 (String m2 "")) true) as [[mm r2]|] eqn:Hm;
    [|discriminate].
  apply getnum_range in Hh, Hm.
  destruct ((24 <? hr) || (60 <? mm)) eqn:Hr; [discriminate|].
  apply orb_false_elim in Hr as [Hr1 Hr2].
  apply Z.ltb_ge in Hr1, Hr2.
  destruct (Ascii.eqb z "+"); [|destruct (Ascii.eqb z "-"); [|discriminate]];
    intros E; inversion E; subst; clear E.
  - split; [apply Z.mod_mul; lia | lia].
  - split; [|lia].
    replace (- ((hr * 60 + mm) * 60)) with ((- (hr * 60 + mm)) * 60) by lia.
    apply Z.mod_mul; lia.
Qed.

Lemma option_bind_Some {A B} (o : option A) (k : A -> option B) b :
  option_bind o k = Some b -> exists a, o = Some a /\ k a = Some b.
Proof. destruct o as [a|]; simpl; [eauto | discriminate]. Qed.

Lemma parse_parsed_time s t : parse s = Some t -> parsed_time t.
Proof.
  unfold parse.
  destruct s as [|y1 [|y2 [|y3 [|y4 r]]]]; try discriminate.
  intros H.
  apply option_bind_Some in H as (yr & Hyr & H).
  apply option_bind_Some in H as (r1 & _ & H).
  apply option_bind_Some in H as ([mo r2] & Hmo & H).
  destruct ((mo <=? 0) || (12 <? mo)) eqn:Emo; [discriminate|].
  apply option_bind_Some in H as (r3 & _ & H).
  apply option_bind_Some in H as ([dy r4] & Hdy & H).
  apply option_bind_Some in H as (r5 & _ & H).
  apply option_bind_Some in H as ([hr r6] & Hhr & H).
  destruct (24 <=? hr) eqn:Ehr; [discriminate|].
  apply option_bind_Some in H as (r7 & _ & H).
  apply option_bind_Some in H as ([mi r8] & Hmi & H).
  destruct (60 <=? mi) eqn:Emi; [discriminate|].
  apply option_bind_Some in H as (r9 & _ & H).
  apply option_bind_Some in H as ([sc r10] & Hsc & H).
  destruct (60 <=? sc) eqn:Esc; [discriminate|].
  pose proof (layout_fraction_range r10) as Hns.
  destruct (layout_fraction r10) as [nsec r11]. simpl in Hns.
  apply option_bind_Some in H as (off & Hoff & H).
  destruct ((dy <? 1) || (daysIn mo yr <? dy)) eqn:Edy; [discriminate|].
  inversion H; subst; clear H.
  apply digits_value_bound in Hyr; [|lia].
  apply getnum_range in Hmo, Hdy, Hhr, Hmi, Hsc.
  apply layout_zone_range in Hoff as [Hz1 Hz2].
  apply orb_false_elim in Emo as [E1 E2]. apply orb_false_elim in Edy as [E3 E4].
  apply Z.leb_gt in E1, Ehr, Emi, Esc. apply Z.ltb_ge in E2, E3, E4.
  unfold parsed_time; simpl. simpl in Hyr.
  repeat split; lia.
Qed.

Lemma time_Parse_parsed_time s t : time_Parse s = Some t -> parsed_time t.
Proof.
  unfold time_Parse. destruct (parseRFC3339 s) as [t0|] eqn:Hs.
  - intros E; inversion E; subst.
    now apply representable_parsed_time, (parseRFC3339_representable s).
  - apply parse_parsed_time.
Qed.

(** X1.  Whatever [time.Parse] accepts - with the one-digit hours, the
    comma before the fraction and the zone offsets of 24 hours or 60
    minutes that its layout parser lets through - is a calendar time with a
    zone offset of whole minutes within 25 hours; when the offset is below
    a day, its RFC3339Nano text, as [encodeCursor] writes it, parses back
    to the same time. *)
Theorem time_Parse_canonical (s : string) (t : Time) :
  time_Parse s = Some t ->
  parsed_time t
  /\ (-86340 <= zoneOffset t <= 86340 -> time_Parse (Format t) = Some t).
Proof.
  intros H. apply time_Parse_parsed_time in H. split; [exact H|].
  intros Hz. apply time_Parse_Format.
  unfold parsed_time in H. unfold rfc3339_representable.
  repeat split; lia.
Qed.

Lemma time_Parse_canonical_witness :
  time_Parse "2025-01-15T1:00:00,50+02:00"
  = Some (mkTime 2025 1 15 1 0 0 500000000 7200)
  /\ Format (mkTime 2025 1 15 1 0 0 500000000 7200)
     = "2025-01-15T01:00:00.5+02:00"
  /\ time_Parse (Format (mkTime 2025 1 15 1 0 0 500000000 7200))
     = Some (mkTime 2025 1 15 1 0 0 500000000 7200).
Proof.
  split; [reflexivity|]. split; [reflexivity|].
  apply (time_Parse_canonical "2025-01-15T1:00:00,50+02:00").
  - reflexivity.
  - simpl. lia.
Defined.

(** The layout parser reads offsets the strict reader refuses, and the text
    [Format] writes for the widest of them is read by neither. *)
Example time_Parse_wide_zone :
  parseRFC3339 "2025-01-15T10:00:00+24:60" = None
  /\ time_Parse "2025-01-15T10:00:00+24:60"
     = Some (mkTime 2025 1 15 10 0 0 0 90000)
  /\ Format (mkTime 2025 1 15 10 0 0 0 90000) = "2025-01-15T10:00:00+25:00"
  /\ time_Parse "2025-01-15T10:00:00+25:00" = None.
Proof. repeat split; reflexivity. Qed.

(** ** Validation and conversion of events *)

Definition well_formed_event (e : TradeEvent.t) : Prop :=
  TradeEvent.TradeID e <> ""
  /\ TradeEvent.AccountID e <> ""
  /\ TradeEvent.Symbol e <> ""
  /\ (TradeEvent.Side e = "buy" \/ TradeEvent.Side e = "sell")
  /\ (0 < TradeEvent.Quantity e)%Q
  /\ (0 < TradeEvent.Price e)%Q
  /\ TradeEvent.FeeCurrency e <> ""
  /\ (TradeEvent.MarketType e = "spot" \/ TradeEvent.MarketType e = "futures")
  /\ exists ts, time_Parse (TradeEvent.Timestamp e) = Some ts.

Lemma negb_eqb_pair a x y :
  negb (String.eqb a x) && negb (String.eqb a y) = false <-> (a = x \/ a = y).
Proof.
  destruct (String.eqb_spec a x), (String.eqb_spec a y); simpl;
    split; intros; auto; try discriminate; tauto.
Qed.

Lemma Qle_bool_false_lt x : Qle_bool x 0 = false <-> (0 < x)%Q.
Proof. rewrite Qle_bool_false. split; intros; lra. Qed.

Lemma Validate_Ok_inv e : Validate e = Ok tt -> well_formed_event e.
Proof.
  unfold Validate, well_formed_event.
  destruct (String.eqb_spec (TradeEvent.TradeID e) "") as [E1|E1];
    [discriminate|].
  destruct (String.eqb_spec (TradeEvent.AccountID e) "") as [E2|E2];
    [discriminate|].
  destruct (String.eqb_spec (TradeEvent.Symbol e) "") as [E3|E3];
    [discriminate|].
  destruct (negb (String.eqb (TradeEvent.Side e) "buy")
            && negb (String.eqb (TradeEvent.Side e) "sell")) eqn:E4;
    [discriminate|].
  apply negb_eqb_pair in E4.
  destruct (Qle_bool (TradeEvent.Quantity e) 0) eqn:E5; [discriminate|].
  apply Qle_bool_false_lt in E5.
  destruct (Qle_bool (TradeEvent.Price e) 0) eqn:E6; [discriminate|].
  apply Qle_bool_false_lt in E6.
  destruct (String.eqb_spec (TradeEvent.FeeCurrency e) "") as [E7|E7];
    [discriminate|].
  destruct (String.eqb_spec (TradeEvent.Timestamp e) "") as [E8|E8];
    [discriminate|].
  destruct (negb (String.eqb (TradeEvent.MarketType e) "spot")
            && negb (String.eqb (TradeEvent.MarketType e) "futures")) eqn:E9;
    [discriminate|].
  apply negb_eqb_pair in E9.
  destruct (time_Parse (TradeEvent.Timestamp e)) as [ts|] eqn:E10;
    [|discriminate].
  intros _. repeat split; try assumption. eauto.
Qed.

(** X2.  [Validate] accepts exactly the events with the required fields, a side
    and market type of the two allowed values, positive quantity and price,
    and a timestamp [time.Parse] reads; the fee is not looked at. *)
Theorem Validate_accepts_iff (e : TradeEvent.t) :
  Validate e = Ok tt <-> well_formed_event e.
Proof.
  unfold Validate, well_formed_event.
  destruct (String.eqb_spec (TradeEvent.TradeID e) "") as [E1|E1];
    [split; [discriminate | tauto]|].
  destruct (String.eqb_spec (TradeEvent.AccountID e) "") as [E2|E2];
    [split; [discriminate | tauto]|].
  destruct (String.eqb_spec (TradeEvent.Symbol e) "") as [E3|E3];
    [split; [discriminate | tauto]|].
  destruct (negb (String.eqb (TradeEvent.Side e) "buy")
            && negb (String.eqb (TradeEvent.Side e) "sell")) eqn:E4.
  { split; [discriminate|]. intros (_ & _ & _ & H & _).
    apply negb_eqb_pair in H. congruence. }
  apply negb_eqb_pair in E4.
  destruct (Qle_bool (TradeEvent.Quantity e) 0) eqn:E5.
  { split; [discriminate|]. intros (_ & _ & _ & _ & H & _).
    apply Qle_bool_iff in E5. lra. }
  apply Qle_bool_false_lt in E5.
  destruct (Qle_bool (TradeEvent.Price e) 0) eqn:E6.
  { split; [discriminate|]. intros (_ & _ & _ & _ & _ & H & _).
    apply Qle_bool_iff in E6. lra. }
  apply Qle_bool_false_lt in E6.
  destruct (String.eqb_spec (TradeEvent.FeeCurrency e) "") as [E7|E7];
    [split; [discriminate | tauto]|].
  destruct (String.eqb_spec (TradeEvent.Timestamp e) "") as [E8|E8].
  { split; [discriminate|]. intros (_ & _ & _ & _ & _ & _ & _ & _ & ts & H).
    rewrite E8 in H. discriminate H. }
  destruct (negb (String.eqb (TradeEvent.MarketType e) "spot")
            && negb (String.eqb (TradeEvent.MarketType e) "futures")) eqn:E9.
  { split; [discriminate|]. intros (_ & _ & _ & _ & _ & _ & _ & H & _).
    apply negb_eqb_pair in H. congruence. }
  apply negb_eqb_pair in E9.
  destruct (time_Parse (TradeEvent.Timestamp e)) as [ts|] eqn:E10.
  - split; [|reflexivity]. intros _. repeat split; try assumption. eauto.
  - split; [discriminate|]. intros (_ & _ & _ & _ & _ & _ & _ & _ & ts & H).
    discriminate H.
Qed.

(** [Validate] lets through what the layout parser reads: an hour of one
    digit, a comma before the fraction, a zone offset of 24 hours. *)
Example Validate_lenient_timestamps :
  Validate (TradeEvent.mk "t-1" "live" "BTC-USD" "buy" 1 100 0 "USD" "spot"
              "2025-01-15T1:00:00Z" None None None None) = Ok tt
  /\ Validate (TradeEvent.mk "t-1" "live" "BTC-USD" "buy" 1 100 0 "USD" "spot"
                 "2025-01-15T10:00:00,5Z" None None None None) = Ok tt
  /\ Validate (TradeEvent.mk "t-1" "live" "BTC-USD" "buy" 1 100 0 "USD" "spot"
                 "2025-01-15T10:00:00+24:00" None None None None) = Ok tt
  /\ Validate (TradeEvent.mk "t-1" "live" "BTC-USD" "buy" 1 100 0 "USD" "spot"
                 "2025-01-15 10:00:00Z" None None None None)
     = Err "invalid timestamp".
Proof. repeat split; reflexivity. Qed.

(** X3.  A validated event always converts: [ToDomain] cannot fail after
    [Validate], the trade carries the event's id, account, symbol, quantity,
    price and fee, its side and market type are the ones named, its
    timestamp is the time [time.Parse] reads from the event's text, a buy
    is stamped with cost basis q * p + f and a sell is left unstamped. *)
Theorem ToDomain_of_valid (e : TradeEvent.t) (now : Time) :
  Validate e = Ok tt ->
  exists trade,
    ToDomain e now = Ok trade
    /\ Trade.TradeID trade = TradeEvent.TradeID e
    /\ Trade.AccountID trade = TradeEvent.AccountID e
    /\ Trade.Symbol trade = TradeEvent.Symbol e
    /\ Side_to_string (Trade.Side trade) = TradeEvent.Side e
    /\ MarketType_to_string (Trade.MarketType trade) = TradeEvent.MarketType e
    /\ Trade.Quantity trade = TradeEvent.Quantity e
    /\ Trade.Price trade = TradeEvent.Price e
    /\ Trade.Fee trade = TradeEvent.Fee e
    /\ (0 < Trade.Quantity trade)%Q /\ (0 < Trade.Price trade)%Q
    /\ time_Parse (TradeEvent.Timestamp e) = Some (Trade.Timestamp trade)
    /\ Trade.IngestedAt trade = now
    /\ Trade.RealizedPnL trade = 0%Q
    /\ Trade.CostBasis trade
       = match Trade.Side trade with
         | SideBuy => (Trade.Quantity trade * Trade.Price trade + Trade.Fee trade)%Q
         | SideSell => 0%Q
         end.
Proof.
  intros Hv. apply Validate_Ok_inv in Hv.
  destruct Hv as (_ & _ & _ & Hside & Hq & Hp & _ & Hmt & ts & Hts).
  unfold ToDomain. rewrite Hts. eexists. split; [reflexivity|]. simpl.
  do 3 (split; [reflexivity|]).
  split; [unfold Side_of_string; destruct Hside as [-> | ->]; reflexivity|].
  split; [unfold MarketType_of_string; destruct Hmt as [-> | ->]; reflexivity|].
  do 3 (split; [reflexivity|]).
  split; [exact Hq|]. split; [exact Hp|]. split; [reflexivity|].
  repeat split.
Qed.

Lemma ToDomain_of_valid_witness :
  exists trade,
    ToDomain rx_sell t_11h = Ok trade
    /\ Trade.TradeID trade = "r-2"
    /\ Trade.Side trade = SideSell
    /\ Trade.CostBasis trade = 0%Q.
Proof.
  destruct (ToDomain_of_valid rx_sell t_11h eq_refl)
    as (trade & H & Hid & _ & _ & _ & _ & _ & _ & _ & _ & _ & _ & _ & _ & Hcb).
  exists trade. split; [exact H|]. split; [exact Hid|].
  vm_compute in H. injection H as <-. split; reflexivity.
Defined.

(** ** Lifting a property of the store operations to every reachable ledger *)

Section Lifting.
Variable I : Store -> Prop.
Variable T : Trade.t -> Prop.
Hypothesis T_ToDomain : forall e now t, ToDomain e now = Ok t -> T t.
Hypothesis T_stamp : forall s t, T t -> T (stamp_cost_basis s t).
Hypothesis I_account :
  forall s id ty now, I s -> I (snd (GetOrCreateAccount s id ty now)).
Hypothesis I_ingest :
  forall s t, T t -> I s -> I (snd (InsertTradeAndUpdatePosition s t)).
Hypothesis I_rebuild : forall s a, I s -> I (snd (RebuildPositions s a)).

Lemma handleMessage_lift s payload now :
  I s -> I (snd (handleMessage s payload now)).
Proof.
  intros Hi. unfold handleMessage.
  destruct payload as [event|]; [|exact Hi].
  destruct (Validate event); [|exact Hi].
  destruct (ToDomain event now) as [trade|] eqn:Htd; [|exact Hi].
  pose proof (I_account s (Trade.AccountID trade)
                (InferAccountType (TradeEvent.AccountID event)) now Hi) as H1.
  destruct (GetOrCreateAccount _ _ _ _) as [[acct|e] s1]; simpl in *;
    [|exact H1].
  pose proof (I_ingest s1 (stamp_cost_basis s1 trade)
                (T_stamp _ _ (T_ToDomain _ _ _ Htd)) H1) as H2.
  destruct (InsertTradeAndUpdatePosition _ _) as [[b|e] s2]; exact H2.
Qed.

Lemma import_event_lift now st e :
  I (st_store st) -> I (st_store (import_event now st e)).
Proof.
  intros Hi. unfold import_event.
  destruct (ToDomain e now) as [trade|] eqn:Htd; [|exact Hi].
  pose proof (I_account (st_store st) (Trade.AccountID trade)
                (InferAccountType (TradeEvent.AccountID e)) now Hi) as H1.
  destruct (GetOrCreateAccount _ _ _ _) as [[acct|msg] s1]; simpl in *;
    [|exact H1].
  pose proof (I_ingest s1 (stamp_cost_basis s1 trade)
                (T_stamp _ _ (T_ToDomain _ _ _ Htd)) H1) as H2.
  destruct (InsertTradeAndUpdatePosition _ _) as [[[|]|msg] s2]; exact H2.
Qed.

Lemma import_loop_lift clock evs : forall i st,
  I (st_store st) -> I (st_store (import_loop clock i st evs)).
Proof.
  induction evs as [|e es IH]; intros i st H; simpl; [exact H|].
  apply IH. now apply import_event_lift.
Qed.

Lemma rebuild_all_lift ids : forall s, I s -> I (rebuild_all s ids).
Proof.
  unfold rebuild_all.
  induction ids as [|a ids IH]; intros s H; simpl; [exact H|].
  apply IH. now apply I_rebuild.
Qed.

Lemma handleImportTrades_lift sort_Slice range_order clock s body :
  I s -> I (snd (handleImportTrades sort_Slice range_order clock s body)).
Proof.
  intros Hi. unfold handleImportTrades.
  destruct body as [evs|]; [|exact Hi].
  destruct (List.length evs =? 0)%nat; [exact Hi|].
  destruct (1000 <? List.length evs)%nat; [exact Hi|].
  destruct (first_invalid 0 evs) as [[[i e] msg]|]; [exact Hi|].
  simpl. apply rebuild_all_lift. now apply import_loop_lift.
Qed.

Lemma run_operation_lift s op : I s -> I (run_operation s op).
Proof.
  destruct op; simpl.
  - apply handleMessage_lift.
  - apply handleImportTrades_lift.
  - apply I_rebuild.
Qed.

Lemma fold_operations_lift ops : forall s,
  I s -> I (fold_left run_operation ops s).
Proof.
  induction ops as [|op ops IH]; intros s Hi; simpl; [exact Hi|].
  apply IH. now apply run_operation_lift.
Qed.
End Lifting.

(** ** Frames of the store operations *)

Lemma GetOrCreateAccount_frame s id ty now :
  trades (snd (GetOrCreateAccount s id ty now)) = trades s
  /\ positions (snd (GetOrCreateAccount s id ty now)) = positions s
  /\ exists new, accounts (snd (GetOrCreateAccount s id ty now))
                 = (accounts s ++ new)%list.
Proof.
  unfold GetOrCreateAccount. destruct (find _ _); simpl.
  - repeat split. exists []. now rewrite app_nil_r.
  - repeat split. eauto.
Qed.

Lemma InsertTradeAndUpdatePosition_frame s t :
  accounts (snd (InsertTradeAndUpdatePosition s t)) = accounts s
  /\ (trades (snd (InsertTradeAndUpdatePosition s t)) = trades s
      \/ trades (snd (InsertTradeAndUpdatePosition s t)) = (trades s ++ [t])%list).
Proof.
  unfold InsertTradeAndUpdatePosition, InsertTrade.
  destruct (negb (int4_fits _)); [simpl; auto|].
  destruct (trade_exists s _); [simpl; auto|].
  destruct (negb _); [simpl; auto|].
  destruct (UpsertPosition _ t) as [tx'|e] eqn:Hup; simpl; [|auto].
  apply UpsertPosition_frame in Hup as [Ha Ht]. simpl in *. auto.
Qed.

Lemma replay_log ts : forall tx tx',
  replay tx ts = Ok tx' -> accounts tx' = accounts tx /\ trades tx' = trades tx.
Proof.
  induction ts as [|t ts IH]; intros tx tx' Hr; simpl in Hr.
  - inversion Hr; subst; auto.
  - destruct (UpsertPosition tx t) as [tx1|e] eqn:Hup; [|discriminate].
    destruct (IH _ _ Hr) as [H1 H2].
    destruct (UpsertPosition_frame _ _ _ Hup) as [H3 H4].
    split; congruence.
Qed.

Lemma RebuildPositions_log s a :
  accounts (snd (RebuildPositions s a)) = accounts s
  /\ trades (snd (RebuildPositions s a)) = trades s.
Proof.
  unfold RebuildPositions.
  destruct (replay _ _) as [tx'|e] eqn:Hr; simpl; [|auto].
  apply replay_log in Hr. exact Hr.
Qed.

(** ** The trade log only grows *)

Definition log_extends (s0 s : Store) : Prop :=
  (exists new, trades s = (trades s0 ++ new)%list)
  /\ (exists new, accounts s = (accounts s0 ++ new)%list).

(** X4.  No operation - stream ingestion, import, rebuild - removes, reorders or
    rewrites a trade row or an account row: the tables after any sequence
    of operations are the tables before it with rows appended. *)
Theorem trade_log_append_only (ops : list operation) (s : Store) :
  log_extends s (fold_left run_operation ops s).
Proof.
  apply (fold_operations_lift (log_extends s) (fun _ => True)).
  - auto.
  - auto.
  - intros s1 id ty now [[nt Ht] [na Ha]].
    destruct (GetOrCreateAccount_frame s1 id ty now) as (Ht' & _ & new & Ha').
    split.
    + exists nt. congruence.
    + exists (na ++ new)%list. rewrite Ha', Ha. now rewrite app_assoc.
  - intros s1 t _ [[nt Ht] [na Ha]].
    destruct (InsertTradeAndUpdatePosition_frame s1 t) as (Ha' & [Ht' | Ht']).
    + split; [exists nt | exists na]; congruence.
    + split; [exists (nt ++ [t])%list | exists na]; try congruence.
      rewrite Ht', Ht. now rewrite app_assoc.
  - intros s1 a [[nt Ht] [na Ha]].
    destruct (RebuildPositions_log s1 a) as [Ha' Ht'].
    split; [exists nt | exists na]; congruence.
  - split; exists []; now rewrite app_nil_r.
Qed.

(** ** Constraints and shapes that hold in every reachable ledger *)

Lemma update_position_Forall_keep (P : Position.t -> Prop) s id f :
  (forall p, P p -> P (f p)) ->
  Forall P (positions s) -> Forall P (positions (update_position s id f)).
Proof.
  intros Hf Hall. unfold update_position; simpl.
  apply Forall_forall. intros x Hx. apply in_map_iff in Hx as (p & <- & Hp).
  rewrite Forall_forall in Hall.
  destruct (String.eqb _ _); [apply Hf|]; now apply Hall.
Qed.

Definition spot_is_long (p : Position.t) : Prop :=
  Position.MarketType p = MarketTypeSpot -> Position.Side p = PositionSideLong.

Lemma UpsertPosition_spot_is_long tx t tx' :
  UpsertPosition tx t = Ok tx' ->
  Forall spot_is_long (positions tx) -> Forall spot_is_long (positions tx').
Proof.
  unfold UpsertPosition, upsertSpotPosition, upsertFuturesPosition.
  destruct (Trade.MarketType t);
    destruct (query_open_position _ _ _ _) as [pos|].
  - destruct (Trade.Side t); [|destruct (Qle_bool _ _)];
      intros H; inversion H; subst;
      apply update_position_Forall_keep; auto.
  - destruct (Trade.Side t).
    + intros H Hall. apply insert_position_frame in H as (_ & _ & ->).
      apply Forall_app. split; [exact Hall|]. repeat constructor.
    + intros H; inversion H; subst; auto.
  - destruct (negb _);
      [destruct (negb (int4_fits _)); [intros; discriminate|]
      |destruct (Qle_bool _ _)];
      intros H; inversion H; subst;
      apply update_position_Forall_keep; auto.
  - intros H Hall. apply insert_position_frame in H as (_ & _ & ->).
    apply Forall_app. split; [exact Hall|].
    constructor; [|constructor]. intros Hm. discriminate Hm.
Qed.

Lemma replay_Forall (P : Position.t -> Prop) :
  (forall tx t tx', UpsertPosition tx t = Ok tx' ->
                    Forall P (positions tx) -> Forall P (positions tx')) ->
  forall ts tx tx', replay tx ts = Ok tx' ->
                    Forall P (positions tx) -> Forall P (positions tx').
Proof.
  intros Hstep. induction ts as [|t ts IH]; intros tx tx' Hr Hall; simpl in Hr.
  - inversion Hr; subst; exact Hall.
  - destruct (UpsertPosition tx t) as [tx1|e] eqn:Hup; [|discriminate].
    eapply IH; [exact Hr|]. eapply Hstep; eauto.
Qed.

Lemma ingest_Forall (P : Position.t -> Prop) :
  (forall tx t tx', UpsertPosition tx t = Ok tx' ->
                    Forall P (positions tx) -> Forall P (positions tx')) ->
  forall s t, Forall P (positions s) ->
              Forall P (positions (snd (InsertTradeAndUpdatePosition s t))).
Proof.
  intros Hstep s t Hall. unfold InsertTradeAndUpdatePosition, InsertTrade.
  destruct (negb (int4_fits _)); [exact Hall|].
  destruct (trade_exists s _); [exact Hall|].
  destruct (negb _); [exact Hall|].
  destruct (UpsertPosition _ t) as [tx'|e] eqn:Hup; simpl; [|exact Hall].
  eapply Hstep; [exact Hup|]. exact Hall.
Qed.

Lemma rebuild_Forall (P : Position.t -> Prop) :
  (forall tx t tx', UpsertPosition tx t = Ok tx' ->
                    Forall P (positions tx) -> Forall P (positions tx')) ->
  forall s a, Forall P (positions s) ->
              Forall P (positions (snd (RebuildPositions s a))).
Proof.
  intros Hstep s a Hall. unfold RebuildPositions.
  destruct (replay _ _) as [tx'|e] eqn:Hr; simpl; [|exact Hall].
  eapply replay_Forall; [exact Hstep | exact Hr |].
  unfold delete_positions; simpl.
  apply Forall_forall. intros p Hp. apply filter_In in Hp as [Hp _].
  rewrite Forall_forall in Hall. now apply Hall.
Qed.

(** X5.  Spot is long-only in the code: whatever is ingested, imported or
    rebuilt, no spot position row - open or closed - ever has side short;
    a spot sell never opens a position. *)
Theorem spot_positions_always_long (ops : list operation) (p : Position.t) :
  In p (positions (run ops)) ->
  Position.MarketType p = MarketTypeSpot ->
  Position.Side p = PositionSideLong.
Proof.
  assert (H : Forall spot_is_long (positions (run ops))).
  { apply (fold_operations_lift
             (fun s => Forall spot_is_long (positions s)) (fun _ => True)).
    - auto.
    - auto.
    - intros s id ty now Hall.
      destruct (GetOrCreateAccount_frame s id ty now) as (_ & -> & _).
      exact Hall.
    - intros s t _. apply ingest_Forall. exact UpsertPosition_spot_is_long.
    - apply rebuild_Forall. exact UpsertPosition_spot_is_long.
    - constructor. }
  rewrite Forall_forall in H. intros Hin. now apply H.
Qed.

Lemma spot_positions_always_long_witness :
  exists p,
    positions (run rx_in_order) = [p]
    /\ Position.Status p = PositionStatusClosed
    /\ Position.Side p = PositionSideLong.
Proof.
  eexists. split; [vm_compute; reflexivity|]. split; [reflexivity|].
  apply (spot_positions_always_long rx_in_order).
  - vm_compute. left. reflexivity.
  - reflexivity.
Defined.

Lemma stamp_cost_basis_fields s t :
  Trade.TradeID (stamp_cost_basis s t) = Trade.TradeID t
  /\ Trade.AccountID (stamp_cost_basis s t) = Trade.AccountID t
  /\ Trade.Timestamp (stamp_cost_basis s t) = Trade.Timestamp t.
Proof.
  unfold stamp_cost_basis, CostBasisForTrade.
  destruct (Trade.Side t); repeat split.
Qed.

(** Every logged timestamp went through [time.Parse]. *)
Definition log_times_parsed (s : Store) : Prop :=
  Forall (fun t => parsed_time (Trade.Timestamp t)) (trades s).

Lemma run_log_times_parsed ops : log_times_parsed (run ops).
Proof.
  apply (fold_operations_lift log_times_parsed
           (fun t => parsed_time (Trade.Timestamp t))).
  - intros e now t H. unfold ToDomain in H.
    destruct (time_Parse _) as [ts|] eqn:Hts; [|discriminate].
    inversion H; subst; simpl. now apply time_Parse_parsed_time in Hts.
  - intros s t H. destruct (stamp_cost_basis_fields s t) as (_ & _ & ->).
    exact H.
  - intros s id ty now H. unfold log_times_parsed.
    destruct (GetOrCreateAccount_frame s id ty now) as (-> & _). exact H.
  - intros s t Ht H. unfold log_times_parsed.
    destruct (InsertTradeAndUpdatePosition_frame s t) as (_ & [-> | ->]);
      [exact H|].
    apply Forall_app. split; [exact H | constructor; [exact Ht | constructor]].
  - intros s a H. unfold log_times_parsed.
    destruct (RebuildPositions_log s a) as [_ ->]. exact H.
  - constructor.
Qed.

(** The zone offsets of the logged times stay below a day, as those of the
    times the database hands back do. *)
Definition log_zones_below_a_day (s : Store) : Prop :=
  Forall (fun t => -86340 <= zoneOffset (Trade.Timestamp t) <= 86340)
         (trades s).

(** ** What stream ingestion never does to position rows *)

Definition is_ingest (op : operation) : Prop :=
  match op with OpIngest _ _ => True | _ => False end.

Lemma update_position_keeps_other s pos f p :
  pk_unique s -> In pos (positions s) -> In p (positions s) -> p <> pos ->
  In p (positions (update_position s (Position.ID pos) f)).
Proof.
  intros Hpk Hpos Hp Hne. unfold update_position; simpl.
  apply in_map_iff. exists p. split; [|exact Hp].
  destruct (String.eqb_spec (Position.ID p) (Position.ID pos)) as [Heq|];
    [|reflexivity].
  exfalso. apply Hne. now apply (pk_unique_row _ _ _ Hpk Hpos Hp).
Qed.

Lemma UpsertPosition_keeps_closed tx t tx' p :
  UpsertPosition tx t = Ok tx' -> pk_unique tx ->
  In p (positions tx) -> Position.Status p = PositionStatusClosed ->
  In p (positions tx').
Proof.
  intros Hup Hpk Hp Hcl. revert Hup.
  unfold UpsertPosition, upsertSpotPosition, upsertFuturesPosition.
  assert (Hne : forall pos acct sym mt,
            query_open_position tx acct sym mt = Some pos ->
            In pos (positions tx) /\ p <> pos).
  { intros pos acct sym mt Hq.
    destruct (query_open_position_In _ _ _ _ _ Hq) as [Hin Hopen].
    split; [exact Hin|]. intros ->.
    apply open_at_inv in Hopen as (_ & _ & _ & Hst). congruence. }
  destruct (Trade.MarketType t);
    destruct (query_open_position _ _ _ _) as [pos|] eqn:Hq;
    try (destruct (Hne _ _ _ _ Hq) as [Hin Hdiff]).
  - destruct (Trade.Side t); [|destruct (Qle_bool _ _)];
      intros H; inversion H; subst;
      now apply update_position_keeps_other.
  - destruct (Trade.Side t).
    + intros H. apply insert_position_frame in H as (_ & _ & ->).
      apply in_or_app. now left.
    + intros H; inversion H; subst; exact Hp.
  - destruct (negb _);
      [destruct (negb (int4_fits _)); [intros; discriminate|]
      |destruct (Qle_bool _ _)];
      intros H; inversion H; subst;
      now apply update_position_keeps_other.
  - intros H. apply insert_position_frame in H as (_ & _ & ->).
    apply in_or_app. now left.
Qed.

Lemma handleMessage_keeps_closed s payload now p :
  store_wf s -> In p (positions s) ->
  Position.Status p = PositionStatusClosed ->
  In p (positions (snd (handleMessage s payload now))).
Proof.
  intros Hwf Hp Hcl. unfold handleMessage.
  destruct payload as [event|]; [|exact Hp].
  destruct (Validate event); [|exact Hp].
  destruct (ToDomain event now) as [trade|]; [|exact Hp].
  pose proof (GetOrCreateAccount_wf s (Trade.AccountID trade)
                (InferAccountType (TradeEvent.AccountID event)) now Hwf) as Hwf1.
  destruct (GetOrCreateAccount_frame s (Trade.AccountID trade)
              (InferAccountType (TradeEvent.AccountID event)) now)
    as (_ & Hpos & _).
  destruct (GetOrCreateAccount _ _ _ _) as [[acct|e] s1]; simpl in *;
    [|now rewrite Hpos].
  rewrite <- Hpos in Hp.
  set (tr := stamp_cost_basis s1 trade).
  assert (H : In p (positions (snd (InsertTradeAndUpdatePosition s1 tr)))).
  { unfold InsertTradeAndUpdatePosition, InsertTrade.
    destruct (negb (int4_fits _)); [exact Hp|].
    destruct (trade_exists s1 _); [exact Hp|].
    destruct (negb _); [exact Hp|].
    destruct (UpsertPosition _ tr) as [tx'|e] eqn:Hup; simpl; [|exact Hp].
    eapply UpsertPosition_keeps_closed; [exact Hup | apply Hwf1 | exact Hp | exact Hcl]. }
  destruct (InsertTradeAndUpdatePosition s1 tr) as [[b|e] s2]; exact H.
Qed.

(** X7.  A closed position is final under stream ingestion: in a reachable
    ledger, no later message - whatever its content - changes or removes a
    closed row; it is never reopened. *)
Theorem closed_positions_are_final (ops more : list operation) (p : Position.t) :
  Forall is_ingest more ->
  In p (positions (run ops)) ->
  Position.Status p = PositionStatusClosed ->
  In p (positions (fold_left run_operation more (run ops))).
Proof.
  intros Hall. pose proof (run_wf ops) as Hwf. revert Hwf.
  generalize (run ops) as s.
  induction Hall as [|op more Hop Hmore IH]; intros s Hwf Hp Hcl; simpl;
    [exact Hp|].
  destruct op as [payload now| |]; try contradiction. simpl.
  apply IH; [now apply handleMessage_wf | | exact Hcl].
  now apply handleMessage_keeps_closed.
Qed.

(** A later buy and sell for the key of the closed row: they open and close
    a second row. *)
Definition rx_later_buy : TradeEvent.t :=
  TradeEvent.mk "r-4" "live" "BTC-USD" "buy" 1 120 0 "USD" "spot"
                "2025-01-15T11:00:00Z" None None None None.
Definition rx_later_sell : TradeEvent.t :=
  TradeEvent.mk "r-5" "live" "BTC-USD" "sell" 1 130 0 "USD" "spot"
                "2025-01-15T12:00:00Z" None None None None.

Definition rx_later : list operation :=
  [OpIngest (Some rx_later_buy) t_11h; OpIngest (Some rx_later_sell) t_11h].

Lemma closed_positions_are_final_witness :
  exists p,
    positions (run rx_in_order) = [p]
    /\ Position.Status p = PositionStatusClosed
    /\ map Trade.TradeID (trades (fold_left run_operation rx_later
                                            (run rx_in_order)))
       = ["r-1"; "r-2"; "r-4"; "r-5"]
    /\ map Position.ID (positions (fold_left run_operation rx_later
                                             (run rx_in_order)))
       = ["live-BTC-USD-spot-1736935200"; "live-BTC-USD-spot-1736938800"]
    /\ In p (positions (fold_left run_operation rx_later (run rx_in_order))).
Proof.
  eexists. split; [vm_compute; reflexivity|]. split; [reflexivity|].
  split; [vm_compute; reflexivity|]. split; [vm_compute; reflexivity|].
  apply (closed_positions_are_final rx_in_order).
  - repeat constructor.
  - vm_compute. left. reflexivity.
  - reflexivity.
Defined.

(** ** Accounts do not interfere *)

Definition of_account (a : string) (p : Position.t) : bool :=
  String.eqb (Position.AccountID p) a.

Lemma filter_of_account_other a b l l' :
  a <> b ->
  filter (other_account b) l' = filter (other_account b) l ->
  filter (of_account a) l' = filter (of_account a) l.
Proof.
  intros Hab Heq.
  assert (H : forall l0, filter (of_account a) (filter (other_account b) l0)
                         = filter (of_account a) l0).
  { induction l0 as [|x l0 IH]; simpl; [reflexivity|].
    unfold other_account at 1, of_account at 2.
    destruct (String.eqb_spec (Position.AccountID x) b) as [Eb|Eb]; simpl.
    - destruct (String.eqb_spec (Position.AccountID x) a) as [Ea|Ea];
        [congruence | exact IH].
    - unfold of_account at 1.
      destruct (String.eqb (Position.AccountID x) a); now rewrite IH. }
  rewrite <- (H l'), <- (H l). now rewrite Heq.
Qed.

Lemma handleMessage_other_accounts s e now :
  store_wf s ->
  filter (other_account (TradeEvent.AccountID e))
         (positions (snd (handleMessage s (Some e) now)))
  = filter (other_account (TradeEvent.AccountID e)) (positions s).
Proof.
  intros Hwf. unfold handleMessage.
  destruct (Validate e); [|reflexivity].
  destruct (ToDomain e now) as [trade|] eqn:Htd; [|reflexivity].
  assert (Hacc : Trade.AccountID trade = TradeEvent.AccountID e).
  { unfold ToDomain in Htd. destruct (time_Parse _); [|discriminate].
    inversion Htd; reflexivity. }
  pose proof (GetOrCreateAccount_wf s (Trade.AccountID trade)
                (InferAccountType (TradeEvent.AccountID e)) now Hwf) as Hwf1.
  destruct (GetOrCreateAccount_frame s (Trade.AccountID trade)
              (InferAccountType (TradeEvent.AccountID e)) now)
    as (_ & Hpos & _).
  destruct (GetOrCreateAccount _ _ _ _) as [[acct|msg] s1]; simpl in *;
    [|now rewrite Hpos].
  rewrite <- Hpos.
  set (tr := stamp_cost_basis s1 trade).
  assert (Htr : Trade.AccountID tr = TradeEvent.AccountID e).
  { unfold tr. destruct (stamp_cost_basis_fields s1 trade) as (_ & -> & _).
    exact Hacc. }
  assert (H : filter (other_account (TradeEvent.AccountID e))
                     (positions (snd (InsertTradeAndUpdatePosition s1 tr)))
              = filter (other_account (TradeEvent.AccountID e)) (positions s1)).
  { unfold InsertTradeAndUpdatePosition, InsertTrade.
    destruct (negb (int4_fits _)); [reflexivity|].
    destruct (trade_exists s1 _); [reflexivity|].
    destruct (negb _); [reflexivity|].
    destruct (UpsertPosition _ tr) as [tx'|msg] eqn:Hup; simpl; [|reflexivity].
    rewrite <- Htr.
    apply (UpsertPosition_other_accounts _ _ _ Hup). apply Hwf1. }
  destruct (InsertTradeAndUpdatePosition s1 tr) as [[b|msg] s2]; exact H.
Qed.

Lemma RebuildPositions_other_accounts s b :
  store_wf s ->
  filter (other_account b) (positions (snd (RebuildPositions s b)))
  = filter (other_account b) (positions s).
Proof.
  intros [Hlog Hpk]. unfold RebuildPositions.
  destruct (replay _ _) as [tx'|e] eqn:Hr; simpl; [|reflexivity].
  destruct (replay_frame _ _ _ b Hr) as (_ & _ & Hoth).
  - now apply delete_positions_pk.
  - intros t Hin. change (TradesForRebuild (delete_positions s b) b)
      with (TradesForRebuild s b) in Hin.
    now apply TradesForRebuild_In in Hin.
  - rewrite Hoth. unfold delete_positions; simpl.
    fold (other_account b). apply filter_idem.
Qed.

(** X8.  Cross-account isolation: in a reachable ledger, a message for account
    [b] and a rebuild of account [b] leave the position rows of every other
    account [a] exactly as they are, even for the same symbol. *)
Theorem accounts_are_isolated (ops : list operation) (a : string)
  (e : TradeEvent.t) (now : Time) (b : string) :
  a <> TradeEvent.AccountID e -> a <> b ->
  filter (of_account a) (positions (snd (handleMessage (run ops) (Some e) now)))
  = filter (of_account a) (positions (run ops))
  /\ filter (of_account a) (positions (snd (RebuildPositions (run ops) b)))
     = filter (of_account a) (positions (run ops)).
Proof.
  intros He Hb. pose proof (run_wf ops) as Hwf. split.
  - apply (filter_of_account_other a (TradeEvent.AccountID e)); [exact He|].
    now apply handleMessage_other_accounts.
  - apply (filter_of_account_other a b); [exact Hb|].
    now apply RebuildPositions_other_accounts.
Qed.

Definition paper_buy : TradeEvent.t :=
  TradeEvent.mk "p-1" "paper" "BTC-USD" "buy" 1 100 0 "USD" "spot"
                "2025-01-15T10:00:00Z" None None None None.

Lemma accounts_are_isolated_witness :
  filter (of_account "live")
         (positions (snd (handleMessage (run rx_in_order) (Some paper_buy) t_11h)))
  = filter (of_account "live") (positions (run rx_in_order))
  /\ filter (of_account "live")
            (positions (snd (RebuildPositions (run rx_in_order) "paper")))
     = filter (of_account "live") (positions (run rx_in_order)).
Proof.
  apply (accounts_are_isolated rx_in_order "live" paper_buy t_11h "paper");
    discriminate.
Defined.

(** ** The shape of position rows *)


Lemma first_invalid_None_Forall evs : forall i,
  first_invalid i evs = None -> Forall (fun e => Validate e = Ok tt) evs.
Proof.
  induction evs as [|e es IH]; intros i H; simpl in H; [constructor|].
  destruct (Validate e) as [[]|msg] eqn:Hv; [|discriminate].
  constructor; [exact Hv|]. now apply (IH (S i)).
Qed.

Section ValidLifting.
Variable I : Store -> Prop.
Variable T : Trade.t -> Prop.
Hypothesis T_valid :
  forall e now t, Validate e = Ok tt -> ToDomain e now = Ok t -> T t.
Hypothesis T_stamp : forall s t, T t -> T (stamp_cost_basis s t).
Hypothesis I_account :
  forall s id ty now, I s -> I (snd (GetOrCreateAccount s id ty now)).
Hypothesis I_ingest :
  forall s t, T t -> I s -> I (snd (InsertTradeAndUpdatePosition s t)).
Hypothesis I_rebuild : forall s a, I s -> I (snd (RebuildPositions s a)).






End ValidLifting.















(** ** Cost-basis stamping is record keeping *)

Lemma with_cost_basis_irrelevant s t cb rp :
  fst (InsertTradeAndUpdatePosition s (with_cost_basis t cb rp))
  = fst (InsertTradeAndUpdatePosition s t)
  /\ positions (snd (InsertTradeAndUpdatePosition s (with_cost_basis t cb rp)))
     = positions (snd (InsertTradeAndUpdatePosition s t))
  /\ accounts (snd (InsertTradeAndUpdatePosition s (with_cost_basis t cb rp)))
     = accounts (snd (InsertTradeAndUpdatePosition s t))
  /\ map Trade.TradeID
         (trades (snd (InsertTradeAndUpdatePosition s (with_cost_basis t cb rp))))
     = map Trade.TradeID (trades (snd (InsertTradeAndUpdatePosition s t))).
Proof.
  unfold InsertTradeAndUpdatePosition, InsertTrade.
  change (Trade.TradeID (with_cost_basis t cb rp)) with (Trade.TradeID t).
  change (Trade.AccountID (with_cost_basis t cb rp)) with (Trade.AccountID t).
  change (Trade.Leverage (with_cost_basis t cb rp)) with (Trade.Leverage t).
  destruct (negb (int4_fits _)); [repeat split|].
  destruct (trade_exists s _); [repeat split|].
  destruct (negb _); [repeat split|].
  change (mkStore (accounts s) (trades s ++ [with_cost_basis t cb rp])
                  (positions s))
    with (with_trades (trades s ++ [with_cost_basis t cb rp])%list s).
  change (mkStore (accounts s) (trades s ++ [t]) (positions s))
    with (with_trades (trades s ++ [t])%list s).
  rewrite !UpsertPosition_with_trades.
  change (UpsertPosition s (with_cost_basis t cb rp)) with (UpsertPosition s t).
  destruct (UpsertPosition s t) as [tx'|e]; simpl; [|repeat split].
  split; [reflexivity|]. split; [reflexivity|]. split; [reflexivity|].
  rewrite !map_app. reflexivity.
Qed.

(** X10.  The cost basis and realized P&L stamped on a trade are record keeping
    only: whatever store the average entry price is read from, ingesting the
    stamped trade gives the same outcome, the same position rows, the same
    accounts and the same trade ids in the log as ingesting the unstamped
    trade. *)
Theorem stamping_is_record_keeping (s s0 : Store) (t : Trade.t) :
  fst (InsertTradeAndUpdatePosition s (stamp_cost_basis s0 t))
  = fst (InsertTradeAndUpdatePosition s t)
  /\ positions (snd (InsertTradeAndUpdatePosition s (stamp_cost_basis s0 t)))
     = positions (snd (InsertTradeAndUpdatePosition s t))
  /\ accounts (snd (InsertTradeAndUpdatePosition s (stamp_cost_basis s0 t)))
     = accounts (snd (InsertTradeAndUpdatePosition s t))
  /\ map Trade.TradeID
         (trades (snd (InsertTradeAndUpdatePosition s (stamp_cost_basis s0 t))))
     = map Trade.TradeID (trades (snd (InsertTradeAndUpdatePosition s t))).
Proof.
  unfold stamp_cost_basis, CostBasisForTrade.
  destruct (Trade.Side t); [repeat split|].
  apply with_cost_basis_irrelevant.
Qed.

(** ** A spot sell without an open position *)

(** X11.  When the consumer acknowledges a spot sell with a new trade id
    for which no position is open, no position row is created or changed -
    the sold quantity is not carried as a short - and the trade row that is
    appended to the log is stamped with the average entry price 0: cost
    basis 0 and the whole proceeds, price * quantity - fee, as realized
    P&L. *)
Theorem spot_sell_without_position (s : Store) (e : TradeEvent.t) (now : Time) :
  TradeEvent.Side e = "sell" ->
  TradeEvent.MarketType e = "spot" ->
  trade_exists s (TradeEvent.TradeID e) = false ->
  query_open_position s (TradeEvent.AccountID e) (TradeEvent.Symbol e)
                      MarketTypeSpot = None ->
  fst (handleMessage s (Some e) now) = Ack ->
  positions (snd (handleMessage s (Some e) now)) = positions s
  /\ exists t,
       trades (snd (handleMessage s (Some e) now)) = (trades s ++ [t])%list
       /\ Trade.TradeID t = TradeEvent.TradeID e
       /\ Trade.Side t = SideSell
       /\ (Trade.CostBasis t == 0)%Q
       /\ (Trade.RealizedPnL t
           == TradeEvent.Price e * TradeEvent.Quantity e - TradeEvent.Fee e)%Q.
Proof.
  intros Hside Hmt Hnew Hq. unfold handleMessage.
  destruct (Validate e) as [[]|msg]; [|discriminate].
  unfold ToDomain.
  destruct (time_Parse (TradeEvent.Timestamp e)) as [ts|]; [|discriminate].
  rewrite Hside, Hmt.
  change (Side_of_string "sell") with SideSell.
  change (MarketType_of_string "spot") with MarketTypeSpot.
  set (trade := Trade.mk _ _ _ _ _ _ _ _ _ _ _ _ _ _ _ _ _).
  destruct (GetOrCreateAccount_frame s (Trade.AccountID trade)
              (InferAccountType (TradeEvent.AccountID e)) now)
    as (Htr & Hpos & _).
  destruct (GetOrCreateAccount _ _ _ _) as [[acct|msg] s1]; simpl in Htr, Hpos;
    [|discriminate].
  assert (Hq1 : query_open_position s1 (TradeEvent.AccountID e)
                  (TradeEvent.Symbol e) MarketTypeSpot = None).
  { unfold query_open_position in *. now rewrite Hpos. }
  assert (Hst : stamp_cost_basis s1 trade
                = with_cost_basis trade (0 * TradeEvent.Quantity e)%Q
                    ((TradeEvent.Price e - 0) * TradeEvent.Quantity e
                     - TradeEvent.Fee e)%Q).
  { unfold stamp_cost_basis, CostBasisForTrade, GetAvgEntryPrice. simpl.
    now rewrite Hq1. }
  rewrite Hst. set (tr := with_cost_basis _ _ _).
  unfold InsertTradeAndUpdatePosition, InsertTrade.
  destruct (negb (int4_fits (Trade.Leverage tr))); [discriminate|].
  assert (Hnew1 : trade_exists s1 (Trade.TradeID tr) = false).
  { unfold trade_exists in *. now rewrite Htr. }
  rewrite Hnew1.
  destruct (negb (account_exists s1 (Trade.AccountID tr))); [discriminate|].
  unfold UpsertPosition, upsertSpotPosition. simpl.
  change (query_open_position
            (mkStore (accounts s1) (trades s1 ++ [tr]) (positions s1)))
    with (query_open_position s1).
  rewrite Hq1. simpl. intros _. split; [exact Hpos|].
  exists tr. rewrite Htr. split; [reflexivity|]. split; [reflexivity|].
  split; [reflexivity|]. simpl. split; ring.
Qed.

Definition lone_sell : TradeEvent.t :=
  TradeEvent.mk "t-9" "live" "ETH-USD" "sell" 1 3000 5 "USD" "spot"
                "2025-01-15T10:00:00Z" None None None None.

Lemma spot_sell_without_position_witness :
  fst (handleMessage s_live (Some lone_sell) t_11h) = Ack
  /\ positions (snd (handleMessage s_live (Some lone_sell) t_11h)) = []
  /\ exists t,
       trades (snd (handleMessage s_live (Some lone_sell) t_11h)) = [t]
       /\ Trade.TradeID t = "t-9"
       /\ Trade.Side t = SideSell
       /\ (Trade.CostBasis t == 0)%Q
       /\ (Trade.RealizedPnL t == 3000 * 1 - 5)%Q.
Proof.
  split; [reflexivity|].
  apply (spot_sell_without_position s_live lone_sell t_11h); reflexivity.
Defined.

(** ** Accounts *)


(** ** The dispositions of the stream consumer *)

Lemma GetOrCreateAccount_exists s id ty now :
  account_exists (snd (GetOrCreateAccount s id ty now)) id = true.
Proof.
  unfold GetOrCreateAccount, account_exists.
  destruct (find _ (accounts s)) as [acct|] eqn:Hf; simpl.
  - apply find_some in Hf as [Hin Hid].
    apply existsb_exists. eauto.
  - rewrite existsb_app. simpl. rewrite String.eqb_refl.
    now rewrite orb_true_r.
Qed.

Lemma handleMessage_Ack_inv s e now :
  fst (handleMessage s (Some e) now) = Ack ->
  Validate e = Ok tt
  /\ account_exists (snd (handleMessage s (Some e) now)) (TradeEvent.AccountID e)
     = true
  /\ trade_exists (snd (handleMessage s (Some e) now)) (TradeEvent.TradeID e)
     = true.
Proof.
  unfold handleMessage.
  destruct (Validate e) as [[]|msg]; [|discriminate].
  destruct (ToDomain e now) as [trade|] eqn:Htd; [|discriminate].
  assert (Hid : Trade.TradeID trade = TradeEvent.TradeID e
                /\ Trade.AccountID trade = TradeEvent.AccountID e).
  { unfold ToDomain in Htd. destruct (time_Parse _); [|discriminate].
    inversion Htd; split; reflexivity. }
  destruct Hid as [Hid Hacc].
  pose proof (GetOrCreateAccount_exists s (Trade.AccountID trade)
                (InferAccountType (TradeEvent.AccountID e)) now) as Hg.
  destruct (GetOrCreateAccount _ _ _ _) as [[acct'|msg] s1]; simpl in *;
    [|discriminate].
  destruct (stamp_cost_basis_fields s1 trade) as (Hsid & Hsacc & _).
  destruct (InsertTradeAndUpdatePosition s1 (stamp_cost_basis s1 trade))
    as [[b|msg] s2] eqn:Hit; simpl; [|discriminate].
  intros _. split; [reflexivity|].
  apply InsertTradeAndUpdatePosition_logged in Hit as Hlog.
  destruct Hlog as [Hlog _]. rewrite Hsid, Hid in Hlog.
  split; [|exact Hlog].
  pose proof (InsertTradeAndUpdatePosition_frame s1 (stamp_cost_basis s1 trade))
    as [Ha _].
  rewrite Hit in Ha. simpl in Ha.
  unfold account_exists in *. rewrite Ha, <- Hacc. exact Hg.
Qed.

Lemma stamp_cost_basis_leverage s t :
  Trade.Leverage (stamp_cost_basis s t) = Trade.Leverage t.
Proof.
  unfold stamp_cost_basis, CostBasisForTrade.
  destruct (Trade.Side t); reflexivity.
Qed.

(** An acknowledged event carries a leverage that fits the INTEGER column. *)
Lemma handleMessage_Ack_fits s e now :
  fst (handleMessage s (Some e) now) = Ack ->
  int4_fits (TradeEvent.Leverage e) = true.
Proof.
  unfold handleMessage.
  destruct (Validate e) as [[]|msg]; [|discriminate].
  destruct (ToDomain e now) as [trade|] eqn:Htd; [|discriminate].
  assert (Hlev : Trade.Leverage trade = TradeEvent.Leverage e).
  { unfold ToDomain in Htd. destruct (time_Parse _); [|discriminate].
    inversion Htd; reflexivity. }
  destruct (GetOrCreateAccount _ _ _ _) as [[acct'|msg] s1]; simpl;
    [|discriminate].
  destruct (InsertTradeAndUpdatePosition s1 (stamp_cost_basis s1 trade))
    as [[b|msg] s2] eqn:Hit; simpl; [|discriminate].
  intros _. apply InsertTradeAndUpdatePosition_fits in Hit.
  now rewrite stamp_cost_basis_leverage, Hlev in Hit.
Qed.

Lemma GetOrCreateAccount_found s id ty now :
  account_exists s id = true ->
  exists acct, GetOrCreateAccount s id ty now = (Ok acct, s).
Proof.
  unfold account_exists, GetOrCreateAccount. intros H.
  destruct (find _ (accounts s)) as [acct|] eqn:Hf; [eauto|].
  apply existsb_exists in H as (a & Hin & Hid).
  now rewrite (find_none _ _ Hf a Hin) in Hid.
Qed.

(** X13.  What each disposition of the consumer means: a message is terminated
    exactly when its payload does not decode or fails validation, and then
    the ledger is untouched; a negative acknowledgement leaves the trade log
    and the positions as they were (the transaction rolled back); an
    acknowledgement means the trade is in the log. *)
Theorem handleMessage_dispositions (s : Store) (payload : option TradeEvent.t)
  (now : Time) :
  let r := handleMessage s payload now in
  (fst r = Term <->
     payload = None
     \/ exists e msg, payload = Some e /\ Validate e = Err msg)
  /\ (fst r = Term -> snd r = s)
  /\ (fst r = Nak -> trades (snd r) = trades s /\ positions (snd r) = positions s)
  /\ (fst r = Ack ->
      exists e, payload = Some e /\ Validate e = Ok tt
                /\ trade_exists (snd r) (TradeEvent.TradeID e) = true).
Proof.
  destruct payload as [e|]; simpl.
  2:{ split; [split; auto|]. split; [auto|]. split; discriminate. }
  pose proof (handleMessage_Ack_inv s e now) as Hack.
  unfold handleMessage in *.
  destruct (Validate e) as [[]|msg] eqn:Hv; simpl.
  2:{ split; [split; eauto|]. split; [auto|]. split; discriminate. }
  destruct (Validate_Ok_inv e Hv) as (_ & _ & _ & _ & _ & _ & _ & _ & ts & Hts).
  unfold ToDomain. rewrite Hts.
  unfold ToDomain in Hack. rewrite Hts in Hack.
  set (trade := Trade.mk _ _ _ _ _ _ _ _ _ _ _ _ _ _ _ _ _) in *.
  destruct (GetOrCreateAccount_frame s (Trade.AccountID trade)
              (InferAccountType (TradeEvent.AccountID e)) now)
    as (Htr & Hpos & _).
  destruct (GetOrCreateAccount _ _ _ _) as [[acct|msg] s1]; simpl in *.
  - destruct (InsertTradeAndUpdatePosition s1 (stamp_cost_basis s1 trade))
      as [[b|msg] s2] eqn:Hit; simpl in *.
    + split; [split; [discriminate|]|].
      { intros [H | (e0 & msg & H & Hv')]; [discriminate|].
        inversion H; subst. congruence. }
      split; [discriminate|]. split; [discriminate|].
      intros _. exists e. destruct (Hack eq_refl) as (_ & _ & Hlog). auto.
    + split; [split; [discriminate|]|].
      { intros [H | (e0 & msg0 & H & Hv')]; [discriminate|].
        inversion H; subst. congruence. }
      split; [discriminate|]. split; [|discriminate].
      intros _. apply InsertTradeAndUpdatePosition_rollback in Hit. subst s2.
      auto.
  - split; [split; [discriminate|]|].
    { intros [H | (e0 & msg0 & H & Hv')]; [discriminate|].
      inversion H; subst. congruence. }
    split; [discriminate|]. split; [auto | discriminate].
Qed.

(** X14.  Redelivery is harmless: once a message has been acknowledged, handling
    the same message again - at any later time - is acknowledged again and
    leaves the whole ledger as it is. *)
Theorem redelivery_is_acknowledged (s : Store) (e : TradeEvent.t)
  (now now' : Time) :
  fst (handleMessage s (Some e) now) = Ack ->
  handleMessage (snd (handleMessage s (Some e) now)) (Some e) now'
  = (Ack, snd (handleMessage s (Some e) now)).
Proof.
  intros Hack. pose proof (handleMessage_Ack_fits s e now Hack) as Hfit.
  apply handleMessage_Ack_inv in Hack as (Hv & Hacc & Hlog).
  generalize dependent (snd (handleMessage s (Some e) now)). intros s' Hacc Hlog.
  unfold handleMessage. rewrite Hv.
  destruct (Validate_Ok_inv e Hv) as (_ & _ & _ & _ & _ & _ & _ & _ & ts & Hts).
  unfold ToDomain. rewrite Hts.
  set (trade := Trade.mk _ _ _ _ _ _ _ _ _ _ _ _ _ _ _ _ _).
  destruct (GetOrCreateAccount_found s' (Trade.AccountID trade)
              (InferAccountType (TradeEvent.AccountID e)) now' Hacc)
    as (acct & ->).
  rewrite InsertTradeAndUpdatePosition_duplicate; [reflexivity| |].
  - rewrite stamp_cost_basis_leverage. exact Hfit.
  - destruct (stamp_cost_basis_fields s' trade) as (-> & _). exact Hlog.
Qed.

Lemma redelivery_is_acknowledged_witness :
  handleMessage (snd (handleMessage empty_store (Some rx_buy1) t_10h))
                (Some rx_buy1) t_11h
  = (Ack, snd (handleMessage empty_store (Some rx_buy1) t_10h)).
Proof.
  apply (redelivery_is_acknowledged empty_store rx_buy1 t_10h t_11h).
  reflexivity.
Defined.

(** ** Rebuild is the ordered replay of the log *)

Definition s3_arrival : list operation :=
  map (fun e => OpIngest (Some e) t_11h) s3_events.

(** X15.  In a reachable ledger, a rebuild that goes through leaves accounts and
    trades as they are and yields exactly the position rows that ingesting
    the account's trades one by one, in (timestamp, trade_id) order, into
    the ledger without that account yields - every one of those calls
    reporting an insert; rebuilding once more reproduces the store. *)
Theorem rebuild_is_ordered_replay (ops : list operation) (a : string)
  (s' : Store) :
  RebuildPositions (run ops) a = (Ok tt, s') ->
  accounts s' = accounts (run ops)
  /\ trades s' = trades (run ops)
  /\ positions s'
     = positions (ingest_all (forget_account (run ops) a)
                             (TradesForRebuild (run ops) a))
  /\ ingest_outcomes (forget_account (run ops) a) (TradesForRebuild (run ops) a)
     = map (fun _ => Ok true) (TradesForRebuild (run ops) a)
  /\ RebuildPositions s' a = (Ok tt, s').
Proof.
  intros Hreb. destruct (run_wf ops) as [Hlog Hpk].
  destruct (rebuild_matches_incremental _ _ _ Hlog Hpk Hreb) as (Ho & Hp & Hi).
  destruct (RebuildPositions_log (run ops) a) as [Ha Ht].
  rewrite Hreb in Ha, Ht. simpl in Ha, Ht.
  split; [exact Ha|]. split; [exact Ht|]. split; [now symmetry|].
  split; assumption.
Qed.

Lemma rebuild_is_ordered_replay_witness :
  map Position.ID
      (positions (snd (RebuildPositions (run s3_arrival) "live")))
  = ["live-BTC-USD-spot-1736935200"]
  /\ positions (snd (RebuildPositions (run s3_arrival) "live"))
     = positions (ingest_all (forget_account (run s3_arrival) "live")
                             (TradesForRebuild (run s3_arrival) "live")).
Proof.
  split; [vm_compute; reflexivity|].
  apply (rebuild_is_ordered_replay s3_arrival "live"
           (snd (RebuildPositions (run s3_arrival) "live"))).
  vm_compute. reflexivity.
Defined.

(** ** Reading positions *)

Lemma StronglySorted_weaken {A} (R R' : A -> A -> Prop) l :
  (forall x y, R x y -> R' x y) -> StronglySorted R l -> StronglySorted R' l.
Proof.
  intros HR. induction 1 as [|x l Hs IH Hall]; constructor; [exact IH|].
  eapply Forall_impl; [|exact Hall]. intros y. apply HR.
Qed.

Lemma opened_desc_total a b : opened_desc a b = false -> opened_desc b a = true.
Proof. unfold opened_desc. rewrite Z.leb_gt, Z.leb_le. lia. Qed.

Lemma opened_desc_trans a b c :
  opened_desc a b = true -> opened_desc b c = true -> opened_desc a c = true.
Proof. unfold opened_desc. rewrite !Z.leb_le. lia. Qed.

(** X16.  GET /positions: an absent status means "open"; a status other than
    open, closed or all is answered 400; otherwise the answer is 200 with
    exactly the account's rows of that status (all rows for "all"), each
    once, newest opening first. *)
Theorem handleListPositions_spec (s : Store) (accountID status : string) :
  let st := if String.eqb status "" then "open" else status in
  (st <> "open" -> st <> "closed" -> st <> "all" ->
   handleListPositions s accountID status
   = apiError StatusBadRequest "invalid status: must be open, closed, or all")
  /\ (st = "open" \/ st = "closed" \/ st = "all" ->
      exists rows,
        handleListPositions s accountID status = apiJSON StatusOK rows
        /\ Permutation rows
             (filter (fun p => String.eqb (Position.AccountID p) accountID
                               && (String.eqb st "all"
                                   || String.eqb (PositionStatus_to_string
                                                    (Position.Status p)) st))
                     (positions s))
        /\ StronglySorted
             (fun x y => instant (Position.OpenedAt y)
                         <= instant (Position.OpenedAt x)) rows).
Proof.
  intros st. unfold handleListPositions. fold st. split.
  - intros H1 H2 H3.
    apply String.eqb_neq in H1, H2, H3. now rewrite H1, H2, H3.
  - intros Hst.
    assert (Hok : negb (String.eqb st "open") && negb (String.eqb st "closed")
                  && negb (String.eqb st "all") = false).
    { destruct Hst as [-> | [-> | ->]]; reflexivity. }
    rewrite Hok. eexists. split; [reflexivity|].
    assert (Hne : String.eqb st "" = false)
      by (destruct Hst as [-> | [-> | ->]]; reflexivity).
    unfold ListPositions. split.
    + rewrite sort_by_perm.
      assert (Hext : forall p,
                position_listed accountID st p
                = String.eqb (Position.AccountID p) accountID
                  && (String.eqb st "all"
                      || String.eqb (PositionStatus_to_string
                                       (Position.Status p)) st)).
      { intros p. unfold position_listed. now rewrite Hne. }
      rewrite (filter_ext _ _ Hext). reflexivity.
    + eapply StronglySorted_weaken;
        [|apply (sort_by_sorted opened_desc opened_desc_total opened_desc_trans)].
      intros x y H. unfold opened_desc in H. now apply Z.leb_le.
Qed.

Definition open_of_account (a : string) (p : Position.t) : bool :=
  String.eqb (Position.AccountID p) a && is_open (Position.Status p).

Definition closed_of_account (a : string) (p : Position.t) : bool :=
  String.eqb (Position.AccountID p) a && negb (is_open (Position.Status p)).

Lemma sum_realized_split (P : Position.t -> bool) l :
  (sum_realized (filter P l)
   == sum_realized (filter (fun p => P p && is_open (Position.Status p)) l)
      + sum_realized
          (filter (fun p => P p && negb (is_open (Position.Status p))) l))%Q.
Proof.
  induction l as [|x l IH]; simpl; [reflexivity|].
  destruct (P x); simpl; [|exact IH].
  destruct (is_open (Position.Status x)); simpl; rewrite IH; ring.
Qed.

(** X17.  GET /portfolio: 404 for an account that does not exist; otherwise 200
    with the account's open positions, each once, and a total realized P&L
    that adds up the realized P&L of the open rows and of the closed rows,
    although the closed rows are not in the list. *)
Theorem handlePortfolioSummary_spec (s : Store) (accountID : string) :
  (AccountExists s accountID = false ->
   handlePortfolioSummary s accountID
   = apiError StatusNotFound "account not found")
  /\ (AccountExists s accountID = true ->
      exists summary,
        handlePortfolioSummary s accountID = apiJSON StatusOK summary
        /\ Permutation (PortfolioSummary.Positions summary)
             (filter (open_of_account accountID) (positions s))
        /\ (PortfolioSummary.TotalRealizedPnL summary
            == sum_realized (filter (open_of_account accountID) (positions s))
               + sum_realized
                   (filter (closed_of_account accountID) (positions s)))%Q).
Proof.
  unfold handlePortfolioSummary. split; intros ->; simpl; [reflexivity|].
  eexists. split; [reflexivity|]. simpl. split.
  - unfold ListPositions. rewrite sort_by_perm.
    erewrite filter_ext; [reflexivity|].
    intros p. unfold position_listed, open_of_account. simpl.
    destruct (Position.Status p); reflexivity.
  - rewrite (sum_realized_split
               (fun p => String.eqb (Position.AccountID p) accountID)).
    reflexivity.
Qed.

(** ** Orders *)

Definition order_upsert_row (order o : Order.t) : Order.t :=
  if String.eqb (Order.OrderID o) (Order.OrderID order)
  then order_update order o else o.

Lemma order_upsert_row_id order o :
  Order.OrderID (order_upsert_row order o) = Order.OrderID o.
Proof. unfold order_upsert_row. destruct (String.eqb _ _); reflexivity. Qed.

Lemma order_upsert_row_idem order o :
  order_upsert_row order (order_upsert_row order o) = order_upsert_row order o.
Proof.
  unfold order_upsert_row.
  destruct (String.eqb (Order.OrderID o) (Order.OrderID order)) eqn:E.
  - simpl. rewrite E. reflexivity.
  - rewrite E. reflexivity.
Qed.

Lemma order_update_self o : order_update o o = o.
Proof. destruct o; reflexivity. Qed.

(** X18.  UpsertOrder on a table with distinct order ids: the ids stay distinct;
    the row stored under the order's id carries the new filled quantity,
    average fill price, status and update time, and - when the order was
    already there - keeps the stored account, symbol, side, type, requested
    quantity, market type and creation time; rows with other ids are
    untouched; and upserting the same order again changes nothing. *)
Theorem UpsertOrder_spec (s : Store) (orders : list Order.t) (order : Order.t)
  (orders' : list Order.t) :
  NoDup (map Order.OrderID orders) ->
  UpsertOrder s orders order = Ok orders' ->
  NoDup (map Order.OrderID orders')
  /\ (exists stored,
        In stored orders'
        /\ Order.OrderID stored = Order.OrderID order
        /\ Order.FilledQty stored = Order.FilledQty order
        /\ Order.AvgFillPrice stored = Order.AvgFillPrice order
        /\ Order.Status stored = Order.Status order
        /\ Order.UpdatedAt stored = Order.UpdatedAt order
        /\ forall old, In old orders ->
                       Order.OrderID old = Order.OrderID order ->
                       Order.AccountID stored = Order.AccountID old
                       /\ Order.Symbol stored = Order.Symbol old
                       /\ Order.Side stored = Order.Side old
                       /\ Order.OrderType stored = Order.OrderType old
                       /\ Order.RequestedQty stored = Order.RequestedQty old
                       /\ Order.MarketType stored = Order.MarketType old
                       /\ Order.CreatedAt stored = Order.CreatedAt old)
  /\ (forall x, Order.OrderID x <> Order.OrderID order ->
                (In x orders' <-> In x orders))
  /\ UpsertOrder s orders' order = Ok orders'.
Proof.
  intros Hnd. unfold UpsertOrder.
  fold (order_upsert_row order).
  destruct (existsb _ orders) eqn:Hex.
  - intros H; inversion H; subst orders'; clear H.
    apply existsb_exists in Hex as (old0 & Hin0 & Hid0).
    apply String.eqb_eq in Hid0.
    assert (Hids : map Order.OrderID (map (order_upsert_row order) orders)
                   = map Order.OrderID orders).
    { rewrite map_map. apply map_ext. apply order_upsert_row_id. }
    split; [now rewrite Hids|]. split; [|split].
    + exists (order_update order old0).
      split.
      { apply in_map_iff. exists old0. split; [|exact Hin0].
        unfold order_upsert_row.
        now rewrite Hid0, String.eqb_refl. }
      split; [exact Hid0|]. do 4 (split; [reflexivity|]).
      intros old Hin Hid.
      assert (old = old0)
        by (apply (NoDup_map_row Order.OrderID orders); congruence).
      subst old. repeat split.
    + intros x Hx. split.
      * intros Hin. apply in_map_iff in Hin as (y & Hy & Hin).
        unfold order_upsert_row in Hy.
        destruct (String.eqb_spec (Order.OrderID y) (Order.OrderID order));
          subst x; [|exact Hin].
        exfalso. apply Hx. simpl. assumption.
      * intros Hin. apply in_map_iff. exists x. split; [|exact Hin].
        unfold order_upsert_row.
        destruct (String.eqb_spec (Order.OrderID x) (Order.OrderID order));
          [contradiction | reflexivity].
    + assert (Hex' : existsb (fun o => String.eqb (Order.OrderID o)
                                                  (Order.OrderID order))
                             (map (order_upsert_row order) orders) = true).
      { apply existsb_exists. exists (order_upsert_row order old0).
        split; [now apply in_map|].
        rewrite order_upsert_row_id. now apply String.eqb_eq. }
      rewrite Hex'. f_equal. rewrite map_map. apply map_ext.
      apply order_upsert_row_idem.
  - destruct (negb (account_exists s (Order.AccountID order))); [discriminate|].
    intros H; inversion H; subst orders'; clear H.
    assert (Hfresh : forall o, In o orders ->
                               Order.OrderID o <> Order.OrderID order).
    { intros o Hin Hid.
      enough (existsb (fun o => String.eqb (Order.OrderID o)
                                           (Order.OrderID order)) orders = true)
        by congruence.
      apply existsb_exists. exists o. split; [exact Hin|].
      now apply String.eqb_eq. }
    split; [|split; [|split]].
    + rewrite map_app. simpl.
      eapply Permutation_NoDup; [apply Permutation_cons_append|].
      constructor; [|exact Hnd].
      intros Hin. apply in_map_iff in Hin as (o & Hid & Hin).
      exact (Hfresh o Hin Hid).
    + exists order. split; [apply in_or_app; right; now left|].
      do 5 (split; [reflexivity|]).
      intros old Hin Hid. exfalso. exact (Hfresh old Hin Hid).
    + intros x Hx. rewrite in_app_iff. simpl. split; [|auto].
      intros [Hin | [<- | []]]; [exact Hin | congruence].
    + rewrite existsb_app. simpl. rewrite String.eqb_refl, orb_true_r. simpl.
      f_equal. rewrite map_app. simpl. f_equal.
      * rewrite <- (map_id orders) at 2. apply map_ext_in.
        intros o Hin. unfold order_upsert_row.
        destruct (String.eqb_spec (Order.OrderID o) (Order.OrderID order));
          [exfalso; exact (Hfresh o Hin e) | reflexivity].
      * unfold order_upsert_row. rewrite String.eqb_refl.
        now rewrite order_update_self.
Qed.

Definition ox_open : Order.t :=
  Order.mk "o-1" "live" "BTC-USD" SideBuy OrderTypeLimit 2 0 0
           OrderStatusOpen MarketTypeSpot t_10h t_10h.

(** The fill report for the same order; it names another symbol and
    requested quantity, which the update ignores. *)
Definition ox_fill : Order.t :=
  Order.mk "o-1" "live" "ETH-USD" SideBuy OrderTypeLimit 5 2 40000
           OrderStatusFilled MarketTypeSpot t_11h t_11h.

Lemma UpsertOrder_spec_witness :
  UpsertOrder s_live [ox_open] ox_fill
  = Ok [Order.mk "o-1" "live" "BTC-USD" SideBuy OrderTypeLimit 2 2 40000
                 OrderStatusFilled MarketTypeSpot t_10h t_11h]
  /\ NoDup (map Order.OrderID
              [Order.mk "o-1" "live" "BTC-USD" SideBuy OrderTypeLimit 2 2 40000
                        OrderStatusFilled MarketTypeSpot t_10h t_11h]).
Proof.
  split; [reflexivity|].
  apply (UpsertOrder_spec s_live [ox_open] ox_fill).
  - repeat constructor. simpl. tauto.
  - reflexivity.
Defined.

(** ** Migrations *)

Lemma apply_migrations_ok {DB} (exec : DB -> string -> option DB) files :
  forall db applied db' applied',
  apply_migrations DB exec db applied files = (Ok tt, (db', applied')) ->
  (exists new, applied' = (applied ++ new)%list)
  /\ forall f, In f files -> In (TrimSuffix f ".up.sql") applied'.
Proof.
  induction files as [|f files IH]; intros db applied db' applied' H; simpl in H.
  - inversion H; subst. split; [exists []; now rewrite app_nil_r|].
    intros f [].
  - destruct (existsb _ applied) eqn:Hex.
    + destruct (IH _ _ _ _ H) as [[new Hnew] Hall].
      split; [eauto|]. intros g [<- | Hg]; [|now apply Hall].
      apply existsb_exists in Hex as (v & Hin & Hv).
      apply String.eqb_eq in Hv. subst v applied'.
      apply in_or_app. now left.
    + destruct (exec db f) as [db1|]; [|discriminate].
      destruct (IH _ _ _ _ H) as [[new Hnew] Hall].
      split.
      * exists ([TrimSuffix f ".up.sql"] ++ new)%list.
        now rewrite Hnew, <- app_assoc.
      * intros g [<- | Hg]; [|now apply Hall].
        rewrite Hnew. apply in_or_app. left. apply in_or_app. right. now left.
Qed.

Lemma apply_migrations_noop {DB} (exec : DB -> string -> option DB) files :
  forall db applied,
  (forall f, In f files -> In (TrimSuffix f ".up.sql") applied) ->
  apply_migrations DB exec db applied files = (Ok tt, (db, applied)).
Proof.
  induction files as [|f files IH]; intros db applied Hall; simpl;
    [reflexivity|].
  assert (Hex : existsb (String.eqb (TrimSuffix f ".up.sql")) applied = true).
  { apply existsb_exists. exists (TrimSuffix f ".up.sql").
    split; [apply Hall; now left | apply String.eqb_refl]. }
  rewrite Hex. apply IH. intros g Hg. apply Hall. now right.
Qed.

Lemma string_length_append (v w : string) :
  String.length (v ++ w) = (String.length v + String.length w)%nat.
Proof. induction v as [|c v IH]; simpl; [reflexivity | now rewrite IH]. Qed.

Lemma substring_all (w : string) : substring 0 (String.length w) w = w.
Proof. induction w as [|c w IH]; simpl; [reflexivity | now rewrite IH]. Qed.

Lemma substring_append_prefix (v w : string) :
  substring 0 (String.length v) (v ++ w) = v.
Proof.
  induction v as [|c v IH]; simpl; [now destruct w | now rewrite IH].
Qed.

Lemma substring_append_suffix (v w : string) :
  substring (String.length v) (String.length w) (v ++ w) = w.
Proof. induction v as [|c v IH]; simpl; [apply substring_all | exact IH]. Qed.

(** [HasSuffix] and [TrimSuffix] on a name that ends in the suffix. *)
Lemma TrimSuffix_append (v suffix : string) :
  HasSuffix (v ++ suffix) suffix = true
  /\ TrimSuffix (v ++ suffix) suffix = v.
Proof.
  assert (H : HasSuffix (v ++ suffix) suffix = true).
  { unfold HasSuffix. rewrite string_length_append.
    replace (String.length v + String.length suffix - String.length suffix)%nat
      with (String.length v) by lia.
    rewrite substring_append_suffix, String.eqb_refl, andb_true_r.
    apply Nat.leb_le. lia. }
  split; [exact H|]. unfold TrimSuffix. rewrite H.
  rewrite string_length_append.
  replace (String.length v + String.length suffix - String.length suffix)%nat
    with (String.length v) by lia.
  apply substring_append_prefix.
Qed.

(** X19.  RunMigrations, when it succeeds: the versions recorded before are kept
    in place, every file [v.up.sql] of the directory has its version [v]
    recorded, and running the migrations again executes no script and
    changes neither the schema nor the record. *)
Theorem RunMigrations_idempotent (DB : Type) (exec : DB -> string -> option DB)
  (entries : list string) (db : DB) (applied : list string)
  (db' : DB) (applied' : list string) :
  RunMigrations DB exec entries db applied = (Ok tt, (db', applied')) ->
  (exists new, applied' = (applied ++ new)%list)
  /\ (forall v, In (v ++ ".up.sql") entries -> In v applied')
  /\ RunMigrations DB exec entries db' applied' = (Ok tt, (db', applied')).
Proof.
  unfold RunMigrations. intros H.
  destruct (apply_migrations_ok exec _ _ _ _ _ H) as [Hnew Hall].
  split; [exact Hnew|]. split.
  - intros v Hin. destruct (TrimSuffix_append v ".up.sql") as [Hs Ht].
    rewrite <- Ht. apply Hall. unfold sort_Strings.
    apply (Permutation_in _ (Permutation_sym (sort_by_perm _ _))).
    apply filter_In. auto.
  - now apply apply_migrations_noop.
Qed.

Definition mx_entries : list string :=
  ["002_orders.up.sql"; "001_init.down.sql"; "001_init.up.sql";
   "002_orders.down.sql"].

(** A schema that is the list of the scripts run on it. *)
Definition mx_exec (db : list string) (file : string) : option (list string) :=
  Some (db ++ [file])%list.

Lemma RunMigrations_idempotent_witness :
  RunMigrations (list string) mx_exec mx_entries [] ["001_init"]
  = (Ok tt, (["002_orders.up.sql"], ["001_init"; "002_orders"]))
  /\ RunMigrations (list string) mx_exec mx_entries
                   ["002_orders.up.sql"] ["001_init"; "002_orders"]
     = (Ok tt, (["002_orders.up.sql"], ["001_init"; "002_orders"])).
Proof.
  split; [reflexivity|].
  apply (RunMigrations_idempotent (list string) mx_exec mx_entries
           [] ["001_init"]).
  reflexivity.
Defined.

(** ** The retry schedule of ConnectNATS *)

(** The sleep after failed attempt [k + 1]. *)
Definition backoff_at (k : nat) : Z :=
  Z.min (100 * Millisecond * 2 ^ Z.of_nat k) (30 * Second).

Lemma next_backoff_at k : next_backoff (backoff_at k) = backoff_at (S k).
Proof.
  unfold next_backoff, backoff_at.
  rewrite Nat2Z.inj_succ, Z.pow_succ_r by lia.
  assert (Hp : 0 < 2 ^ Z.of_nat k) by (apply Z.pow_pos_nonneg; lia).
  unfold Second, Millisecond in *.
  destruct (_ <? _) eqn:E; [apply Z.ltb_lt in E | apply Z.ltb_ge in E]; lia.
Qed.

Lemma connect_loop_first connect m : forall fuel attempt j slept,
  (forall k, (attempt <= k < attempt + m)%nat -> connect k = false) ->
  connect (attempt + m)%nat = true ->
  (m < fuel)%nat ->
  connect_loop connect fuel attempt (backoff_at j) slept
  = Some ((attempt + m)%nat, (slept ++ map backoff_at (seq j m))%list).
Proof.
  induction m as [|m IH]; intros fuel attempt j slept Hfail Hok Hfuel;
    (destruct fuel as [|fuel]; [lia|]); simpl.
  - rewrite Nat.add_0_r in *. rewrite Hok. now rewrite app_nil_r.
  - rewrite (Hfail attempt) by lia.
    rewrite next_backoff_at.
    rewrite (IH fuel (S attempt) (S j)).
    + f_equal. f_equal; [lia|]. now rewrite <- app_assoc.
    + intros k Hk. apply Hfail. lia.
    + now replace (S attempt + m)%nat with (attempt + S m)%nat by lia.
    + lia.
Qed.

(** X20.  ConnectNATS retries until the first attempt that succeeds: when attempt
    [n] is the first to connect, the loop returns at attempt [n] after
    exactly [n - 1] sleeps, the k-th of them (from 0) of
    min(100ms * 2^k, 30s): 100ms, 200ms, 400ms, ... capped at 30s. *)
Theorem ConnectNATS_backoff (connect : nat -> bool) (n fuel : nat) :
  (1 <= n)%nat ->
  connect n = true ->
  (forall k, (1 <= k < n)%nat -> connect k = false) ->
  (n <= fuel)%nat ->
  ConnectNATS connect fuel
  = Some (n, map backoff_at (seq 0 (n - 1)))
  /\ Forall (fun d => 100 * Millisecond <= d <= 30 * Second)
            (map backoff_at (seq 0 (n - 1))).
Proof.
  intros Hn Hok Hfail Hfuel. split.
  - unfold ConnectNATS.
    change (100 * Millisecond) with (backoff_at 0).
    rewrite (connect_loop_first connect (n - 1) fuel 1 0 []).
    + simpl. f_equal. f_equal. lia.
    + intros k Hk. apply Hfail. lia.
    + now replace (1 + (n - 1))%nat with n by lia.
    + lia.
  - apply Forall_forall. intros d Hd. apply in_map_iff in Hd as (k & <- & _).
    unfold backoff_at.
    assert (Hp : 1 <= 2 ^ Z.of_nat k).
    { change 1 with (2 ^ 0). apply Z.pow_le_mono_r; lia. }
    unfold Second, Millisecond. lia.
Qed.

Lemma ConnectNATS_backoff_witness :
  ConnectNATS (fun k => (10 <=? k)%nat) 20
  = Some (10%nat,
          [100000000; 200000000; 400000000; 800000000; 1600000000;
           3200000000; 6400000000; 12800000000; 25600000000])
  /\ backoff_at 9 = 30 * Second.
Proof.
  split; [|reflexivity].
  apply (ConnectNATS_backoff (fun k => (10 <=? k)%nat) 10 20); try lia.
  - reflexivity.
  - intros k Hk. apply Nat.leb_gt. lia.
Defined.

(** ** Importing a batch again *)

(** The event is valid, its leverage fits the INTEGER column, and its trade
    and account are in the store. *)
Definition present (s : Store) (e : TradeEvent.t) : Prop :=
  (Validate e = Ok tt /\ int4_fits (TradeEvent.Leverage e) = true)
  /\ trade_exists s (TradeEvent.TradeID e) = true
  /\ account_exists s (TradeEvent.AccountID e) = true.

Definition duplicate_result (e : TradeEvent.t) : ImportResult.t :=
  ImportResult.mk (TradeEvent.TradeID e) "duplicate" "".

Lemma import_event_present now st e :
  present (st_store st) e ->
  import_event now st e
  = mkImportState (st_store st) (st_inserted st) (st_duplicates st + 1)
      (st_errors st) (st_results st ++ [duplicate_result e]) (st_affected st).
Proof.
  intros ((Hv & Hfit) & Hlog & Hacc). unfold import_event.
  destruct (Validate_Ok_inv e Hv) as (_ & _ & _ & _ & _ & _ & _ & _ & ts & Hts).
  unfold ToDomain. rewrite Hts.
  set (trade := Trade.mk _ _ _ _ _ _ _ _ _ _ _ _ _ _ _ _ _).
  destruct (GetOrCreateAccount_found (st_store st) (Trade.AccountID trade)
              (InferAccountType (TradeEvent.AccountID e)) now Hacc)
    as (acct & ->).
  rewrite InsertTradeAndUpdatePosition_duplicate; [reflexivity| |].
  - rewrite stamp_cost_basis_leverage. exact Hfit.
  - destruct (stamp_cost_basis_fields (st_store st) trade) as (-> & _).
    exact Hlog.
Qed.

Lemma import_loop_present clock evs : forall i st,
  Forall (present (st_store st)) evs ->
  import_loop clock i st evs
  = mkImportState (st_store st) (st_inserted st)
      (st_duplicates st + Z.of_nat (List.length evs))
      (st_errors st) (st_results st ++ map duplicate_result evs)
      (st_affected st).
Proof.
  induction evs as [|e es IH]; intros i st Hall; simpl.
  - rewrite Z.add_0_r, app_nil_r. now destruct st.
  - apply Forall_cons_iff in Hall as [He Hes].
    rewrite (import_event_present _ _ _ He).
    rewrite IH by exact Hes. simpl.
    f_equal; [lia | now rewrite <- app_assoc].
Qed.

(** A store that holds at least the trades and accounts of another. *)
Definition holds (s s' : Store) : Prop :=
  (forall id, trade_exists s id = true -> trade_exists s' id = true)
  /\ (forall id, account_exists s id = true -> account_exists s' id = true).

Lemma holds_refl s : holds s s.
Proof. split; auto. Qed.

Lemma holds_trans s1 s2 s3 : holds s1 s2 -> holds s2 s3 -> holds s1 s3.
Proof. intros [H1 H2] [H3 H4]. split; auto. Qed.

Lemma GetOrCreateAccount_holds s id ty now :
  holds s (snd (GetOrCreateAccount s id ty now)).
Proof.
  destruct (GetOrCreateAccount_frame s id ty now) as (Ht & _ & new & Ha).
  unfold holds, trade_exists, account_exists. rewrite Ht, Ha. split; [auto|].
  intros id' H. rewrite existsb_app, H. reflexivity.
Qed.

Lemma InsertTradeAndUpdatePosition_holds s t :
  holds s (snd (InsertTradeAndUpdatePosition s t)).
Proof.
  destruct (InsertTradeAndUpdatePosition_frame s t) as (Ha & [Ht | Ht]);
    unfold holds, trade_exists, account_exists; rewrite Ha, Ht;
    split; auto.
  intros id H. rewrite existsb_app, H. reflexivity.
Qed.

Lemma RebuildPositions_holds s a : holds s (snd (RebuildPositions s a)).
Proof.
  destruct (RebuildPositions_log s a) as [Ha Ht].
  unfold holds, trade_exists, account_exists. rewrite Ha, Ht. split; auto.
Qed.

Lemma rebuild_all_holds ids : forall s, holds s (rebuild_all s ids).
Proof.
  unfold rebuild_all.
  induction ids as [|a ids IH]; intros s; simpl; [apply holds_refl|].
  eapply holds_trans; [apply RebuildPositions_holds | apply IH].
Qed.

(** One turn of the import loop never lowers the error counter, keeps what
    the store holds, and - when it reports no error - leaves the event's
    trade and account in the store, which its leverage fitted. *)
Lemma import_event_progress now st e :
  st_errors st <= st_errors (import_event now st e)
  /\ holds (st_store st) (st_store (import_event now st e))
  /\ (st_errors (import_event now st e) = st_errors st ->
      int4_fits (TradeEvent.Leverage e) = true
      /\ trade_exists (st_store (import_event now st e)) (TradeEvent.TradeID e)
         = true
      /\ account_exists (st_store (import_event now st e))
                        (TradeEvent.AccountID e) = true).
Proof.
  unfold import_event.
  destruct (ToDomain e now) as [trade|msg] eqn:Htd; simpl.
  2:{ split; [lia|]. split; [apply holds_refl | lia]. }
  assert (Hid : Trade.TradeID trade = TradeEvent.TradeID e
                /\ Trade.AccountID trade = TradeEvent.AccountID e
                /\ Trade.Leverage trade = TradeEvent.Leverage e).
  { unfold ToDomain in Htd. destruct (time_Parse _); [|discriminate].
    inversion Htd; repeat split; reflexivity. }
  destruct Hid as (Hid & Hacc & Hlev).
  pose proof (GetOrCreateAccount_holds (st_store st) (Trade.AccountID trade)
                (InferAccountType (TradeEvent.AccountID e)) now) as Hh1.
  pose proof (GetOrCreateAccount_exists (st_store st) (Trade.AccountID trade)
                (InferAccountType (TradeEvent.AccountID e)) now) as Hex1.
  destruct (GetOrCreateAccount _ _ _ _) as [[acct|msg] s1]; simpl in *.
  2:{ split; [lia|]. split; [exact Hh1 | lia]. }
  pose proof (InsertTradeAndUpdatePosition_holds s1 (stamp_cost_basis s1 trade))
    as Hh2.
  destruct (stamp_cost_basis_fields s1 trade) as (Hsid & _).
  destruct (InsertTradeAndUpdatePosition s1 (stamp_cost_basis s1 trade))
    as [[b|msg] s2] eqn:Hit; simpl in *.
  - pose proof (InsertTradeAndUpdatePosition_fits _ _ _ _ Hit) as Hfit.
    rewrite stamp_cost_basis_leverage, Hlev in Hfit.
    apply InsertTradeAndUpdatePosition_logged in Hit as [Hlog _].
    rewrite Hsid, Hid in Hlog. rewrite Hacc in Hex1.
    assert (Hres : int4_fits (TradeEvent.Leverage e) = true
                   /\ trade_exists s2 (TradeEvent.TradeID e) = true
                   /\ account_exists s2 (TradeEvent.AccountID e) = true).
    { split; [exact Hfit|]. split; [exact Hlog|]. now apply Hh2. }
    destruct b; simpl; (split; [lia|]);
      (split; [eapply holds_trans; eassumption | intros _; exact Hres]).
  - split; [lia|]. split; [eapply holds_trans; eassumption | lia].
Qed.

Lemma import_loop_progress clock evs : forall i st,
  st_errors st <= st_errors (import_loop clock i st evs)
  /\ holds (st_store st) (st_store (import_loop clock i st evs))
  /\ (st_errors (import_loop clock i st evs) = st_errors st ->
      forall e, In e evs ->
        int4_fits (TradeEvent.Leverage e) = true
        /\ trade_exists (st_store (import_loop clock i st evs))
                        (TradeEvent.TradeID e) = true
        /\ account_exists (st_store (import_loop clock i st evs))
                          (TradeEvent.AccountID e) = true).
Proof.
  induction evs as [|e es IH]; intros i st; simpl.
  - split; [lia|]. split; [apply holds_refl|]. intros _ e [].
  - destruct (import_event_progress (clock i) st e) as (Hle & Hh & Hok).
    destruct (IH (S i) (import_event (clock i) st e)) as (Hle' & Hh' & Hok').
    split; [lia|]. split; [eapply holds_trans; eassumption|].
    intros Heq e' [<- | Hin].
    + destruct Hok as (H0 & H1 & H2); [lia|].
      destruct Hh' as [Ht Ha].
      split; [exact H0|]. split; [now apply Ht | now apply Ha].
    + apply Hok'; [lia | exact Hin].
Qed.

(** X21.  Import is idempotent: when an import was answered without errors,
    importing the same body again - the sort and the map iteration being
    permutations - inserts nothing, reports every event as a duplicate,
    answers 200, triggers no rebuild and leaves the whole ledger as it is. *)
Theorem import_is_idempotent
  (sort_Slice : (TradeEvent.t -> TradeEvent.t -> bool) ->
                list TradeEvent.t -> list TradeEvent.t)
  (range_order : list string -> list string) (clock clock' : nat -> Time)
  (s : Store) (evs : list TradeEvent.t)
  (status : Z) (resp : ImportResponse.t) (s' : Store) :
  (forall l, Permutation (sort_Slice timestamp_less l) l) ->
  (forall l, Permutation (range_order l) l) ->
  handleImportTrades sort_Slice range_order clock s (Some evs)
  = (writeJSON status resp, s') ->
  ImportResponse.Errors resp = 0 ->
  handleImportTrades sort_Slice range_order clock' s' (Some evs)
  = (writeJSON StatusOK
       (ImportResponse.mk (Z.of_nat (List.length evs)) 0
          (Z.of_nat (List.length evs)) 0
          (map duplicate_result (processing_order sort_Slice evs))),
     s').
Proof.
  intros Hsort Hrange H1 Herr. unfold handleImportTrades in *.
  destruct (List.length evs =? 0)%nat; [discriminate|].
  destruct (1000 <? List.length evs)%nat; [discriminate|].
  destruct (first_invalid 0 evs) as [[[i e] msg]|] eqn:Hfi; [discriminate|].
  apply first_invalid_None_Forall in Hfi.
  set (sorted := processing_order sort_Slice evs) in *.
  set (st := import_loop clock 0 (mkImportState s 0 0 0 [] []) sorted) in *.
  inversion H1 as [[Hst Hresp Hs']]. clear H1.
  assert (Herr0 : st_errors st = 0) by (rewrite <- Hresp in Herr; exact Herr).
  destruct (import_loop_progress clock sorted 0 (mkImportState s 0 0 0 [] []))
    as (_ & _ & Hok). fold st in Hok. simpl in Hok.
  specialize (Hok Herr0).
  pose proof (rebuild_all_holds (range_order (st_affected st)) (st_store st))
    as [Ht Ha].
  rewrite Hs' in Ht, Ha.
  assert (Hpres : Forall (present s') sorted).
  { apply Forall_forall. intros e He. destruct (Hok e He) as (H0 & H2 & H3).
    split; [split; [|exact H0]|split; [now apply Ht | now apply Ha]].
    rewrite Forall_forall in Hfi. apply Hfi.
    eapply Permutation_in; [apply Hsort | exact He]. }
  rewrite ?Hs'.
  rewrite (import_loop_present clock' sorted 0 (mkImportState s' 0 0 0 [] []))
    by exact Hpres.
  simpl.
  assert (Hnil : range_order [] = [])
    by (apply Permutation_nil; symmetry; apply Hrange).
  rewrite Hnil. simpl.
  assert (Hlen : List.length sorted = List.length evs)
    by (apply Permutation_length, Hsort).
  now rewrite Hlen.
Qed.

Lemma import_is_idempotent_witness :
  handleImportTrades insertionSort (fun l => l) (fun _ => t_11h)
    (snd (handleImportTrades insertionSort (fun l => l) (fun _ => t_10h)
            empty_store (Some s3_events)))
    (Some s3_events)
  = (writeJSON StatusOK
       (ImportResponse.mk 3 0 3 0
          (map duplicate_result (processing_order insertionSort s3_events))),
     snd (handleImportTrades insertionSort (fun l => l) (fun _ => t_10h)
            empty_store (Some s3_events))).
Proof.
  apply (import_is_idempotent insertionSort (fun l => l)
           (fun _ => t_10h) (fun _ => t_11h) empty_store s3_events
           StatusOK
           (match fst (handleImportTrades insertionSort (fun l => l)
                         (fun _ => t_10h) empty_store (Some s3_events)) with
            | writeJSON _ r => r
            | writeError _ _ => ImportResponse.mk 0 0 0 0 []
            end)).
  - intros l. apply insertionSort_perm.
  - intros l. reflexivity.
  - vm_compute. reflexivity.
  - vm_compute. reflexivity.
Defined.

(** ** Following the cursor *)

Section SortFilter.
Context {A : Type}.
Variable leb : A -> A -> bool.
Hypothesis leb_total : forall a b, leb a b = false -> leb b a = true.
Hypothesis leb_trans :
  forall a b c, leb a b = true -> leb b c = true -> leb a c = true.
Variable p : A -> bool.

Lemma insert_sorted_least x l :
  Forall (fun z => leb x z = true) l -> insert_sorted leb x l = x :: l.
Proof.
  destruct l as [|y l]; simpl; [reflexivity|].
  intros H. apply Forall_cons_iff in H as [-> _]. reflexivity.
Qed.

Lemma filter_insert_sorted x l :
  StronglySorted (fun a b => leb a b = true) l ->
  filter p (insert_sorted leb x l)
  = if p x then insert_sorted leb x (filter p l) else filter p l.
Proof.
  induction 1 as [|y l Hs IH Hall]; [simpl; destruct (p x); reflexivity|].
  cbn [insert_sorted]. destruct (leb x y) eqn:Hxy.
  - change (filter p (x :: y :: l))
      with (if p x then x :: filter p (y :: l) else filter p (y :: l)).
    destruct (p x); [|reflexivity].
    rewrite insert_sorted_least; [reflexivity|].
    apply Forall_forall. intros z Hz. apply filter_In in Hz as [Hz _].
    destruct Hz as [<- | Hz]; [exact Hxy|].
    rewrite Forall_forall in Hall. apply (leb_trans x y z Hxy).
    now apply Hall.
  - change (filter p (y :: insert_sorted leb x l))
      with (if p y then y :: filter p (insert_sorted leb x l)
            else filter p (insert_sorted leb x l)).
    rewrite IH. cbn [filter].
    destruct (p y), (p x); cbn [insert_sorted]; rewrite ?Hxy; reflexivity.
Qed.

(** WHERE and ORDER BY commute. *)
Lemma filter_sort_by l :
  filter p (sort_by leb l) = sort_by leb (filter p l).
Proof.
  induction l as [|x l IH]; simpl; [reflexivity|].
  rewrite filter_insert_sorted
    by (apply (sort_by_sorted leb leb_total leb_trans)).
  rewrite IH. destruct (p x); reflexivity.
Qed.
End SortFilter.

Lemma filter_and {A} (p q : A -> bool) l :
  filter p (filter q l) = filter (fun x => q x && p x) l.
Proof.
  induction l as [|x l IH]; simpl; [reflexivity|].
  destruct (q x); simpl; [destruct (p x)|]; now rewrite IH.
Qed.

Lemma filter_none {A} (p : A -> bool) l :
  (forall x, In x l -> p x = false) -> filter p l = [].
Proof.
  induction l as [|x l IH]; simpl; intros H; [reflexivity|].
  rewrite (H x (or_introl eq_refl)). apply IH. auto.
Qed.

Lemma filter_all {A} (p : A -> bool) l :
  (forall x, In x l -> p x = true) -> filter p l = l.
Proof.
  induction l as [|x l IH]; simpl; intros H; [reflexivity|].
  rewrite (H x (or_introl eq_refl)). f_equal. apply IH. auto.
Qed.

Lemma StronglySorted_middle {A} (R : A -> A -> Prop) l1 x l2 :
  StronglySorted R (l1 ++ x :: l2) ->
  Forall (fun y => R y x) l1 /\ Forall (R x) l2.
Proof.
  induction l1 as [|y l1 IH]; simpl; intros H.
  - inversion H; subst. auto.
  - inversion H as [|? ? Hs Hall]; subst.
    destruct (IH Hs) as [H1 H2]. split; [|exact H2].
    constructor; [|exact H1].
    rewrite Forall_forall in Hall. apply Hall.
    apply in_or_app. right. now left.
Qed.

Lemma firstn_length_app {A} (l1 l2 : list A) :
  firstn (List.length l1) (l1 ++ l2) = l1.
Proof. induction l1; simpl; [now destruct l2 | now f_equal]. Qed.

Lemma skipn_length_app {A} (l1 l2 : list A) :
  skipn (List.length l1) (l1 ++ l2) = l2.
Proof. induction l1; simpl; auto. Qed.

Lemma string_ltb_irrefl a : String.ltb a a = false.
Proof.
  unfold String.ltb. pose proof (String.compare_antisym a a) as H.
  destruct (String.compare a a); simpl in H; congruence.
Qed.

Lemma string_leb_neq_ltb a b :
  String.leb a b = true -> a <> b -> String.ltb a b = true.
Proof.
  unfold String.leb, String.ltb. intros H Hne.
  destruct (String.compare a b) eqn:E; try congruence.
  apply String.compare_eq_iff in E. contradiction.
Qed.

Lemma string_ltb_trans a b c :
  String.ltb a b = true -> String.ltb b c = true -> String.ltb a c = true.
Proof.
  intros Hab Hbc. destruct (String.ltb a c) eqn:Hac; [reflexivity|].
  apply ltb_false_leb in Hac. apply ltb_true_leb in Hab.
  assert (H : String.leb c b = true) by (eapply string_leb_trans; eauto).
  apply ltb_false_leb in H. congruence.
Qed.

(** The rows at or above a row in the listing order are not before it. *)
Lemma row_before_above x last :
  trade_order_desc x last = true ->
  row_before x (Trade.Timestamp last) (Trade.TradeID last) = false.
Proof.
  unfold trade_order_desc, trade_order_leb, row_before. intros H.
  apply orb_true_iff in H as [H | H].
  - apply Z.ltb_lt in H.
    destruct (Z.ltb_spec (instant (Trade.Timestamp x))
                (instant (Trade.Timestamp last))); [lia|].
    destruct (Z.eqb_spec (instant (Trade.Timestamp x))
                (instant (Trade.Timestamp last))); [lia | reflexivity].
  - apply andb_true_iff in H as [He Hl]. apply Z.eqb_eq in He.
    rewrite <- He, Z.ltb_irrefl, Z.eqb_refl. simpl.
    now apply ltb_false_leb.
Qed.

(** The rows below a row, with another id, are before it. *)
Lemma row_before_below x last :
  trade_order_desc last x = true ->
  Trade.TradeID x <> Trade.TradeID last ->
  row_before x (Trade.Timestamp last) (Trade.TradeID last) = true.
Proof.
  unfold trade_order_desc, trade_order_leb, row_before. intros H Hne.
  apply orb_true_iff in H as [H | H]; [now rewrite H|].
  apply andb_true_iff in H as [He Hl]. rewrite He. simpl.
  rewrite (string_leb_neq_ltb _ _ Hl Hne). apply orb_true_r.
Qed.

Lemma row_before_trans x last cts cid :
  row_before x (Trade.Timestamp last) (Trade.TradeID last) = true ->
  row_before last cts cid = true ->
  row_before x cts cid = true.
Proof.
  unfold row_before. intros H1 H2.
  apply orb_true_iff in H1, H2. apply orb_true_iff.
  rewrite ?andb_true_iff, ?Z.ltb_lt, ?Z.eqb_eq in *.
  destruct H1 as [H1 | [E1 L1]], H2 as [H2 | [E2 L2]].
  - left. lia.
  - left. lia.
  - left. lia.
  - right. split; [lia|]. eapply string_ltb_trans; eauto.
Qed.

Definition with_cursor (f : TradeFilter.t) (cursor : string) : TradeFilter.t :=
  TradeFilter.mk (TradeFilter.Symbol f) (TradeFilter.Side f)
    (TradeFilter.MarketType f) (TradeFilter.Start f) (TradeFilter.End_ f)
    cursor (TradeFilter.Limit f).

Definition before_cursor (cursor : option (Time * string)) (t : Trade.t) : bool :=
  match cursor with
  | Some (cts, cid) => row_before t cts cid
  | None => true
  end.

Lemma trade_matches_cursor a f cursor t :
  trade_matches a f cursor t
  = trade_matches a f None t && before_cursor cursor t.
Proof.
  unfold trade_matches, before_cursor. now rewrite andb_true_r.
Qed.

Lemma decodeCursor_encodeCursor t id :
  rfc3339_representable t -> decodeCursor (encodeCursor t id) = Ok (t, id).
Proof.
  intros Hrep. unfold decodeCursor, encodeCursor.
  rewrite DecodeString_EncodeToString, string_of_list_ascii_of_string.
  unfold Format at 1. rewrite split_bar_app by now apply Format_no_bar.
  fold (Format t). now rewrite time_Parse_Format.
Qed.

(** The rows selected after the cursor of row number [n] of a listing are
    the listing from row [n + 1] on. *)
Lemma matching_rows_after s a f c0 pre last post :
  NoDup (map Trade.TradeID (trades s)) ->
  matching_rows s a f c0 = (pre ++ last :: post)%list ->
  matching_rows s a (with_cursor f (encodeCursor (Trade.Timestamp last)
                                                 (Trade.TradeID last)))
                (Some (Trade.Timestamp last, Trade.TradeID last))
  = post.
Proof.
  intros Hnd Hrows.
  set (c1 := Some (Trade.Timestamp last, Trade.TradeID last)).
  set (f' := with_cursor f _).
  pose proof (matching_rows_sorted s a f c0) as Hsorted.
  rewrite Hrows in Hsorted.
  destruct (StronglySorted_middle _ _ _ _ Hsorted) as [Hpre Hpost].
  assert (Hperm : Permutation (matching_rows s a f c0)
                    (filter (trade_matches a f c0) (trades s)))
    by apply sort_by_perm.
  assert (Hlast : In last (filter (trade_matches a f c0) (trades s))).
  { eapply Permutation_in; [exact Hperm|]. rewrite Hrows.
    apply in_or_app. right. now left. }
  apply filter_In in Hlast as [_ Hlast].
  rewrite trade_matches_cursor in Hlast.
  apply andb_true_iff in Hlast as [_ Hlast0].
  assert (Hnd' : NoDup (map Trade.TradeID (pre ++ last :: post))).
  { rewrite <- Hrows.
    eapply Permutation_NoDup;
      [apply Permutation_map, Permutation_sym, Hperm|].
    now apply NoDup_map_filter. }
  assert (Heq : matching_rows s a f' c1
                = filter (before_cursor c1) (matching_rows s a f c0)).
  { unfold matching_rows.
    rewrite (filter_sort_by trade_order_desc).
    - f_equal. rewrite filter_and. apply filter_ext. intros t.
      change (trade_matches a f' c1 t) with (trade_matches a f c1 t).
      rewrite (trade_matches_cursor a f c1), (trade_matches_cursor a f c0).
      destruct (before_cursor c1 t) eqn:H1; [|now rewrite !andb_false_r].
      rewrite !andb_true_r.
      assert (H0 : before_cursor c0 t = true).
      { destruct c0 as [[cts cid]|]; [|reflexivity].
        simpl in *. eapply row_before_trans; eauto. }
      now rewrite H0, andb_true_r.
    - intros x y. unfold trade_order_desc. apply trade_order_leb_total.
    - intros x y z Hxy Hyz. unfold trade_order_desc in *.
      eapply trade_order_leb_trans; eauto. }
  rewrite Heq, Hrows, filter_app. simpl.
  assert (H1 : filter (before_cursor c1) pre = []).
  { apply filter_none.
    intros x Hx. rewrite Forall_forall in Hpre.
    simpl. now rewrite (row_before_above x last (Hpre x Hx)). }
  assert (H2 : filter (before_cursor c1) post = post).
  { apply filter_all.
    intros x Hx. rewrite Forall_forall in Hpost. simpl.
    apply row_before_below; [now apply Hpost|].
    rewrite map_app in Hnd'. simpl in Hnd'.
    apply NoDup_remove_2 in Hnd'. intros Hid. apply Hnd'.
    apply in_or_app. right. rewrite <- Hid. now apply in_map. }
  assert (H3 : row_before last (Trade.Timestamp last) (Trade.TradeID last)
               = false).
  { unfold row_before.
    now rewrite Z.ltb_irrefl, string_ltb_irrefl, andb_false_r. }
  rewrite H3, H1, H2. reflexivity.
Qed.

(** X22.  Pagination is continuous.  In a reachable ledger whose logged
    times have a zone offset below a day, when a page comes with a next
    cursor, it holds the first [limit] rows of the listing, and the call
    with that cursor returns - without failing - the [limit] rows that
    follow: no row is skipped and none is repeated.  The second page has no
    next cursor exactly when the listing ends with it. *)
Theorem ListTrades_next_page (ops : list operation) (accountID : string)
  (f : TradeFilter.t) (c0 : option (Time * string)) (res : TradeListResult.t) :
  (if String.eqb (TradeFilter.Cursor f) "" then Ok None
   else match decodeCursor (TradeFilter.Cursor f) with
        | Err e => Err ("invalid cursor: " ++ e)
        | Ok c => Ok (Some c)
        end) = Ok c0 ->
  log_zones_below_a_day (run ops) ->
  ListTrades (run ops) accountID f = Ok res ->
  TradeListResult.NextCursor res <> "" ->
  let L := Z.to_nat (effective_limit (TradeFilter.Limit f)) in
  let rows := matching_rows (run ops) accountID f c0 in
  TradeListResult.Trades res = firstn L rows
  /\ exists res2,
       ListTrades (run ops) accountID
                  (with_cursor f (TradeListResult.NextCursor res)) = Ok res2
       /\ TradeListResult.Trades res2 = firstn L (skipn L rows)
       /\ (TradeListResult.NextCursor res2 = ""
           <-> (List.length rows <= 2 * L)%nat).
Proof.
  intros Hc Hzone Hres Hnc L rows.
  destruct (ListTrades_page (run ops) accountID f c0 Hc)
    as (res' & Hres' & Htr & Hmore & Hend).
  rewrite Hres in Hres'. inversion Hres'; subst res'; clear Hres'.
  pose proof (effective_limit_range (TradeFilter.Limit f)) as HL.
  set (Lz := effective_limit (TradeFilter.Limit f)) in *.
  fold rows in Htr, Hmore, Hend.
  assert (HS : Z.to_nat (Lz + 1) = S L) by (unfold L; lia).
  rewrite HS in *.
  assert (Hfl : List.length (firstn (S L) rows)
                = Nat.min (S L) (List.length rows)) by apply length_firstn.
  assert (Hlen : (S L <= List.length rows)%nat).
  { destruct (Z.le_gt_cases (Z.of_nat (List.length (firstn (S L) rows))) Lz)
      as [Hle | Hgt]; [|unfold L in *; lia].
    destruct (Hend Hle) as [Hempty _]. contradiction. }
  destruct Hmore as (last & Hnth & Hcur & _); [unfold L in *; lia|].
  assert (Hpage : TradeListResult.Trades res = firstn L rows).
  { rewrite Htr. fold L. rewrite firstn_firstn.
    now replace (Nat.min L (S L)) with L by lia. }
  split; [exact Hpage|].
  rewrite Hpage in Hnth.
  assert (HlenL : List.length (firstn L rows) = L)
    by (rewrite length_firstn; lia).
  rewrite HlenL in Hnth.
  apply nth_error_split in Hnth as (pre & tl & Hsplit & Hprelen).
  assert (Htl : tl = []).
  { apply (f_equal (@List.length _)) in Hsplit.
    rewrite HlenL, length_app in Hsplit. simpl in Hsplit.
    destruct tl; [reflexivity | simpl in Hsplit; unfold L in *; lia]. }
  subst tl.
  assert (Hrows : rows = (pre ++ last :: skipn L rows)%list).
  { rewrite <- (firstn_skipn L rows) at 1. rewrite Hsplit.
    now rewrite <- app_assoc. }
  destruct (run_wf ops) as [[[Hnd _] _] _].
  pose proof (matching_rows_after (run ops) accountID f c0 pre last
                (skipn L rows) Hnd Hrows) as Hafter.
  rewrite <- Hcur in Hafter.
  assert (Hin : In last (trades (run ops))).
  { assert (H : In last rows)
      by (rewrite Hrows; apply in_or_app; right; now left).
    apply (Permutation_in _ (sort_by_perm _ _)) in H.
    now apply filter_In in H as [H _]. }
  assert (Hrep : rfc3339_representable (Trade.Timestamp last)).
  { pose proof (run_log_times_parsed ops) as Hts.
    unfold log_times_parsed in Hts. unfold log_zones_below_a_day in Hzone.
    rewrite Forall_forall in Hts, Hzone.
    specialize (Hts last Hin). specialize (Hzone last Hin).
    unfold parsed_time in Hts. unfold rfc3339_representable.
    repeat split; lia. }
  set (f' := with_cursor f (TradeListResult.NextCursor res)) in *.
  assert (Hc' : (if String.eqb (TradeFilter.Cursor f') "" then Ok None
                 else match decodeCursor (TradeFilter.Cursor f') with
                      | Err e => Err ("invalid cursor: " ++ e)
                      | Ok c => Ok (Some c)
                      end)
                = Ok (Some (Trade.Timestamp last, Trade.TradeID last))).
  { simpl. apply String.eqb_neq in Hnc. rewrite Hnc, Hcur.
    now rewrite decodeCursor_encodeCursor. }
  destruct (ListTrades_page (run ops) accountID f' _ Hc')
    as (res2 & Hres2 & Htr2 & Hmore2 & Hend2).
  change (effective_limit (TradeFilter.Limit f')) with Lz in *.
  rewrite Hafter, HS in *. fold L in Htr2.
  assert (Hfl2 : List.length (firstn (S L) (skipn L rows))
                 = Nat.min (S L) (List.length rows - L)).
  { now rewrite length_firstn, length_skipn. }
  exists res2. split; [exact Hres2|]. split.
  - rewrite Htr2, firstn_firstn.
    now replace (Nat.min L (S L)) with L by lia.
  - split.
    + intros Hempty.
      destruct (Z.le_gt_cases
                  (Z.of_nat (List.length (firstn (S L) (skipn L rows)))) Lz)
        as [Hle | Hgt]; [unfold L in *; lia|].
      destruct Hmore2 as (l2 & _ & _ & Hne); [unfold L in *; lia|].
      contradiction.
    + intros Hle. apply Hend2. unfold L in *. lia.
Qed.

Definition first_page : TradeListResult.t :=
  match ListTrades (run s3_arrival) "live" (page_filter "" 2) with
  | Ok r => r
  | Err _ => TradeListResult.mk [] ""
  end.

Lemma ListTrades_next_page_witness :
  map Trade.TradeID (TradeListResult.Trades first_page) = ["t-3"; "t-2"]
  /\ exists res2,
       ListTrades (run s3_arrival) "live"
                  (with_cursor (page_filter "" 2)
                               (TradeListResult.NextCursor first_page))
       = Ok res2
       /\ TradeListResult.Trades res2
          = firstn 2 (skipn 2 (matching_rows (run s3_arrival) "live"
                                             (page_filter "" 2) None))
       /\ (TradeListResult.NextCursor res2 = ""
           <-> (List.length (matching_rows (run s3_arrival) "live"
                                           (page_filter "" 2) None)
                <= 2 * 2)%nat).
Proof.
  split; [vm_compute; reflexivity|].
  apply (ListTrades_next_page s3_arrival "live" (page_filter "" 2) None
           first_page).
  - reflexivity.
  - unfold log_zones_below_a_day.
    let l := eval vm_compute in (trades (run s3_arrival)) in
    change (trades (run s3_arrival)) with l.
    repeat constructor; discriminate.
  - vm_compute. reflexivity.
  - vm_compute. discriminate.
Defined.

(** ** Why a message is negatively acknowledged *)

Lemma insert_position_collision s row p :
  In p (positions s) -> Position.ID p = Position.ID row ->
  exists msg, insert_position s row = Err msg.
Proof.
  intros Hin Hid. unfold insert_position.
  destruct (negb (int4_fits _)); [eauto|].
  assert (Hex : existsb (fun p0 => String.eqb (Position.ID p0) (Position.ID row))
                        (positions s) = true).
  { apply existsb_exists. exists p. split; [exact Hin|].
    now apply String.eqb_eq. }
  rewrite Hex. eauto.
Qed.

Lemma UpsertPosition_collision tx t p :
  Trade.MarketType t = MarketTypeFutures \/ Trade.Side t = SideBuy ->
  query_open_position tx (Trade.AccountID t) (Trade.Symbol t)
                      (Trade.MarketType t) = None ->
  In p (positions tx) ->
  Position.ID p
  = position_id (Trade.AccountID t) (Trade.Symbol t)
      (MarketType_to_string (Trade.MarketType t)) (Trade.Timestamp t) ->
  exists msg, UpsertPosition tx t = Err msg.
Proof.
  intros Hopens Hq Hin Hid.
  unfold UpsertPosition, upsertSpotPosition, upsertFuturesPosition.
  destruct (Trade.MarketType t); rewrite Hq.
  - destruct Hopens as [Hm | Hs]; [discriminate|]. rewrite Hs.
    now apply (insert_position_collision _ _ p).
  - now apply (insert_position_collision _ _ p).
Qed.

(** X23.  A valid trade with a new id that has to open a position - a
    futures trade, or a spot buy, with no open position for its account,
    symbol and market type - is answered Nak when the id built for the new
    position (account, symbol, market type and the Unix second of the
    trade) is the id of a row that is already there, for instance a
    position closed within the same second.  The trade is then not logged
    and no position changes. *)
Theorem position_id_collision_is_Nak (s : Store) (e : TradeEvent.t)
  (now : Time) (t : Trade.t) (p : Position.t) :
  Validate e = Ok tt ->
  ToDomain e now = Ok t ->
  trade_exists s (Trade.TradeID t) = false ->
  Trade.MarketType t = MarketTypeFutures \/ Trade.Side t = SideBuy ->
  query_open_position s (Trade.AccountID t) (Trade.Symbol t)
                      (Trade.MarketType t) = None ->
  In p (positions s) ->
  Position.ID p
  = position_id (Trade.AccountID t) (Trade.Symbol t)
      (MarketType_to_string (Trade.MarketType t)) (Trade.Timestamp t) ->
  fst (handleMessage s (Some e) now) = Nak
  /\ trades (snd (handleMessage s (Some e) now)) = trades s
  /\ positions (snd (handleMessage s (Some e) now)) = positions s.
Proof.
  intros Hv Htd Hnew Hopens Hq Hin Hid.
  unfold handleMessage. rewrite Hv, Htd.
  destruct (GetOrCreateAccount_frame s (Trade.AccountID t)
              (InferAccountType (TradeEvent.AccountID e)) now)
    as (Htr & Hpos & _).
  destruct (GetOrCreateAccount _ _ _ _) as [[acct|msg] s1]; simpl in *;
    [|repeat split; assumption].
  destruct (stamp_cost_basis_fields s1 t) as (Hsid & Hsacc & Hsts).
  assert (Hsym : Trade.Symbol (stamp_cost_basis s1 t) = Trade.Symbol t
                 /\ Trade.MarketType (stamp_cost_basis s1 t)
                    = Trade.MarketType t
                 /\ Trade.Side (stamp_cost_basis s1 t) = Trade.Side t).
  { unfold stamp_cost_basis, CostBasisForTrade.
    destruct (Trade.Side t) eqn:Hs; repeat split; simpl; congruence. }
  destruct Hsym as (Hsym & Hmt & Hsd).
  set (tr := stamp_cost_basis s1 t) in *.
  destruct (InsertTradeAndUpdatePosition s1 tr) as [[b|msg] s2] eqn:Hit;
    simpl.
  - exfalso. revert Hit. unfold InsertTradeAndUpdatePosition, InsertTrade.
    destruct (negb (int4_fits _)); [discriminate|].
    assert (Hnew1 : trade_exists s1 (Trade.TradeID tr) = false).
    { unfold trade_exists in *. now rewrite Htr, Hsid. }
    rewrite Hnew1.
    destruct (negb (account_exists s1 (Trade.AccountID tr))); [discriminate|].
    destruct (UpsertPosition_collision
                (mkStore (accounts s1) (trades s1 ++ [tr]) (positions s1))
                tr p) as (msg & ->); [| | | |discriminate].
    + rewrite Hmt, Hsd. exact Hopens.
    + rewrite Hsacc, Hsym, Hmt. unfold query_open_position in *. simpl.
      now rewrite Hpos.
    + simpl. now rewrite Hpos.
    + now rewrite Hsacc, Hsym, Hmt, Hsts.
  - apply InsertTradeAndUpdatePosition_rollback in Hit. subst s2.
    repeat split; assumption.
Qed.

(** The row closed by [rx_sell], and the trade [rx_buy2] stands for. *)
Definition rx_closed_row : Position.t :=
  Eval vm_compute in
    nth 0 (positions (run [OpIngest (Some rx_buy1) t_11h;
                           OpIngest (Some rx_sell) t_11h])) sx_pos.

Definition rx_buy2_trade : Trade.t :=
  Trade.mk "r-3" "live" "BTC-USD" SideBuy 1 120 0 "USD"
           MarketTypeSpot (mkTime 2025 1 15 10 0 0 900000000 0)
           t_11h (1 * 120 + 0)%Q 0%Q None None None None.

Lemma position_id_collision_is_Nak_witness :
  fst (handleMessage
         (run [OpIngest (Some rx_buy1) t_11h; OpIngest (Some rx_sell) t_11h])
         (Some rx_buy2) t_11h) = Nak
  /\ trades (snd (handleMessage
                    (run [OpIngest (Some rx_buy1) t_11h;
                          OpIngest (Some rx_sell) t_11h])
                    (Some rx_buy2) t_11h))
     = trades (run [OpIngest (Some rx_buy1) t_11h;
                    OpIngest (Some rx_sell) t_11h])
  /\ positions (snd (handleMessage
                       (run [OpIngest (Some rx_buy1) t_11h;
                             OpIngest (Some rx_sell) t_11h])
                       (Some rx_buy2) t_11h))
     = positions (run [OpIngest (Some rx_buy1) t_11h;
                       OpIngest (Some rx_sell) t_11h]).
Proof.
  apply (position_id_collision_is_Nak
           (run [OpIngest (Some rx_buy1) t_11h; OpIngest (Some rx_sell) t_11h])
           rx_buy2 t_11h rx_buy2_trade
           rx_closed_row).
  - reflexivity.
  - reflexivity.
  - reflexivity.
  - right. reflexivity.
  - reflexivity.
  - left. vm_compute. reflexivity.
  - vm_compute. reflexivity.
Defined.

(** ** The stamp of a spot sell agrees with the position *)

(** X24.  For a spot sell against an open position, the realized P&L stamped on
    the trade is exactly the amount the engine adds to the realized P&L of
    the position, and the stamped cost basis is the position's average
    entry price times the sold quantity. *)
Theorem spot_sell_stamp_matches_position (s : Store) (t : Trade.t)
  (pos : Position.t) :
  pk_unique s ->
  Trade.MarketType t = MarketTypeSpot ->
  Trade.Side t = SideSell ->
  query_open_position s (Trade.AccountID t) (Trade.Symbol t) MarketTypeSpot
  = Some pos ->
  let stamped := stamp_cost_basis s t in
  exists s' pos',
    UpsertPosition s stamped = Ok s'
    /\ In pos' (positions s')
    /\ Position.ID pos' = Position.ID pos
    /\ (Position.RealizedPnL pos'
        == Position.RealizedPnL pos + Trade.RealizedPnL stamped)%Q
    /\ (Trade.CostBasis stamped
        == Position.AvgEntryPrice pos * Trade.Quantity t)%Q.
Proof.
  intros Hpk Hm Hs Hq stamped.
  assert (Hst : stamped
                = with_cost_basis t
                    (Position.AvgEntryPrice pos * Trade.Quantity t)%Q
                    ((Trade.Price t - Position.AvgEntryPrice pos)
                     * Trade.Quantity t - Trade.Fee t)%Q).
  { unfold stamped, stamp_cost_basis, CostBasisForTrade, GetAvgEntryPrice.
    now rewrite Hs, Hm, Hq. }
  destruct (query_open_position_In _ _ _ _ _ Hq) as [Hin _].
  assert (Hrow : forall f,
            Position.ID (f pos) = Position.ID pos ->
            In (f pos) (positions (update_position s (Position.ID pos) f))).
  { intros f _. unfold update_position; simpl. apply in_map_iff.
    exists pos. split; [|exact Hin]. now rewrite String.eqb_refl. }
  rewrite Hst.
  unfold UpsertPosition, upsertSpotPosition. simpl. rewrite Hm, Hq, Hs.
  destruct (Qle_bool _ _); eexists; eexists;
    (split; [reflexivity|]);
    (split; [apply Hrow; reflexivity|]);
    simpl; repeat split; reflexivity.
Qed.

Lemma spot_sell_stamp_matches_position_witness :
  exists s' pos',
    UpsertPosition sx_store (stamp_cost_basis sx_store sx_sell) = Ok s'
    /\ In pos' (positions s')
    /\ Position.ID pos' = Position.ID sx_pos
    /\ (Position.RealizedPnL pos'
        == Position.RealizedPnL sx_pos
           + Trade.RealizedPnL (stamp_cost_basis sx_store sx_sell))%Q
    /\ (Trade.CostBasis (stamp_cost_basis sx_store sx_sell)
        == Position.AvgEntryPrice sx_pos * Trade.Quantity sx_sell)%Q.
Proof.
  apply (spot_sell_stamp_matches_position sx_store sx_sell sx_pos).
  - repeat constructor. simpl. tauto.
  - reflexivity.
  - reflexivity.
  - reflexivity.
Defined.

(** ** What a page of trades can hold *)

Lemma In_firstn {A} n (l : list A) x : In x (firstn n l) -> In x l.
Proof.
  intros H. rewrite <- (firstn_skipn n l). apply in_or_app. now left.
Qed.



(** ** Listing orders *)

Lemma order_order_desc_total a b :
  order_order_desc a b = false -> order_order_desc b a = true.
Proof.
  unfold order_order_desc. intros H.
  apply orb_false_elim in H as [Hlt Heq].
  apply Z.ltb_ge in Hlt.
  destruct (instant (Order.CreatedAt a) <? instant (Order.CreatedAt b)) eqn:Hab;
    [reflexivity|].
  apply Z.ltb_ge in Hab.
  assert (He : instant (Order.CreatedAt b) = instant (Order.CreatedAt a)) by lia.
  rewrite He, Z.eqb_refl in *. simpl in *.
  destruct (String.leb_total (Order.OrderID a) (Order.OrderID b)); congruence.
Qed.

Lemma order_order_desc_trans a b c :
  order_order_desc a b = true -> order_order_desc b c = true ->
  order_order_desc a c = true.
Proof.
  unfold order_order_desc. intros Hab Hbc.
  apply orb_true_iff in Hab, Hbc. apply orb_true_iff.
  destruct Hab as [Hab|Hab], Hbc as [Hbc|Hbc];
    rewrite ?andb_true_iff, ?Z.ltb_lt, ?Z.eqb_eq in *.
  - left. lia.
  - left. lia.
  - left. lia.
  - right. destruct Hab as [E1 L1], Hbc as [E2 L2].
    split; [lia|]. eapply string_leb_trans; eauto.
Qed.

(** X26.  [ListOrders] clamps the limit as [ListTrades] does, fails with
    "invalid cursor" on a cursor that does not decode, and otherwise
    returns the first [limit] of the account's orders that pass the status
    and symbol filters and lie before the cursor, newest first by
    (created_at, order_id); the next cursor is set exactly when more rows
    matched, and then encodes the last returned row. *)
Theorem ListOrders_spec (orders : list Order.t) (accountID : string)
  (f : OrderFilter.t) :
  let L := Z.to_nat (effective_limit (OrderFilter.Limit f)) in
  (forall e, OrderFilter.Cursor f <> "" ->
             decodeCursor (OrderFilter.Cursor f) = Err e ->
             ListOrders orders accountID f = Err ("invalid cursor: " ++ e))
  /\ (forall cursor,
        (OrderFilter.Cursor f = "" /\ cursor = None)
        \/ (OrderFilter.Cursor f <> ""
            /\ exists c, decodeCursor (OrderFilter.Cursor f) = Ok c
                         /\ cursor = Some c) ->
        let rows := matching_orders orders accountID f cursor in
        exists res,
          ListOrders orders accountID f = Ok res
          /\ OrderListResult.Orders res = firstn L rows
          /\ (List.length (OrderListResult.Orders res) <= 200)%nat
          /\ StronglySorted (fun a b => order_order_desc a b = true)
                            (OrderListResult.Orders res)
          /\ (forall o, In o (OrderListResult.Orders res) ->
                In o orders /\ Order.AccountID o = accountID
                /\ (OrderFilter.Status f = ""
                    \/ OrderStatus_to_string (Order.Status o)
                       = OrderFilter.Status f)
                /\ (OrderFilter.Symbol f = ""
                    \/ Order.Symbol o = OrderFilter.Symbol f))
          /\ ((List.length rows <= L)%nat ->
              OrderListResult.NextCursor res = "")
          /\ ((L < List.length rows)%nat ->
              exists last,
                nth_error rows (L - 1) = Some last
                /\ OrderListResult.NextCursor res
                   = encodeCursor (Order.CreatedAt last) (Order.OrderID last)
                /\ OrderListResult.NextCursor res <> "")).
Proof.
  intros L. pose proof (effective_limit_range (OrderFilter.Limit f)) as HL.
  split.
  - intros e Hne Hdec. unfold ListOrders.
    apply String.eqb_neq in Hne. now rewrite Hne, Hdec.
  - intros cursor Hcur rows.
    assert (Hc : (if String.eqb (OrderFilter.Cursor f) "" then Ok None
                  else match decodeCursor (OrderFilter.Cursor f) with
                       | Err e => Err ("invalid cursor: " ++ e)
                       | Ok c => Ok (Some c)
                       end) = Ok cursor).
    { destruct Hcur as [[-> ->] | (Hne & c & Hdec & ->)]; [reflexivity|].
      apply String.eqb_neq in Hne. now rewrite Hne, Hdec. }
    assert (Hsorted : StronglySorted (fun a b => order_order_desc a b = true)
                                     rows).
    { apply sort_by_sorted.
      - apply order_order_desc_total.
      - apply order_order_desc_trans. }
    assert (Hsound : forall o, In o (firstn L rows) ->
              In o orders /\ Order.AccountID o = accountID
              /\ (OrderFilter.Status f = ""
                  \/ OrderStatus_to_string (Order.Status o)
                     = OrderFilter.Status f)
              /\ (OrderFilter.Symbol f = ""
                  \/ Order.Symbol o = OrderFilter.Symbol f)).
    { intros o Hin. apply In_firstn in Hin.
      apply (Permutation_in _ (sort_by_perm _ _)) in Hin.
      apply filter_In in Hin as [Hin Hm]. split; [exact Hin|].
      unfold order_matches in Hm.
      repeat (apply andb_true_iff in Hm as [Hm ?]).
      split; [now apply String.eqb_eq|].
      repeat match goal with
             | H : (_ || _) = true |- _ =>
                 apply orb_true_iff in H;
                 rewrite !String.eqb_eq in H
             end.
      split; assumption. }
    assert (Hfirst : StronglySorted (fun a b => order_order_desc a b = true)
                                    (firstn L rows)).
    { rewrite <- (firstn_skipn L rows) in Hsorted.
      clear -Hsorted. induction (firstn L rows) as [|x l IH]; [constructor|].
      simpl in Hsorted. inversion Hsorted as [|? ? Hs Hall]; subst.
      constructor; [now apply IH|].
      apply Forall_app in Hall. apply Hall. }
    unfold ListOrders. rewrite ListTrades_limit, Hc.
    fold (matching_orders orders accountID f cursor). fold rows.
    set (Lz := effective_limit (OrderFilter.Limit f)) in *.
    assert (HS : Z.to_nat (Lz + 1) = S L) by (unfold L; lia).
    assert (HLz : Z.to_nat Lz = L) by reflexivity.
    rewrite HS, HLz.
    assert (Hfl : List.length (firstn (S L) rows)
                  = Nat.min (S L) (List.length rows)) by apply length_firstn.
    assert (Hff : firstn L (firstn (S L) rows) = firstn L rows).
    { rewrite firstn_firstn. now replace (Nat.min L (S L)) with L by lia. }
    destruct (Lz <? Z.of_nat (List.length (firstn (S L) rows))) eqn:Hlt.
    + apply Z.ltb_lt in Hlt.
      assert (Hlen : (L < List.length rows)%nat) by (unfold L in *; lia).
      rewrite Hff.
      assert (HlenL : List.length (firstn L rows) = L)
        by (rewrite length_firstn; lia).
      rewrite HlenL.
      destruct (nth_error (firstn L rows) (L - 1)) as [last|] eqn:Hlast.
      2:{ apply nth_error_None in Hlast. unfold L in *. lia. }
      eexists. split; [reflexivity|]. simpl.
      split; [reflexivity|]. split; [unfold L in *; lia|].
      split; [exact Hfirst|]. split; [exact Hsound|].
      split; [lia|]. intros _. exists last.
      split; [|split; [reflexivity | apply encodeCursor_nonempty]].
      rewrite <- (firstn_skipn L rows).
      rewrite nth_error_app1 by (unfold L in *; lia). exact Hlast.
    + apply Z.ltb_ge in Hlt.
      assert (Hlen : (List.length rows <= L)%nat) by (unfold L in *; lia).
      assert (Hall : firstn (S L) rows = firstn L rows).
      { rewrite !firstn_all2 by lia. reflexivity. }
      rewrite Hall.
      eexists. split; [reflexivity|]. simpl.
      split; [reflexivity|].
      split; [rewrite length_firstn; unfold L in *; lia|].
      split; [exact Hfirst|]. split; [exact Hsound|].
      split; [reflexivity | lia].
Qed.

(** ** Accounts are created on first sight *)


